(** * Liveness pipeline of the door-unlock recognition server

    A shallow embedding of the image-processing code that decides whether a
    detected face is live:

    - [server/pseudo_depth_generator.py]: [_create_single_pseudo_depth_map]
      and its caller [generate_face_pseudo_depth_maps];
    - [server/tests/recognition_server _before.py]: [perform_liveness_check]
      and [allowed_file];
    - [server/tests/dotextractiontestcopy.py]: the same stages as a script;
    - [server/vignette_utils.py]: [apply_elliptical_vignette].

    NumPy arrays are Python objects: the arrays that the code mutates in
    place (drawing calls, slice assignment, [dst=] arguments) and the arrays a
    caller hands in live in an explicit store and are named by their
    location; arrays that are only ever rebound are plain values.  Library
    calls (OpenCV, SciPy, the depth model, scikit-image, matplotlib) are
    fields of an environment record: they may raise an [Exception], every
    call is recorded in a trace, and a call writes to an array only where
    the source hands that array over as the destination.  Floating-point
    numbers are modelled by exact rationals plus an explicit [NaN];
    rounding is not modelled, except in the vignette, where a product
    decides an integer (the side of the feathering kernel, the axes of
    the ellipse) and the float product is a parameter of the model.  An
    array without rows has width 0 here. *)

From Stdlib Require Import ZArith QArith Qround Ascii String List Lia Lqa
  Sorted.
From stdpp Require Import base option list gmap.
Import ListNotations.

Close Scope Q_scope.
Local Open Scope Z_scope.

(** ** Arrays *)

(** A float cell: [np.nan] or a finite number. *)
Inductive cell : Type :=
| NaN
| Fin (v : Q).

Abbreviation gray_image := (list (list Z)) (only parsing).
Abbreviation color_image := (list (list (Z * Z * Z))) (only parsing).
Abbreviation float_image := (list (list cell)) (only parsing).

(** A NumPy array as this code uses them: single-channel [uint8]
    (H x W), three-channel [uint8] (H x W x 3) or floating point (H x W),
    all row-major. *)
Inductive ndarray : Type :=
| Gray (px : gray_image)
| Color (px : color_image)
| Float (px : float_image).

#[global] Instance ndarray_inhabited : Inhabited ndarray := populate (Gray []).

Definition height {A} (px : list (list A)) : Z := Z.of_nat (length px).
Definition width {A} (px : list (list A)) : Z :=
  match px with
  | [] => 0
  | row :: _ => Z.of_nat (length row)
  end.

(** [a.shape[:2]], as (rows, columns). *)
Definition shape2 (a : ndarray) : Z * Z :=
  match a with
  | Gray px => (height px, width px)
  | Color px => (height px, width px)
  | Float px => (height px, width px)
  end.

(** [a.size]: the number of scalar elements. *)
Definition size (a : ndarray) : Z :=
  match a with
  | Gray px => height px * width px
  | Color px => height px * width px * 3
  | Float px => height px * width px
  end.

(** [np.zeros((h, w), dtype=np.uint8)]. *)
Definition zeros_u8 (h w : Z) : gray_image :=
  repeat (repeat 0 (Z.to_nat w)) (Z.to_nat h).

(** Python's [int(x)] on a float: truncation towards zero. *)
Definition py_int (x : Q) : Z :=
  if Qle_bool 0 x then Qfloor x else Qceiling x.

(** ** Exceptions, state and the monad of the model *)

(** The subclasses of [Exception] that the code distinguishes. *)
Inductive exception : Type :=
| cv2_error
| ValueError
| ImportError
| IndexError
| OtherException (tag : nat).

Definition is_cv2_error (e : exception) : bool :=
  match e with cv2_error => true | _ => false end.

(** How a call ends: it returns, it raises an [Exception], or the process
    leaves through [exit()] ([SystemExit] is not an [Exception], so
    [except Exception] does not stop it). *)
Inductive outcome (A : Type) : Type :=
| Ok (a : A)
| Raise (e : exception)
| Exit.
Arguments Ok {A} a.
Arguments Raise {A} e.
Arguments Exit {A}.

Definition loc : Type := nat.

(** One entry of the trace per library call. *)
Inductive event : Type :=
| EvGaussianBlur (ksize : Z * Z) (sigma : Q)
| EvCall (name : string).

Record state : Type := mkState {
  store : gmap loc ndarray;
  next : loc;
  trace : list event
}.

Definition M (A : Type) : Type := state -> outcome A * state.

Definition ret {A} (a : A) : M A := fun s => (Ok a, s).

Definition bind {A B} (m : M A) (k : A -> M B) : M B :=
  fun s =>
    match m s with
    | (Ok a, s') => k a s'
    | (Raise e, s') => (Raise e, s')
    | (Exit, s') => (Exit, s')
    end.

Declare Scope py_scope.
Delimit Scope py_scope with py.
Notation "x <- m ;; k" := (bind m (fun x => k))
  (at level 100, m at next level, right associativity) : py_scope.
Notation "m ;; k" := (bind m (fun _ => k))
  (at level 100, right associativity) : py_scope.
Local Open Scope py_scope.

Definition raise {A} (e : exception) : M A := fun s => (Raise e, s).
Definition sys_exit {A} : M A := fun s => (Exit, s).

(** [try: m  except <class> as e: h e], where [catches] tells which
    exceptions the [except] clause matches. *)
Definition try_except {A} (m : M A) (catches : exception -> bool)
    (h : exception -> M A) : M A :=
  fun s =>
    match m s with
    | (Raise e, s') => if catches e then h e s' else (Raise e, s')
    | r => r
    end.

(** [except Exception]. *)
Definition any_exception (e : exception) : bool := true.

(** A new array object. *)
Definition alloc (v : ndarray) : M loc :=
  fun s => (Ok (next s),
            {| store := <[next s := v]> (store s);
               next := S (next s);
               trace := trace s |}).

Definition read (l : loc) : M ndarray :=
  fun s => (Ok (store s !!! l), s).

(** An in-place update of the array object at [l]. *)
Definition write (l : loc) (v : ndarray) : M unit :=
  fun s => (Ok tt,
            {| store := <[l := v]> (store s);
               next := next s;
               trace := trace s |}).

Definition log (ev : event) : M unit :=
  fun s => (Ok tt,
            {| store := store s; next := next s; trace := trace s ++ [ev] |}).

Definition lift {A} (r : exception + A) : M A :=
  match r with
  | inl e => raise e
  | inr a => ret a
  end.

(** A library call: recorded, then its result or its exception. *)
Definition call {A} (name : string) (r : exception + A) : M A :=
  log (EvCall name) ;; lift r.

(** [a.copy()] of a stored array. *)
Definition copy (l : loc) : M loc := v <- read l ;; alloc v.

(** ** The libraries the pipeline calls

    Every field is one library call as the source makes it; [inl e] is the
    exception it raised.  Drawing calls, which work in place, return the new
    contents of the array they were given. *)

Inductive interpolation : Type := INTER_LINEAR | INTER_NEAREST.

Record FaceRegion : Type := mkFace { fx : Z; fy : Z; fw : Z; fh : Z }.

(** [cv2.KeyPoint]: only [pt] is read. *)
Record KeyPoint : Type := mkKeyPoint { pt_x : Q; pt_y : Q }.

(** A loaded model or processor. *)
Inductive handle : Type := Handle (id : nat).

Record library : Type := mkLibrary {
  (* OpenCV *)
  cv_GaussianBlur : ndarray -> Z * Z -> Q -> exception + ndarray;
  cv_normalize : ndarray -> Q -> Q -> exception + ndarray;
  cv_ellipse : ndarray -> Z * Z -> Z * Z -> Z -> exception + ndarray;
  cv_resize : ndarray -> Z * Z -> interpolation -> exception + ndarray;
  cv_applyColorMap : ndarray -> Z -> exception + ndarray;
  cv_convertScaleAbs : ndarray -> Q -> Q -> exception + ndarray;
  cv_cvtColor_BGR2GRAY : ndarray -> exception + gray_image;
  cv_cvtColor_BGR2RGB : ndarray -> exception + ndarray;
  cascade_empty : bool;
  cv_detectMultiScale : gray_image -> exception + list FaceRegion;
  cv_rectangle : ndarray -> Z * Z -> Z * Z -> Z * Z * Z -> Z ->
                 exception + ndarray;
  cv_circle : ndarray -> Z * Z -> Z -> Z * Z * Z -> Z -> exception + ndarray;
  clahe_apply : gray_image -> exception + gray_image;
  cv_adaptiveThreshold : gray_image -> Z -> Z -> exception + gray_image;
  cv_erode : gray_image -> Z -> Z -> exception + gray_image;
  cv_dilate : gray_image -> Z -> Z -> exception + gray_image;
  blob_detect : gray_image -> exception + list KeyPoint;
  cv_addWeighted : ndarray -> Q -> ndarray -> Q -> Q -> exception + ndarray;
  cv_imshow : string -> ndarray -> exception + unit;
  cv_waitKey : Z -> exception + unit;
  (* NumPy *)
  np_astype_uint8 : ndarray -> ndarray;
  np_percentile : ndarray -> Z -> exception + cell;
  np_mean_squared_difference : float_image -> ndarray -> exception + cell;
  (* matplotlib and scipy.spatial *)
  plt_scatter_3d : list (Z * Z) -> list Z -> exception + unit;
  delaunay_trisurf : list (Z * Z) -> list Z -> exception + unit;
  plt_set_labels : exception + unit;
  (* scipy.interpolate *)
  griddata_linear : list (Z * Z) -> list Q -> Z * Z -> Z * Z ->
                    exception + float_image;
  (* transformers / torch *)
  processor_from_pretrained : exception + handle;
  model_from_pretrained : exception + handle;
  estimate_depth : handle -> handle -> ndarray -> exception + float_image;
  (* skimage.metrics.structural_similarity, [None] when the import failed *)
  ssim : option (float_image -> ndarray -> Q -> Z ->
                 exception + (cell * ndarray))
}.

(** ** Element-wise operations that the model computes itself *)

(** Two rows (or two arrays) combined element by element; [None] when
    their sizes differ, where OpenCV raises. *)
Fixpoint zip_row {A B C} (f : A -> B -> C) (l1 : list A) (l2 : list B)
    : option (list C) :=
  match l1, l2 with
  | [], [] => Some []
  | a :: l1', b :: l2' =>
      match zip_row f l1' l2' with
      | Some r => Some (f a b :: r)
      | None => None
      end
  | _, _ => None
  end.

Fixpoint zip_image {A B C} (f : A -> B -> C) (r1 : list (list A))
    (r2 : list (list B)) : option (list (list C)) :=
  match r1, r2 with
  | [], [] => Some []
  | a :: r1', b :: r2' =>
      match zip_row f a b, zip_image f r1' r2' with
      | Some x, Some y => Some (x :: y)
      | _, _ => None
      end
  | _, _ => None
  end.

Definition or_cv2_error (o : option ndarray) : exception + ndarray :=
  match o with
  | Some a => inr a
  | None => inl cv2_error
  end.

(** [cv2.bitwise_and(a, a, mask=mask)] into a new array: the element where
    the mask is non-zero (x AND x is x), zero elsewhere. *)
Definition keep_u8 (p m : Z) : Z := if m =? 0 then 0 else Z.land p p.
Definition keep_bgr (p : Z * Z * Z) (m : Z) : Z * Z * Z :=
  if m =? 0 then (0, 0, 0)
  else let '(b, g, r) := p in (Z.land b b, Z.land g g, Z.land r r).
Definition keep_float (c : cell) (m : Z) : cell :=
  if m =? 0 then Fin 0 else c.

Definition bitwise_and_self_masked (a mask : ndarray) : exception + ndarray :=
  match mask with
  | Gray m =>
      match a with
      | Gray px => or_cv2_error (Gray <$> zip_image keep_u8 px m)
      | Color px => or_cv2_error (Color <$> zip_image keep_bgr px m)
      | Float px => or_cv2_error (Float <$> zip_image keep_float px m)
      end
  | _ => inl cv2_error
  end.

(** [cv2.bitwise_and(a, b)] of two [uint8] arrays of one shape. *)
Definition and_bgr (p q : Z * Z * Z) : Z * Z * Z :=
  let '(b1, g1, r1) := p in
  let '(b2, g2, r2) := q in
  (Z.land b1 b2, Z.land g1 g2, Z.land r1 r2).

Definition bitwise_and (a b : ndarray) : exception + ndarray :=
  match a, b with
  | Gray p, Gray q => or_cv2_error (Gray <$> zip_image Z.land p q)
  | Color p, Color q => or_cv2_error (Color <$> zip_image and_bgr p q)
  | _, _ => inl cv2_error
  end.

(** [cv2.cvtColor(mask, cv2.COLOR_GRAY2BGR)]: the channel three times.
    Only [uint8] masks reach it; another channel count is an OpenCV
    error. *)
Definition cvtColor_GRAY2BGR (a : ndarray) : exception + ndarray :=
  match a with
  | Gray px => inr (Color (map (map (fun p => (p, p, p))) px))
  | _ => inl cv2_error
  end.

(** [mask.fill(v)]. *)
Definition fill (v : Z) (a : ndarray) : ndarray :=
  match a with
  | Gray px => Gray (map (map (fun _ => v)) px)
  | Color px => Color (map (map (fun _ => (v, v, v))) px)
  | Float px => Float (map (map (fun _ => Fin (inject_Z v))) px)
  end.

(** [255 - a] on an array. *)
Definition sub_from_255 (a : ndarray) : ndarray :=
  match a with
  | Gray px => Gray (map (map (fun p => 255 - p)) px)
  | Color px =>
      Color (map (map (fun '(b, g, r) => (255 - b, 255 - g, 255 - r))) px)
  | Float px =>
      Float (map (map (fun c =>
                         match c with
                         | NaN => NaN
                         | Fin v => Fin (255 - v)%Q
                         end)) px)
  end.

(** ** [pseudo_depth_generator.py] *)

Record depth_params : Type := mkDepthParams {
  blur_kernel_size : Z * Z;
  blur_sigma : Q;
  ellipse_scale_x : Q;
  ellipse_scale_y : Q;
  apply_colormap : bool;
  invert_colormap : bool;
  colormap_type : Z;
  brightness_alpha : Q;
  brightness_beta : Q;
  final_blur_kernel_size : Z * Z;
  final_blur_sigma : Q
}.

Definition COLORMAP_JET : Z := 2.
Definition COLORMAP_INFERNO : Z := 14.

(** The keyword defaults of [_create_single_pseudo_depth_map]. *)
Definition default_depth_params : depth_params :=
  {| blur_kernel_size := (41, 41);
     blur_sigma := 25;
     ellipse_scale_x := 85 # 100;
     ellipse_scale_y := 95 # 100;
     apply_colormap := true;
     invert_colormap := true;
     colormap_type := COLORMAP_JET;
     brightness_alpha := 1;
     brightness_beta := 15;
     final_blur_kernel_size := (45, 45);
     final_blur_sigma := 0 |}.

(** [k if k % 2 != 0 else k + 1] (lines 39, 40, 114 and 115). *)
Definition odd_kernel (k : Z) : Z :=
  if negb (k mod 2 =? 0) then k else k + 1.

Definition GaussianBlur (L : library) (src : ndarray) (ksize : Z * Z)
    (sigma : Q) : M ndarray :=
  log (EvGaussianBlur ksize sigma) ;; lift (cv_GaussianBlur L src ksize sigma).

(** [cv2.ellipse(mask, ...)] draws in place; when it raises [cv2.error]
    the mask is filled with 255 instead. *)
Definition draw_elliptical_mask (L : library) (mask : loc) (h w : Z)
    (p : depth_params) : M unit :=
  let center_x := w / 2 in
  let center_y := h / 2 in
  let axis_x := Z.max 1 (py_int ((inject_Z w / 2) * ellipse_scale_x p)%Q) in
  let axis_y := Z.max 1 (py_int ((inject_Z h / 2) * ellipse_scale_y p)%Q) in
  try_except
    (m <- read mask ;;
     m' <- call "cv2.ellipse"
             (cv_ellipse L m (center_x, center_y) (axis_x, axis_y) 255) ;;
     write mask m')
    is_cv2_error
    (fun _ => m <- read mask ;; write mask (fill 255 m)).

(** Step 6: the colormap, then the mask again.  On [cv2.error] the
    grayscale data stays. *)
Definition colorize (L : library) (p : depth_params)
    (display_data display_mask_resized : ndarray) : M (ndarray * bool) :=
  if apply_colormap p then
    try_except
      (let data_to_colorize :=
         if invert_colormap p
         then np_astype_uint8 L
                (sub_from_255 (np_astype_uint8 L display_data))
         else display_data in
       display_data_color <-
         call "cv2.applyColorMap"
           (cv_applyColorMap L data_to_colorize (colormap_type p)) ;;
       display_mask_3ch <-
         call "cv2.cvtColor" (cvtColor_GRAY2BGR display_mask_resized) ;;
       masked <- call "cv2.bitwise_and"
                   (bitwise_and display_data_color display_mask_3ch) ;;
       ret (masked, true))
      is_cv2_error
      (fun _ => ret (display_data, false))
  else ret (display_data, false).

(** Step 7: brightness and contrast, then the mask again. *)
Definition adjust_brightness (L : library) (p : depth_params)
    (final_image_before_brightness display_mask_resized : ndarray)
    (is_color : bool) : M ndarray :=
  if is_color && (negb (Qeq_bool (brightness_alpha p) 1)
                  || negb (Qeq_bool (brightness_beta p) 0)) then
    try_except
      (scaled <- call "cv2.convertScaleAbs"
                   (cv_convertScaleAbs L final_image_before_brightness
                      (brightness_alpha p) (brightness_beta p)) ;;
       display_mask_3ch <-
         call "cv2.cvtColor" (cvtColor_GRAY2BGR display_mask_resized) ;;
       call "cv2.bitwise_and" (bitwise_and scaled display_mask_3ch))
      is_cv2_error
      (fun _ => ret final_image_before_brightness)
  else ret final_image_before_brightness.

(** Step 8: the final blur, then the mask again. *)
Definition final_blur (L : library) (p : depth_params)
    (final_image_after_brightness display_mask_resized : ndarray)
    (is_color : bool) : M ndarray :=
  if is_color then
    try_except
      (let k_w_final := odd_kernel (fst (final_blur_kernel_size p)) in
       let k_h_final := odd_kernel (snd (final_blur_kernel_size p)) in
       if (0 <? k_w_final) && (0 <? k_h_final) then
         blurred <- GaussianBlur L final_image_after_brightness
                      (k_w_final, k_h_final) (final_blur_sigma p) ;;
         display_mask_3ch <-
           call "cv2.cvtColor" (cvtColor_GRAY2BGR display_mask_resized) ;;
         call "cv2.bitwise_and" (bitwise_and blurred display_mask_3ch)
       else ret final_image_after_brightness)
      is_cv2_error
      (fun _ => ret final_image_after_brightness)
  else ret final_image_after_brightness.

(** Step 1: the first blur; on [cv2.error] the ROI itself is used. *)
Definition initial_blur (L : library) (p : depth_params) (face_roi : loc)
    : M ndarray :=
  try_except
    (let k_w := odd_kernel (fst (blur_kernel_size p)) in
     let k_h := odd_kernel (snd (blur_kernel_size p)) in
     roi <- read face_roi ;;
     GaussianBlur L roi (k_w, k_h) (blur_sigma p))
    is_cv2_error
    (fun _ => read face_roi).

(** Steps 2 to 8. *)
Definition after_initial_blur (L : library) (p : depth_params)
    (target_display_size : Z * Z) (blurred_roi : ndarray)
    : M (option ndarray) :=
  (* 2. Normalize *)
  normalized_blurred <-
    call "cv2.normalize" (cv_normalize L blurred_roi 0 255) ;;
  let data_for_plotting := normalized_blurred in
  (* 3. Mask *)
  let '(h, w) := shape2 data_for_plotting in
  mask <- alloc (Gray (zeros_u8 h w)) ;;
  draw_elliptical_mask L mask h w p ;;
  (* 4. Apply Mask (Grayscale) *)
  m <- read mask ;;
  data_for_plotting <-
    call "cv2.bitwise_and" (bitwise_and_self_masked data_for_plotting m) ;;
  (* 5. Resize *)
  resized <-
    try_except
      (display_data <-
         call "cv2.resize"
           (cv_resize L data_for_plotting target_display_size INTER_LINEAR) ;;
       m <- read mask ;;
       display_mask_resized <-
         call "cv2.resize"
           (cv_resize L m target_display_size INTER_NEAREST) ;;
       ret (Some (display_data, display_mask_resized)))
      is_cv2_error
      (fun _ => ret None) ;;
  match resized with
  | None => ret None
  | Some (display_data, display_mask_resized) =>
      (* 6. Apply Colormap *)
      colored <- colorize L p display_data display_mask_resized ;;
      let '(final_image_before_brightness, is_color) := colored in
      (* 7. Apply Brightness/Contrast Adjustment *)
      final_image_after_brightness <-
        adjust_brightness L p final_image_before_brightness
          display_mask_resized is_color ;;
      (* 8. Apply Final Blur *)
      final_display_image <-
        final_blur L p final_image_after_brightness display_mask_resized
          is_color ;;
      ret (Some final_display_image)
  end.

(** [_create_single_pseudo_depth_map(face_roi, target_display_size, ...)];
    [None] is Python's [None]. *)
Definition _create_single_pseudo_depth_map (L : library)
    (face_roi : option loc) (target_display_size : Z * Z)
    (p : depth_params) : M (option ndarray) :=
  match face_roi with
  | None => ret None
  | Some face_roi =>
      roi <- read face_roi ;;
      if size roi =? 0 then ret None
      else
        blurred_roi <- initial_blur L p face_roi ;;
        after_initial_blur L p target_display_size blurred_roi
  end.

(** ** Array indexing, slicing and NaN handling *)

(** [np.int32] arithmetic wraps around. *)
Definition int32 (z : Z) : Z := (z + 2 ^ 31) mod 2 ^ 32 - 2 ^ 31.

(** [cv2.bitwise_not] on a [uint8] element. *)
Definition not_u8 (p : Z) : Z := Z.lnot p mod 256.

Definition bitwise_not (gray : gray_image) : gray_image :=
  map (map not_u8) gray.

(** [gray[y, x]] for indices that are not negative; [IndexError] outside
    the array. *)
Definition getitem (gray : gray_image) (y x : Z) : exception + Z :=
  match nth_error gray (Z.to_nat y) with
  | Some row =>
      match nth_error row (Z.to_nat x) with
      | Some p => inr p
      | None => inl IndexError
      end
  | None => inl IndexError
  end.

(** A Python slice bound on a sequence of length [n]: negative bounds
    count from the end, all bounds are clipped. *)
Definition slice_bound (n i : Z) : Z :=
  if i <? 0 then Z.max (i + n) 0 else Z.min i n.

(** [l[start:stop]]. *)
Definition py_slice {A} (l : list A) (start stop : Z) : list A :=
  let n := Z.of_nat (length l) in
  let s := slice_bound n start in
  let e := slice_bound n stop in
  take (Z.to_nat (e - s)) (drop (Z.to_nat s) l).

Definition slice_image {A} (px : list (list A)) (y0 y1 x0 x1 : Z)
    : list (list A) :=
  map (fun row => py_slice row x0 x1) (py_slice px y0 y1).

(** [a[y0:y1, x0:x1]]. *)
Definition getslice (a : ndarray) (y0 y1 x0 x1 : Z) : ndarray :=
  match a with
  | Gray px => Gray (slice_image px y0 y1 x0 x1)
  | Color px => Color (slice_image px y0 y1 x0 x1)
  | Float px => Float (slice_image px y0 y1 x0 x1)
  end.

(** [l[start:stop] = new], for [new] as long as the slice. *)
Definition set_slice {A} (l : list A) (start stop : Z) (new : list A)
    : list A :=
  let n := Z.of_nat (length l) in
  let s := slice_bound n start in
  let e := Z.max s (slice_bound n stop) in
  take (Z.to_nat s) l ++ new ++ drop (Z.to_nat e) l.

Definition set_slice_image {A} (px : list (list A)) (y0 y1 x0 x1 : Z)
    (new : list (list A)) : list (list A) :=
  set_slice px y0 y1
    (zip_with (fun row new_row => set_slice row x0 x1 new_row)
       (py_slice px y0 y1) new).

(** A write through the view [a[y0:y1, x0:x1]]: the new contents of [a]. *)
Definition setslice (a : ndarray) (y0 y1 x0 x1 : Z) (v : ndarray)
    : ndarray :=
  match a, v with
  | Gray px, Gray new => Gray (set_slice_image px y0 y1 x0 x1 new)
  | Color px, Color new => Color (set_slice_image px y0 y1 x0 x1 new)
  | Float px, Float new => Float (set_slice_image px y0 y1 x0 x1 new)
  | _, _ => a
  end.

(** [a.shape]. *)
Definition shape (a : ndarray) : list Z :=
  match a with
  | Gray px => [height px; width px]
  | Color px => [height px; width px; 3]
  | Float px => [height px; width px]
  end.

(** [a.T] of a two-dimensional array. *)
Fixpoint transpose {A} (rows : list (list A)) : list (list A) :=
  match rows with
  | [] => []
  | r :: rs =>
      match rs with
      | [] => map (fun x => [x]) r
      | _ => zip_with cons r (transpose rs)
      end
  end.

Definition isnan (c : cell) : bool :=
  match c with
  | NaN => true
  | Fin _ => false
  end.

(** Comparisons of floats: false as soon as one side is NaN. *)
Definition cell_ltb (a b : cell) : bool :=
  match a, b with
  | Fin x, Fin y => negb (Qle_bool y x)
  | _, _ => false
  end.
Definition cell_gtb (a b : cell) : bool := cell_ltb b a.

(** [np.isnan(a).any()]. *)
Definition any_nan (a : float_image) : bool := existsb (existsb isnan) a.

Definition finite_values (a : float_image) : list Q :=
  flat_map (fun row =>
              flat_map (fun c => match c with
                                 | NaN => []
                                 | Fin v => [v]
                                 end) row) a.

Fixpoint insert_sorted (x : Q) (l : list Q) : list Q :=
  match l with
  | [] => [x]
  | y :: l' => if Qle_bool x y then x :: l else y :: insert_sorted x l'
  end.

Definition sort_values (l : list Q) : list Q := fold_right insert_sorted [] l.

(** The median of a sorted, non-empty list: the middle element, or the
    mean of the two middle elements. *)
Definition median_of_sorted (l : list Q) : Q :=
  let n := length l in
  if Nat.even n
  then ((nth (n / 2 - 1) l 0 + nth (n / 2) l 0) / 2)%Q
  else nth (n / 2) l 0%Q.

(** [np.nanmedian(a)]: the median of the cells that are not NaN, NaN when
    there is none. *)
Definition nanmedian (a : float_image) : cell :=
  match sort_values (finite_values a) with
  | [] => NaN
  | l => Fin (median_of_sorted l)
  end.

(** [np.nan_to_num(a, nan=v)]. *)
Definition nan_to_num (a : float_image) (v : Q) : float_image :=
  map (map (fun c => match c with
                     | NaN => Fin v
                     | Fin x => Fin x
                     end)) a.

(** Lines 821 to 824: the fill step of the heatmap. *)
Definition fill_undefined (heatmap_norm : float_image) : float_image :=
  if any_nan heatmap_norm then
    let median_val := nanmedian heatmap_norm in
    let median_val := match median_val with
                      | NaN => 0%Q
                      | Fin v => v
                      end in
    nan_to_num heatmap_norm median_val
  else heatmap_norm.

(** [a[a < v] = v] and [a[a > v] = v], the new contents of [a]. *)
Definition clip_below (a : ndarray) (v : cell) : ndarray :=
  match a with
  | Float px => Float (map (map (fun c => if cell_ltb c v then v else c)) px)
  | _ => a
  end.
Definition clip_above (a : ndarray) (v : cell) : ndarray :=
  match a with
  | Float px => Float (map (map (fun c => if cell_gtb c v then v else c)) px)
  | _ => a
  end.

(** ** [perform_liveness_check] (recognition_server _before.py, 644-982) *)

Definition SIMILARITY_THRESHOLD : Q := 3 # 10.
Definition MSE_THRESHOLD : Q := 5 # 100.
Definition thresh_block_size : Z := 31.
Definition thresh_C : Z := 7.
Definition morph_kernel_size : Z := 3.
Definition morph_iterations : Z := 1.

(** [fx + fw] and [fy + fh]: sums of two [np.int32]. *)
Definition x_end (f : FaceRegion) : Z := int32 (fx f + fw f).
Definition y_end (f : FaceRegion) : Z := int32 (fy f + fh f).

(** The sort key [lambda f: f[2]*f[3]]: a product of two [np.int32]. *)
Definition area_key (f : FaceRegion) : Z := int32 (fw f * fh f).

(** [sorted(l, key=key, reverse=True)]: descending and stable, so elements
    with equal keys keep their order. *)
Fixpoint insert_desc {A} (key : A -> Z) (x : A) (l : list A) : list A :=
  match l with
  | [] => [x]
  | y :: l' => if key x <? key y then y :: insert_desc key x l' else x :: l
  end.

Definition sorted_reverse {A} (key : A -> Z) (l : list A) : list A :=
  fold_right (insert_desc key) [] l.

(** The three lists that the filtering loop fills. *)
Record dots : Type := mkDots {
  face_keypoints : list KeyPoint;
  face_dot_coords : list (Z * Z);
  face_dot_intensities : list Z
}.

Definition no_dots : dots := mkDots [] [] [].

(** One iteration of the loop at lines 724-738.  [gray] is the variable of
    that name at this point of the function. *)
Definition filter_keypoint (L : library) (gray : gray_image) (f : FaceRegion)
    (img_display : loc) (acc : dots) (kp : KeyPoint) : M dots :=
  let x := py_int (pt_x kp) in
  let y := py_int (pt_y kp) in
  if (fx f <? x) && (x <? x_end f) && (fy f <? y) && (y <? y_end f) then
    let y_clamped := Z.max 0 (Z.min y (height gray - 1)) in
    let x_clamped := Z.max 0 (Z.min x (width gray - 1)) in
    intensity <- lift (getitem gray y_clamped x_clamped) ;;
    d <- read img_display ;;
    d' <- call "cv2.circle" (cv_circle L d (x, y) 3 (0, 255, 0) (-1)) ;;
    write img_display d' ;;
    ret {| face_keypoints := face_keypoints acc ++ [kp];
           face_dot_coords := face_dot_coords acc ++ [(x, y)];
           face_dot_intensities := face_dot_intensities acc ++ [intensity] |}
  else ret acc.

Fixpoint filter_keypoints (L : library) (gray : gray_image) (f : FaceRegion)
    (img_display : loc) (acc : dots) (all_keypoints : list KeyPoint)
    : M dots :=
  match all_keypoints with
  | [] => ret acc
  | kp :: rest =>
      acc' <- filter_keypoint L gray f img_display acc kp ;;
      filter_keypoints L gray f img_display acc' rest
  end.

(** Lines 655-667: both loads sit in one [try]; a failure of the second
    leaves the processor loaded and the model [None]. *)
Definition load_depth_model (L : library) : M (option handle * option handle) :=
  depth_processor <-
    try_except
      (p <- call "AutoImageProcessor.from_pretrained"
              (processor_from_pretrained L) ;;
       ret (Some p))
      any_exception (fun _ => ret None) ;;
  match depth_processor with
  | None => ret (None, None)
  | Some p =>
      depth_model <-
        try_except
          (m <- call "AutoModelForDepthEstimation.from_pretrained"
                  (model_from_pretrained L) ;;
           ret (Some m))
          any_exception (fun _ => ret None) ;;
      ret (Some p, depth_model)
  end.

(** The local variables that the later stages read. *)
Record context : Type := mkContext {
  gray : gray_image;
  face : FaceRegion;
  img_display : loc;
  depth_processor : option handle;
  depth_model : option handle;
  found : dots
}.

(** Lines 686-740, for the face that was selected: the rectangle, stages
    2 to 5 and the filtering loop of stage 6. *)
Definition dots_in_face (L : library) (gray : gray_image)
    (img_display : loc) (models : option handle * option handle)
    (f : FaceRegion) : M context :=
  d <- read img_display ;;
  d' <- call "cv2.rectangle"
          (cv_rectangle L d (fx f, fy f) (x_end f, y_end f) (255, 0, 0) 2) ;;
  write img_display d' ;;
  (* 2. Preprocessing (CLAHE on full grayscale) *)
  let gray := bitwise_not gray in
  gray_enhanced <- call "clahe.apply" (clahe_apply L gray) ;;
  (* 3. Adaptive Thresholding *)
  thresh <- call "cv2.adaptiveThreshold"
              (cv_adaptiveThreshold L gray_enhanced
                 thresh_block_size thresh_C) ;;
  (* 4. Morphological Opening *)
  opened <- call "cv2.erode"
              (cv_erode L thresh morph_kernel_size morph_iterations) ;;
  opened <- call "cv2.dilate"
              (cv_dilate L opened morph_kernel_size morph_iterations) ;;
  let image_for_blob_detection := opened in
  (* 5. Blob Detection *)
  all_keypoints <- call "detector.detect"
                     (blob_detect L image_for_blob_detection) ;;
  (* 6. Filter Blobs to Keep Only Those Inside the Face ROI *)
  found <- filter_keypoints L gray f img_display no_dots all_keypoints ;;
  ret {| gray := gray;
         face := f;
         img_display := img_display;
         depth_processor := fst models;
         depth_model := snd models;
         found := found |}.

(** Stages 1 to 6 (lines 645-740).  [None] is the early
    [return is_live] when no face was detected. *)
Definition extract_face_dots (L : library) (ir_dot_image_bgr : loc)
    : M (option context) :=
  img_display <- copy ir_dot_image_bgr ;;
  frame <- read ir_dot_image_bgr ;;
  gray <- call "cv2.cvtColor" (cv_cvtColor_BGR2GRAY L frame) ;;
  log (EvCall "cv2.CascadeClassifier") ;;
  if cascade_empty L then sys_exit
  else
    models <- load_depth_model L ;;
    (* 1. Face Detection *)
    faces <- call "detectMultiScale" (cv_detectMultiScale L gray) ;;
    if (length faces =? 0)%nat then ret None
    else
      (* Assume the largest detected face is the one we want *)
      match sorted_reverse area_key faces with
      | [] => raise IndexError
      | f :: _ =>
          c <- dots_in_face L gray img_display models f ;;
          ret (Some c)
      end.

Definition dot_count (c : context) : Z :=
  Z.of_nat (length (face_dot_coords (found c))).

(** Stage 7 (lines 748-797): the 3D scatter plot. *)
Definition plot_point_cloud (L : library) (c : context) : M unit :=
  if 5 <? dot_count c then
    let points := face_dot_coords (found c) in
    let intensities := face_dot_intensities (found c) in
    call "ax.scatter" (plt_scatter_3d L points intensities) ;;
    try_except
      (if 4 <=? Z.of_nat (length points) then
         call "Delaunay" (delaunay_trisurf L points intensities)
       else ret tt)
      any_exception (fun _ => ret tt) ;;
    call "ax.set_xlabel" (plt_set_labels L)
  else ret tt.

(** Lines 828-846: the heatmap blended into [overlay], in place. *)
Definition draw_heatmap_overlay (L : library) (ir_dot_image_bgr : loc)
    (f : FaceRegion) (overlay : loc) (heatmap_norm : float_image)
    : M unit :=
  normalized <- call "cv2.normalize"
                  (cv_normalize L (Float heatmap_norm) 0 255) ;;
  let heatmap_vis := np_astype_uint8 L normalized in
  heatmap_color <- call "cv2.applyColorMap"
                     (cv_applyColorMap L heatmap_vis COLORMAP_JET) ;;
  frame <- read ir_dot_image_bgr ;;
  let '(rows, cols) := shape2 frame in
  mask <- alloc (Gray (zeros_u8 rows cols)) ;;
  m <- read mask ;;
  m' <- call "cv2.rectangle"
          (cv_rectangle L m (fx f, fy f) (x_end f, y_end f) (255, 0, 0)
             (-1)) ;;
  write mask m' ;;
  m <- read mask ;;
  let mask_roi := getslice m (fy f) (y_end f) (fx f) (x_end f) in
  if bool_decide (shape2 heatmap_color = shape2 mask_roi) then
    heatmap_color_masked <-
      call "cv2.bitwise_and"
        (bitwise_and_self_masked heatmap_color mask_roi) ;;
    ov <- read overlay ;;
    let roi_overlay := getslice ov (fy f) (y_end f) (fx f) (x_end f) in
    if bool_decide (shape heatmap_color_masked = shape roi_overlay) then
      blended <- call "cv2.addWeighted"
                   (cv_addWeighted L heatmap_color_masked (1 # 2)
                      roi_overlay (1 - (1 # 2))%Q 0) ;;
      (* dst=roi_overlay, a view of overlay *)
      ov <- read overlay ;;
      write overlay
        (setslice ov (fy f) (y_end f) (fx f) (x_end f) blended) ;;
      (* overlay[fy:fy+fh, fx:fx+fw] = roi_overlay *)
      ov <- read overlay ;;
      write overlay
        (setslice ov (fy f) (y_end f) (fx f) (x_end f)
           (getslice ov (fy f) (y_end f) (fx f) (x_end f)))
    else ret tt
  else ret tt.

(** Lines 799-855: the intensity heatmap; [None] when there are too few
    dots or when anything in the [try] raised. *)
Definition build_heatmap (L : library) (ir_dot_image_bgr : loc)
    (c : context) (overlay : loc) : M (option float_image) :=
  if 5 <? dot_count c then
    let points_xy := face_dot_coords (found c) in
    let normalized_z_intensity :=
      map (fun i => (inject_Z i / 255)%Q) (face_dot_intensities (found c)) in
    let f := face c in
    try_except
      (interpolated <-
         call "griddata"
           (griddata_linear L points_xy normalized_z_intensity
              (fx f, x_end f) (fy f, y_end f)) ;;
       let heatmap_norm := transpose interpolated in
       let heatmap_norm := fill_undefined heatmap_norm in
       draw_heatmap_overlay L ir_dot_image_bgr f overlay heatmap_norm ;;
       ret (Some heatmap_norm))
      any_exception (fun _ => ret None)
  else ret None.

(** Lines 891-892: the face box clamped to the frame, as
    [(fx_c, fy_c, fw_c, fh_c)]. *)
Definition clamp_roi (gray : gray_image) (f : FaceRegion) : Z * Z * Z * Z :=
  let fh_img := height gray in
  let fw_img := width gray in
  (Z.max 0 (fx f), Z.max 0 (fy f),
   Z.min (fw f) (fw_img - fx f), Z.min (fh f) (fh_img - fy f)).

(** Lines 942-943. *)
Definition win_size (target_h target_w : Z) : Z :=
  let win_size :=
    Z.min 7 (Z.min (target_h / 2 * 2 + 1) (target_w / 2 * 2 + 1)) in
  if win_size <? 3 then 3 else win_size.

(** The two local variables that make the verdict. *)
Record verdict : Type := mkVerdict {
  is_live : bool;
  similarity_score : cell
}.

(** Lines 904-923: the two windows that show the model's depth map. *)
Definition show_model_depth (L : library) (depth_map_model_roi : ndarray)
    : M unit :=
  v <- call "cv2.normalize" (cv_normalize L depth_map_model_roi 0 255) ;;
  let depth_vis := np_astype_uint8 L v in
  depth_color <- call "cv2.applyColorMap"
                   (cv_applyColorMap L depth_vis COLORMAP_JET) ;;
  call "cv2.imshow" (cv_imshow L "Model Depth Map (ROI)" depth_color) ;;
  call "cv2.waitKey" (cv_waitKey L 0) ;;
  depth_roi <- alloc depth_map_model_roi ;;
  d <- read depth_roi ;;
  vis_min_val <- call "np.percentile" (np_percentile L d 5) ;;
  d <- read depth_roi ;;
  vis_max_val <- call "np.percentile" (np_percentile L d 95) ;;
  d <- read depth_roi ;;
  write depth_roi (clip_below d vis_min_val) ;;
  d <- read depth_roi ;;
  write depth_roi (clip_above d vis_max_val) ;;
  d <- read depth_roi ;;
  depth_vis_clamped <- call "cv2.normalize" (cv_normalize L d 0 255) ;;
  depth_color_clamped <-
    call "cv2.applyColorMap"
      (cv_applyColorMap L depth_vis_clamped COLORMAP_INFERNO) ;;
  call "cv2.imshow"
    (cv_imshow L "Model Depth Map (ROI - Clamped Vis)" depth_color_clamped) ;;
  call "cv2.waitKey" (cv_waitKey L 0).

(** Lines 930-971: alignment, score and threshold. *)
Definition score_similarity (L : library) (heatmap_norm : float_image)
    (depth_map_model_norm : ndarray) : M verdict :=
  let target_h := height heatmap_norm in
  let target_w := width heatmap_norm in
  depth_map_model_norm_resized <-
    (if bool_decide (shape depth_map_model_norm = [target_h; target_w])
     then ret depth_map_model_norm
     else call "cv2.resize"
            (cv_resize L depth_map_model_norm (target_w, target_h)
               INTER_LINEAR)) ;;
  match ssim L with
  | Some structural_similarity =>
      let win_size := win_size target_h target_w in
      r <- call "ssim"
             (structural_similarity heatmap_norm
                depth_map_model_norm_resized 1%Q win_size) ;;
      let similarity_score := fst r in
      ret {| is_live := cell_gtb similarity_score (Fin SIMILARITY_THRESHOLD);
             similarity_score := similarity_score |}
  | None =>
      similarity_score <-
        call "np.mean"
          (np_mean_squared_difference L heatmap_norm
             depth_map_model_norm_resized) ;;
      ret {| is_live := cell_ltb similarity_score (Fin MSE_THRESHOLD);
             similarity_score := similarity_score |}
  end.

(** The body of the [try] at lines 864-971. *)
Definition compare_with_depth_model (L : library) (ir_dot_image_bgr : loc)
    (c : context) (heatmap_norm : float_image) (processor model : handle)
    : M verdict :=
  frame <- read ir_dot_image_bgr ;;
  rgb <- call "cv2.cvtColor" (cv_cvtColor_BGR2RGB L frame) ;;
  depth_map_model_full <-
    call "depth_model" (estimate_depth L processor model rgb) ;;
  let '(fx_c, fy_c, fw_c, fh_c) := clamp_roi (gray c) (face c) in
  if (fw_c <=? 0) || (fh_c <=? 0) then raise ValueError
  else
    let depth_map_model_roi :=
      getslice (Float depth_map_model_full)
        fy_c (fy_c + fh_c) fx_c (fx_c + fw_c) in
    depth_map_model_norm <-
      call "cv2.normalize" (cv_normalize L depth_map_model_roi 0 1) ;;
    show_model_depth L depth_map_model_roi ;;
    score_similarity L heatmap_norm depth_map_model_norm.

(** Stage 8 (lines 858-981).  On any exception the verdict is reset. *)
Definition depth_comparison (L : library) (ir_dot_image_bgr : loc)
    (c : context) (heatmap_norm : option float_image) : M verdict :=
  let unchecked := {| is_live := false; similarity_score := Fin (-1) |} in
  match heatmap_norm, depth_model c, depth_processor c with
  | Some heatmap_norm, Some model, Some processor =>
      try_except
        (compare_with_depth_model L ir_dot_image_bgr c heatmap_norm
           processor model)
        any_exception
        (fun _ => ret {| is_live := false; similarity_score := Fin (-1) |})
  | _, _, _ => ret unchecked
  end.

(** Lines 747-855: stage 7, the overlay and the heatmap. *)
Definition prepare_heatmap (L : library) (ir_dot_image_bgr : loc)
    (c : context) : M (option float_image) :=
  plot_point_cloud L c ;;
  overlay <- copy (img_display c) ;;
  build_heatmap L ir_dot_image_bgr c overlay.

(** Everything after stage 6, from the context that stages 1 to 6 leave. *)
Definition check_face_dots (L : library) (ir_dot_image_bgr : loc)
    (c : context) : M verdict :=
  heatmap_norm <- prepare_heatmap L ir_dot_image_bgr c ;;
  depth_comparison L ir_dot_image_bgr c heatmap_norm.

(** The whole function, with both locals of the verdict; the score is
    [None] where the function returns before it is assigned. *)
Definition liveness_verdict (L : library) (ir_dot_image_bgr : loc)
    : M (bool * option cell) :=
  extracted <- extract_face_dots L ir_dot_image_bgr ;;
  match extracted with
  | None => ret (false, None)
  | Some c =>
      v <- check_face_dots L ir_dot_image_bgr c ;;
      ret (is_live v, Some (similarity_score v))
  end.

(** [perform_liveness_check(ir_dot_image_bgr)] returns [is_live]. *)
Definition perform_liveness_check (L : library) (ir_dot_image_bgr : loc)
    : M bool :=
  r <- liveness_verdict L ir_dot_image_bgr ;;
  ret (fst r).

(** ** [generate_face_pseudo_depth_maps] (pseudo_depth_generator.py) *)

(** The file system as the generator sees it: [os.path.exists] and
    [cv2.imread], whose [None] is an unreadable image. *)
Record files : Type := mkFiles {
  path_exists : string -> bool;
  cv_imread : string -> exception + option ndarray
}.

(** [AttributeError], which the code never catches by name. *)
Definition AttributeError : exception := OtherException 0.

(** One iteration of the loop at lines 220-254: boxes without extent and
    empty crops are skipped, the box is drawn on the copy, and the map is
    appended unless it is [None]. *)
Definition process_face (L : library) (gray : gray_image)
    (image_with_boxes : loc) (display_size : Z * Z) (p : depth_params)
    (processed_images : list ndarray) (f : FaceRegion)
    : M (list ndarray) :=
  if (fw f <=? 0) || (fh f <=? 0) then ret processed_images
  else
    let face_roi_gray :=
      slice_image gray (fy f) (y_end f) (fx f) (x_end f) in
    if size (Gray face_roi_gray) =? 0 then ret processed_images
    else
      d <- read image_with_boxes ;;
      d' <- call "cv2.rectangle"
              (cv_rectangle L d (fx f, fy f) (x_end f, y_end f)
                 (0, 255, 0) 2) ;;
      write image_with_boxes d' ;;
      face_roi <- alloc (Gray face_roi_gray) ;;
      processed_img <-
        _create_single_pseudo_depth_map L (Some face_roi) display_size p ;;
      match processed_img with
      | Some img => ret (processed_images ++ [img])
      | None => ret processed_images
      end.

Fixpoint process_faces (L : library) (gray : gray_image)
    (image_with_boxes : loc) (display_size : Z * Z) (p : depth_params)
    (processed_images : list ndarray) (faces : list FaceRegion)
    : M (list ndarray) :=
  match faces with
  | [] => ret processed_images
  | f :: rest =>
      processed_images' <-
        process_face L gray image_with_boxes display_size p
          processed_images f ;;
      process_faces L gray image_with_boxes display_size p
        processed_images' rest
  end.

(** [generate_face_pseudo_depth_maps(image_path, haar_cascade_path, ...)]:
    the processed maps, the copy of the image with the boxes drawn (its
    location, [None] for Python's [None]) and the detected boxes.
    [detectMultiScale] gives an array of boxes, or the empty tuple when it
    finds nothing; a tuple has no [tolist], so line 214 raises
    [AttributeError] on it. *)
Definition generate_face_pseudo_depth_maps (F : files) (L : library)
    (image_path haar_cascade_path : string) (display_size : Z * Z)
    (p : depth_params)
    : M (list ndarray * option loc * list FaceRegion) :=
  (* 1. Load Cascade *)
  if negb (path_exists F haar_cascade_path) then ret ([], None, [])
  else
    log (EvCall "cv2.CascadeClassifier") ;;
    (* 2. Load Image *)
    if negb (path_exists F image_path) then ret ([], None, [])
    else
      image <- call "cv2.imread" (cv_imread F image_path) ;;
      match image with
      | None => ret ([], None, [])
      | Some image =>
          image_with_boxes <- alloc image ;;
          gray <- call "cv2.cvtColor" (cv_cvtColor_BGR2GRAY L image) ;;
          (* 4. Detect Faces *)
          faces <- call "detectMultiScale" (cv_detectMultiScale L gray) ;;
          match faces with
          | [] => raise AttributeError
          | _ :: _ =>
              let face_boxes := faces in
              (* 5. Process Each Face *)
              if (length faces =? 0)%nat
              then ret ([], Some image_with_boxes, face_boxes)
              else
                processed_images <-
                  process_faces L gray image_with_boxes display_size p []
                    faces ;;
                ret (processed_images, Some image_with_boxes, face_boxes)
          end
      end.

(** ** [apply_elliptical_vignette] (vignette_utils.py) *)

(** [np.zeros((h, w), dtype=np.float32)]. *)
Definition zeros_float (h w : Z) : float_image :=
  repeat (repeat (Fin 0) (Z.to_nat w)) (Z.to_nat h).

(** [np.clip(x, 0, 255)] on a finite number. *)
Definition clip_0_255 (x : Q) : Q :=
  if Qle_bool x 0 then 0%Q else if Qle_bool 255 x then 255%Q else x.

(** One element of [np.clip(image.astype(np.float32) * mask, 0, 255)
    .astype(np.uint8)]; the cast of NaN is left to the platform by NumPy
    and is 0 here. *)
Definition vignette_u8 (p : Z) (m : cell) : Z :=
  match m with
  | NaN => 0
  | Fin v => py_int (clip_0_255 (inject_Z p * v))
  end.

Definition vignette_bgr (p : Z * Z * Z) (m : cell) : Z * Z * Z :=
  let '(b, g, r) := p in (vignette_u8 b m, vignette_u8 g m, vignette_u8 r m).

(** The same for a float image, which stays float. *)
Definition vignette_float (c m : cell) : cell :=
  match c, m with
  | Fin x, Fin v => Fin (clip_0_255 (x * v))
  | _, _ => NaN
  end.

(** The mask read as a float array of shape (h, w). *)
Definition mask_cells (mask : ndarray) : option float_image :=
  match mask with
  | Float px => Some px
  | Gray px => Some (map (map (fun p => Fin (inject_Z p))) px)
  | Color _ => None
  end.

(** Steps 3 and 4 (lines 55-68): the image times the mask, clipped and
    cast back; shapes that do not match are NumPy's [ValueError]. *)
Definition multiply_by_mask (image mask : ndarray) : exception + ndarray :=
  match mask_cells mask with
  | None => inl ValueError
  | Some m =>
      match
        match image with
        | Gray px => Gray <$> zip_image vignette_u8 px m
        | Color px => Color <$> zip_image vignette_bgr px m
        | Float px => Float <$> zip_image vignette_float px m
        end
      with
      | Some result => inr result
      | None => inl ValueError
      end
  end.

(** [len(image.shape) == 3]. *)
Definition is_color_image (image : ndarray) : bool :=
  match image with
  | Color _ => true
  | _ => false
  end.

(** [cv2.cvtColor(mask, cv2.COLOR_GRAY2BGR)] on the float mask (line 58):
    [cv2.error] for a mask without elements or with three channels
    already.  The three equal channels of the result are represented by
    the one-channel array that they repeat. *)
Definition mask_to_bgr (mask : ndarray) : exception + ndarray :=
  match mask with
  | Color _ => inl cv2_error
  | _ => if size mask =? 0 then inl cv2_error else inr mask
  end.

(** [apply_elliptical_vignette(image, scale_x, scale_y, feather_sigma)].
    [float_mul] is the product of two floats as the platform rounds it;
    [w / 2] and [h / 2] are exact. *)
Definition apply_elliptical_vignette (L : library)
    (float_mul : Q -> Q -> Q) (image : option ndarray)
    (scale_x scale_y feather_sigma : Q) : M (option ndarray) :=
  match image with
  | None => ret None
  | Some image =>
      let '(h, w) := shape2 image in
      let is_color := is_color_image image in
      (* 1. Create a float mask *)
      mask <- alloc (Float (zeros_float h w)) ;;
      let center_x := w / 2 in
      let center_y := h / 2 in
      let axis_x :=
        Z.max 1 (py_int (float_mul (inject_Z w / 2)%Q scale_x)) in
      let axis_y :=
        Z.max 1 (py_int (float_mul (inject_Z h / 2)%Q scale_y)) in
      try_except
        (m <- read mask ;;
         m' <- call "cv2.ellipse"
                 (cv_ellipse L m (center_x, center_y) (axis_x, axis_y) 1) ;;
         write mask m')
        is_cv2_error
        (fun _ => m <- read mask ;; write mask (fill 1 m)) ;;
      (* 2. Apply feathering by blurring the mask *)
      m <- read mask ;;
      mask_value <-
        (if negb (Qle_bool feather_sigma 0) then
           let ksize := py_int (float_mul 6%Q feather_sigma) + 1 in
           let ksize := odd_kernel ksize in
           GaussianBlur L m (ksize, ksize) feather_sigma
         else ret m) ;;
      (* 3. Apply the mask to the image *)
      mask_for_image <-
        (if is_color
         then call "cv2.cvtColor" (mask_to_bgr mask_value)
         else ret mask_value) ;;
      (* 3. and 4. Multiply, clip, convert back *)
      result <- lift (multiply_by_mask image mask_for_image) ;;
      ret (Some result)
  end.

(** ** [allowed_file] (recognition_server _before.py, line 172) *)

Definition ALLOWED_EXTENSIONS : list string :=
  ["png"; "jpg"; "jpeg"]%string.

(** [c.lower()] on one character of an ASCII extension. *)
Definition lower_char (c : Ascii.ascii) : Ascii.ascii :=
  let n := Ascii.nat_of_ascii c in
  if ((65 <=? n) && (n <=? 90))%nat then Ascii.ascii_of_nat (n + 32) else c.

Fixpoint lower (s : string) : string :=
  match s with
  | EmptyString => EmptyString
  | String c rest => String (lower_char c) (lower rest)
  end.

(** [sep in s]. *)
Fixpoint contains (sep : Ascii.ascii) (s : string) : bool :=
  match s with
  | EmptyString => false
  | String c rest => if Ascii.eqb c sep then true else contains sep rest
  end.

(** [s.rsplit(sep, 1)] when [sep] occurs in [s]: the text before the last
    [sep] and the text after it; [None] when it does not occur. *)
Fixpoint rsplit_once (sep : Ascii.ascii) (s : string)
    : option (string * string) :=
  match s with
  | EmptyString => None
  | String c rest =>
      match rsplit_once sep rest with
      | Some (before, after) => Some (String c before, after)
      | None => if Ascii.eqb c sep then Some (EmptyString, rest) else None
      end
  end.

(** ['.' in filename and
     filename.rsplit('.', 1)[1].lower() in ALLOWED_EXTENSIONS]. *)
Definition allowed_file (filename : string) : bool :=
  contains "."%char filename &&
  match rsplit_once "."%char filename with
  | Some (_, ext) => bool_decide (lower ext ∈ ALLOWED_EXTENSIONS)
  | None => false
  end.

(** ** A bench library for concrete runs

    Deterministic stand-ins for the library calls: image operations return
    their input, the detectors return the given faces and keypoints, the
    interpolation and the depth model return constant maps. *)

Definition gray_of (a : ndarray) : gray_image :=
  match a with
  | Gray px => px
  | Color px => map (map (fun '(b, _, _) => b)) px
  | Float _ => []
  end.

Definition constant_map (rows cols : Z) (v : Q) : float_image :=
  repeat (repeat (Fin v) (Z.to_nat cols)) (Z.to_nat rows).

Definition bench_library (faces : list FaceRegion) (kps : list KeyPoint)
    (similarity : exception + cell) : library :=
  {| cv_GaussianBlur := fun a _ _ => inr a;
     cv_normalize := fun a _ _ => inr a;
     cv_ellipse := fun a _ _ _ => inr a;
     cv_resize := fun a _ _ => inr a;
     cv_applyColorMap := fun a _ => cvtColor_GRAY2BGR (Gray (gray_of a));
     cv_convertScaleAbs := fun a _ _ => inr a;
     cv_cvtColor_BGR2GRAY := fun a => inr (gray_of a);
     cv_cvtColor_BGR2RGB := fun a => inr a;
     cascade_empty := false;
     cv_detectMultiScale := fun _ => inr faces;
     cv_rectangle := fun a _ _ _ _ => inr a;
     cv_circle := fun a _ _ _ _ => inr a;
     clahe_apply := fun g => inr g;
     cv_adaptiveThreshold := fun g _ _ => inr g;
     cv_erode := fun g _ _ => inr g;
     cv_dilate := fun g _ _ => inr g;
     blob_detect := fun _ => inr kps;
     cv_addWeighted := fun a _ _ _ _ => inr a;
     cv_imshow := fun _ _ => inr tt;
     cv_waitKey := fun _ => inr tt;
     np_astype_uint8 := fun a =>
       match a with
       | Float px =>
           Gray (map (map (fun c => match c with
                                    | NaN => 0
                                    | Fin v => Qfloor v
                                    end)) px)
       | _ => a
       end;
     np_percentile := fun _ _ => inr (Fin (1 # 2));
     np_mean_squared_difference := fun _ _ => inr (Fin 0);
     plt_scatter_3d := fun _ _ => inr tt;
     delaunay_trisurf := fun _ _ => inr tt;
     plt_set_labels := inr tt;
     griddata_linear := fun _ _ xs ys =>
       inr (constant_map (snd xs - fst xs) (snd ys - fst ys) (1 # 2));
     processor_from_pretrained := inr (Handle 0);
     model_from_pretrained := inr (Handle 1);
     estimate_depth := fun _ _ a =>
       inr (constant_map (fst (shape2 a)) (snd (shape2 a)) (1 # 2));
     ssim := Some (fun _ b _ _ =>
                     match similarity with
                     | inl e => inl e
                     | inr c => inr (c, b)
                     end) |}.

(** A 64 x 64 frame whose gray value at row [r], column [c] is
    [r + 2 c]. *)
Definition bench_gray : list (list Z) :=
  map (fun r => map (fun c => r + 2 * c) (seqZ 0 64)) (seqZ 0 64).

Definition bench_frame : ndarray :=
  Color (map (map (fun p => (p, p, p))) bench_gray).

(** The caller's state: the frame is the only array, at location 0. *)
Definition bench_state : state :=
  {| store := {[ 0%nat := bench_frame ]}; next := 1%nat; trace := [] |}.

Definition kp (x y : Q) : KeyPoint := mkKeyPoint x y.

(** Blob centres strictly inside [bench_face]. *)
Definition six_dots : list KeyPoint :=
  [kp (21 # 2) (25 # 2); kp (41 # 2) (25 # 2); kp (61 # 2) (25 # 2);
   kp (21 # 2) (81 # 2); kp (41 # 2) (81 # 2); kp (61 # 2) (101 # 2)].

Definition five_dots : list KeyPoint :=
  [kp (21 # 2) (25 # 2); kp (41 # 2) (25 # 2); kp (61 # 2) (25 # 2);
   kp (21 # 2) (81 # 2); kp (41 # 2) (81 # 2)].

Definition bench_face : FaceRegion := mkFace 4 4 56 56.

(** The library [L] with a face detector that returns [faces]. *)
Definition with_faces (L : library) (faces : list FaceRegion) : library :=
  {| cv_GaussianBlur := cv_GaussianBlur L;
     cv_normalize := cv_normalize L;
     cv_ellipse := cv_ellipse L;
     cv_resize := cv_resize L;
     cv_applyColorMap := cv_applyColorMap L;
     cv_convertScaleAbs := cv_convertScaleAbs L;
     cv_cvtColor_BGR2GRAY := cv_cvtColor_BGR2GRAY L;
     cv_cvtColor_BGR2RGB := cv_cvtColor_BGR2RGB L;
     cascade_empty := cascade_empty L;
     cv_detectMultiScale := fun _ => inr faces;
     cv_rectangle := cv_rectangle L;
     cv_circle := cv_circle L;
     clahe_apply := clahe_apply L;
     cv_adaptiveThreshold := cv_adaptiveThreshold L;
     cv_erode := cv_erode L;
     cv_dilate := cv_dilate L;
     blob_detect := blob_detect L;
     cv_addWeighted := cv_addWeighted L;
     cv_imshow := cv_imshow L;
     cv_waitKey := cv_waitKey L;
     np_astype_uint8 := np_astype_uint8 L;
     np_percentile := np_percentile L;
     np_mean_squared_difference := np_mean_squared_difference L;
     plt_scatter_3d := plt_scatter_3d L;
     delaunay_trisurf := delaunay_trisurf L;
     plt_set_labels := plt_set_labels L;
     griddata_linear := griddata_linear L;
     processor_from_pretrained := processor_from_pretrained L;
     model_from_pretrained := model_from_pretrained L;
     estimate_depth := estimate_depth L;
     ssim := ssim L |}.

(** ** Notions used to state the properties *)

(** What a run leaves alone: every array that existed below location [n]
    has its contents, and locations are only ever added. *)
Definition untouched (n : loc) (s s' : state) : Prop :=
  (next s <= next s')%nat /\
  forall l : loc, (l < n)%nat -> store s' !! l = store s !! l.

(** The trace only grows, by events that satisfy [P]. *)
Definition appends (P : event -> Prop) (s s' : state) : Prop :=
  exists added, trace s' = trace s ++ added /\ Forall P added.

(** [m] started with every location below [n] allocated leaves those
    arrays alone, records only [P]-events and returns a [Q]-value. *)
Definition local {A} (n : loc) (P : event -> Prop) (m : M A)
    (Q : A -> Prop) : Prop :=
  forall s, (n <= next s)%nat ->
    untouched n s (snd (m s)) /\
    appends P s (snd (m s)) /\
    match fst (m s) with
    | Ok a => Q a
    | _ => True
    end.

(** A recorded blur whose kernel is one of the two configured kernels,
    each dimension made odd. *)
Definition forced_odd_blur (p : depth_params) (ev : event) : Prop :=
  match ev with
  | EvGaussianBlur ksize sigma =>
      (ksize = (odd_kernel (fst (blur_kernel_size p)),
                odd_kernel (snd (blur_kernel_size p)))
       /\ sigma = blur_sigma p)
      \/ (ksize = (odd_kernel (fst (final_blur_kernel_size p)),
                   odd_kernel (snd (final_blur_kernel_size p)))
          /\ sigma = final_blur_sigma p)
  | EvCall _ => True
  end.

Definition any_event (ev : event) : Prop := True.

(** The cell of a map at row [y], column [x]. *)
Definition cell_at (a : float_image) (y x : nat) : option cell :=
  match a !! y with
  | Some row => row !! x
  | None => None
  end.

(** The fill step as the specification words it: the value that stands in
    for an undefined cell is the median of the defined cells, or 0 when
    there is none, and a defined cell keeps its value. *)
Definition fill_value (a : float_image) : Q :=
  match finite_values a with
  | [] => 0%Q
  | _ => median_of_sorted (sort_values (finite_values a))
  end.

Definition filled_cell (v : Q) (c : cell) : cell :=
  match c with
  | NaN => Fin v
  | Fin x => Fin x
  end.

(** The bound on the SSIM window that the specification states. *)
Definition window_fits (h w : Z) : Prop :=
  Z.odd (win_size h w) = true /\ win_size h w <= 7 /\
  win_size h w <= Z.min h w.

(** A dimension for which the window computed from it cannot exceed it. *)
Definition roomy (d : Z) : Prop := 7 <= d \/ (Z.odd d = true /\ 3 <= d).

(** The clamped face box has no extent. *)
Definition degenerate_roi (c : context) : Prop :=
  let '(_, _, fw_c, fh_c) := clamp_roi (gray c) (face c) in
  fw_c <= 0 \/ fh_c <= 0.

(** The verdict that stage 8 starts from and falls back to. *)
Definition not_live : verdict :=
  {| is_live := false; similarity_score := Fin (-1) |}.

(** The area of a face box, as a number. *)
Definition area (f : FaceRegion) : Z := fw f * fh f.

(** ** Concrete inputs *)

(** A frame in which the face box lies right of the image, so that the
    clamped width is 0: dots are still found at clamped coordinates. *)
Definition stale_face : FaceRegion := mkFace 64 4 56 56.

Definition stale_dots : list KeyPoint :=
  [kp (141 # 2) (25 # 2); kp (161 # 2) (25 # 2); kp (181 # 2) (25 # 2);
   kp (141 # 2) (81 # 2); kp (161 # 2) (81 # 2); kp (181 # 2) (101 # 2)].

(** A face box of width 0. *)
Definition empty_face : FaceRegion := mkFace 4 4 0 56.

Definition high_score : exception + cell := inr (Fin (9 # 10)).

(** ** Notions for the further properties *)

(** The truncated centre of a keypoint, as line 725 computes it. *)
Definition centre (k : KeyPoint) : Z * Z :=
  (py_int (pt_x k), py_int (pt_y k)).

(** The test of line 727 on a centre. *)
Definition inside_face (f : FaceRegion) (xy : Z * Z) : bool :=
  (fx f <? fst xy) && (fst xy <? x_end f) &&
  (fy f <? snd xy) && (snd xy <? y_end f).

Definition strictly_inside (f : FaceRegion) (xy : Z * Z) : Prop :=
  fx f < fst xy < x_end f /\ fy f < snd xy < y_end f.

(** What [load_depth_model] leaves in [depth_processor] and
    [depth_model], read off the two loading calls. *)
Definition loaded_models (L : library) : option handle * option handle :=
  match processor_from_pretrained L with
  | inl _ => (None, None)
  | inr p =>
      (Some p,
       match model_from_pretrained L with
       | inl _ => None
       | inr m => Some m
       end)
  end.

(** A score that passes the threshold of the metric in use. *)
Definition passes_threshold (L : library) (v : Q) : Prop :=
  match ssim L with
  | Some _ => (SIMILARITY_THRESHOLD < v)%Q
  | None => (v < MSE_THRESHOLD)%Q
  end.

(** The library [L] with another outcome for the cascade and for the
    loading of the depth model. *)
Definition with_loading (L : library) (empty : bool)
    (model : exception + handle) : library :=
  {| cv_GaussianBlur := cv_GaussianBlur L;
     cv_normalize := cv_normalize L;
     cv_ellipse := cv_ellipse L;
     cv_resize := cv_resize L;
     cv_applyColorMap := cv_applyColorMap L;
     cv_convertScaleAbs := cv_convertScaleAbs L;
     cv_cvtColor_BGR2GRAY := cv_cvtColor_BGR2GRAY L;
     cv_cvtColor_BGR2RGB := cv_cvtColor_BGR2RGB L;
     cascade_empty := empty;
     cv_detectMultiScale := cv_detectMultiScale L;
     cv_rectangle := cv_rectangle L;
     cv_circle := cv_circle L;
     clahe_apply := clahe_apply L;
     cv_adaptiveThreshold := cv_adaptiveThreshold L;
     cv_erode := cv_erode L;
     cv_dilate := cv_dilate L;
     blob_detect := blob_detect L;
     cv_addWeighted := cv_addWeighted L;
     cv_imshow := cv_imshow L;
     cv_waitKey := cv_waitKey L;
     np_astype_uint8 := np_astype_uint8 L;
     np_percentile := np_percentile L;
     np_mean_squared_difference := np_mean_squared_difference L;
     plt_scatter_3d := plt_scatter_3d L;
     delaunay_trisurf := delaunay_trisurf L;
     plt_set_labels := plt_set_labels L;
     griddata_linear := griddata_linear L;
     processor_from_pretrained := processor_from_pretrained L;
     model_from_pretrained := model;
     estimate_depth := estimate_depth L;
     ssim := ssim L |}.

(** An array of [h] rows that all have [w] columns. *)
Definition has_shape {A} (a : list (list A)) (h w : nat) : Prop :=
  length a = h /\ Forall (fun row => length row = w) a.

(** Every defined cell lies between [lo] and [hi]. *)
Definition cells_within (lo hi : Q) (a : float_image) : Prop :=
  Forall (Forall (fun c => match c with
                           | NaN => True
                           | Fin v => (lo <= v <= hi)%Q
                           end)) a.

(** Every cell is defined and lies between [lo] and [hi]. *)
Definition cells_defined_within (lo hi : Q) (a : float_image) : Prop :=
  Forall (Forall (fun c => exists v, c = Fin v /\ (lo <= v <= hi)%Q)) a.

(** [m] never leaves through [exit()] and raises only exceptions that
    satisfy [R]. *)
Definition raises_only {A} (R : exception -> Prop) (m : M A) : Prop :=
  forall s,
    match fst (m s) with
    | Ok _ => True
    | Raise e => R e
    | Exit => False
    end.

Definition not_cv2_error (e : exception) : Prop := is_cv2_error e = false.

(** The first blur as the trace records it. *)
Definition first_blur (p : depth_params) : event :=
  EvGaussianBlur (odd_kernel (fst (blur_kernel_size p)),
                  odd_kernel (snd (blur_kernel_size p))) (blur_sigma p).

(** The calls of a run of [_create_single_pseudo_depth_map] that ends at
    one of the two calls outside every [try]: the normalisation of
    line 47, or the masking of line 63. *)
Definition unguarded_failure (p : depth_params) (added : list event)
    : Prop :=
  added = [first_blur p; EvCall "cv2.normalize"] \/
  added = [first_blur p; EvCall "cv2.normalize"; EvCall "cv2.ellipse";
           EvCall "cv2.bitwise_and"].

(** [a] already has the three-channel form of the mask [m] applied. *)
Definition masked_by (a m : ndarray) : Prop :=
  exists m3, cvtColor_GRAY2BGR m = inr m3 /\ bitwise_and a m3 = inr a.

(** The library [L] with other blur, ellipse, resize and colormap
    calls. *)
Definition with_image_ops (L : library)
    (blur : ndarray -> Z * Z -> Q -> exception + ndarray)
    (ellipse : ndarray -> Z * Z -> Z * Z -> Z -> exception + ndarray)
    (resize : ndarray -> Z * Z -> interpolation -> exception + ndarray)
    (colormap : ndarray -> Z -> exception + ndarray) : library :=
  {| cv_GaussianBlur := blur;
     cv_normalize := cv_normalize L;
     cv_ellipse := ellipse;
     cv_resize := resize;
     cv_applyColorMap := colormap;
     cv_convertScaleAbs := cv_convertScaleAbs L;
     cv_cvtColor_BGR2GRAY := cv_cvtColor_BGR2GRAY L;
     cv_cvtColor_BGR2RGB := cv_cvtColor_BGR2RGB L;
     cascade_empty := cascade_empty L;
     cv_detectMultiScale := cv_detectMultiScale L;
     cv_rectangle := cv_rectangle L;
     cv_circle := cv_circle L;
     clahe_apply := clahe_apply L;
     cv_adaptiveThreshold := cv_adaptiveThreshold L;
     cv_erode := cv_erode L;
     cv_dilate := cv_dilate L;
     blob_detect := blob_detect L;
     cv_addWeighted := cv_addWeighted L;
     cv_imshow := cv_imshow L;
     cv_waitKey := cv_waitKey L;
     np_astype_uint8 := np_astype_uint8 L;
     np_percentile := np_percentile L;
     np_mean_squared_difference := np_mean_squared_difference L;
     plt_scatter_3d := plt_scatter_3d L;
     delaunay_trisurf := delaunay_trisurf L;
     plt_set_labels := plt_set_labels L;
     griddata_linear := griddata_linear L;
     processor_from_pretrained := processor_from_pretrained L;
     model_from_pretrained := model_from_pretrained L;
     estimate_depth := estimate_depth L;
     ssim := ssim L |}.

(** The calls of a run in grayscale mode that returns a map. *)
Definition grayscale_calls (p : depth_params) : list event :=
  [first_blur p; EvCall "cv2.normalize"; EvCall "cv2.ellipse";
   EvCall "cv2.bitwise_and"; EvCall "cv2.resize"; EvCall "cv2.resize"].

(** ** Small inputs for the generator *)

Definition tiny_roi : ndarray := Gray [[10; 20]; [30; 40]].

Definition tiny_state : state :=
  {| store := {[ 0%nat := tiny_roi ]}; next := 1%nat; trace := [] |}.

Definition grayscale_params : depth_params :=
  {| blur_kernel_size := (40, 41);
     blur_sigma := 25;
     ellipse_scale_x := 85 # 100;
     ellipse_scale_y := 95 # 100;
     apply_colormap := false;
     invert_colormap := true;
     colormap_type := COLORMAP_JET;
     brightness_alpha := 1;
     brightness_beta := 15;
     final_blur_kernel_size := (45, 45);
     final_blur_sigma := 0 |}.

(** A library whose ellipse raises [cv2.error], and one whose resize
    does. *)
Definition failing_ellipse : library :=
  with_image_ops (bench_library [] [] high_score)
    (fun a _ _ => inr a) (fun _ _ _ _ => inl cv2_error)
    (fun a _ _ => inr a)
    (fun a _ => cvtColor_GRAY2BGR (Gray (gray_of a))).

Definition failing_resize : library :=
  with_image_ops (bench_library [] [] high_score)
    (fun a _ _ => inr a) (fun a _ _ _ => inr a)
    (fun _ _ _ => inl cv2_error)
    (fun a _ => cvtColor_GRAY2BGR (Gray (gray_of a))).

(** A box that the loop of lines 220-254 does not skip for its extent. *)
Definition valid_box (f : FaceRegion) : bool :=
  negb ((fw f <=? 0) || (fh f <=? 0)).

(** What has to hold for the generator to reach the detection. *)
Definition unloaded (F : files) (image_path haar_cascade_path : string)
    : Prop :=
  path_exists F haar_cascade_path = false \/
  path_exists F image_path = false \/
  cv_imread F image_path = inr None.

(** A file system that holds the cascade and one readable image. *)
Definition bench_files : files :=
  {| path_exists := fun path =>
       (String.eqb path "cascade.xml" || String.eqb path "face.png")%bool;
     cv_imread := fun path =>
       if String.eqb path "face.png"
       then inr (Some (Color [[(10, 10, 10); (20, 20, 20)];
                              [(30, 30, 30); (40, 40, 40)]]))
       else inr None |}.

Definition empty_state : state :=
  {| store := ∅; next := 0%nat; trace := [] |}.

(** A [uint8] array read as numbers: every element is in 0..255. *)
Definition uint8_rows (px : list (list Z)) : Prop :=
  Forall (Forall (fun v => 0 <= v <= 255)) px.

(** A float mask with every cell in [0, 1]. *)
Definition unit_mask (a : ndarray) : Prop :=
  match a with
  | Float px => cells_defined_within 0 1 px
  | _ => False
  end.

(** The ellipse and the blur of [L] give a mask in [0, 1] for a mask in
    [0, 1]. *)
Definition keeps_unit_masks (L : library) : Prop :=
  (forall m centre axes v m',
     unit_mask m -> cv_ellipse L m centre axes v = inr m' -> unit_mask m')
  /\
  (forall m ksize sigma m',
     unit_mask m -> cv_GaussianBlur L m ksize sigma = inr m' ->
     unit_mask m').

(** Element by element, [out] is between 0 and [px]. *)
Definition darkened (out px : list (list Z)) : Prop :=
  Forall2 (Forall2 (fun q v => 0 <= q <= v)) out px.

(** The kernel of the feathering blur (lines 49 and 50), for the float
    product [float_mul] of the platform. *)
Definition feather_kernel (float_mul : Q -> Q -> Q) (feather_sigma : Q)
    : Z :=
  odd_kernel (py_int (float_mul 6%Q feather_sigma) + 1).

(** The feathering blur as the trace records it, and the events of
    steps 2 and 3 of a run that passes them. *)
Definition feather_events (float_mul : Q -> Q -> Q) (feather_sigma : Q)
    : list event :=
  if Qle_bool feather_sigma 0 then []
  else [EvGaussianBlur (feather_kernel float_mul feather_sigma,
                        feather_kernel float_mul feather_sigma)
          feather_sigma].

Definition mask_conversion_events (image : ndarray) : list event :=
  if is_color_image image then [EvCall "cv2.cvtColor"] else [].

(** A library whose ellipse raises [cv2.error] and whose blur halves the
    mask. *)
Definition halving_blur (a : ndarray) : ndarray :=
  match a with
  | Float px =>
      Float (map (map (fun c => match c with
                                | NaN => NaN
                                | Fin v => Fin (v / 2)%Q
                                end)) px)
  | _ => a
  end.

Definition soft_vignette_library : library :=
  with_image_ops (bench_library [] [] high_score)
    (fun a _ _ => inr (halving_blur a)) (fun _ _ _ _ => inl cv2_error)
    (fun a _ _ => inr a)
    (fun a _ => cvtColor_GRAY2BGR (Gray (gray_of a))).

(** [m] ends the process only when [X] holds. *)
Definition exits_only_if {A} (X : Prop) (m : M A) : Prop :=
  forall s, fst (m s) = Exit -> X.

(** The exceptions of the two plotting calls of stage 7 that stand
    outside the [try]. *)
Definition plotting_failure (L : library) (c : context) (e : exception)
    : Prop :=
  5 < dot_count c /\
  (plt_scatter_3d L (face_dot_coords (found c))
     (face_dot_intensities (found c)) = inl e \/
   plt_set_labels L = inl e).

(** An exception of [cv2.circle] as the dot filter calls it. *)
Definition circle_failure (L : library) (e : exception) : Prop :=
  exists img centre, cv_circle L img centre 3 (0, 255, 0) (-1) = inl e.

Definition tiny_gray : list (list Z) := [[10; 20; 30]; [40; 50; 60]].

(** ** The blurs of a run *)

(** The final blur as the trace records it. *)
Definition last_blur (p : depth_params) : event :=
  EvGaussianBlur (odd_kernel (fst (final_blur_kernel_size p)),
                  odd_kernel (snd (final_blur_kernel_size p)))
    (final_blur_sigma p).

(** The test of line 116 on the two forced dimensions. *)
Definition final_kernel_positive (p : depth_params) : bool :=
  (0 <? odd_kernel (fst (final_blur_kernel_size p))) &&
  (0 <? odd_kernel (snd (final_blur_kernel_size p))).

Definition is_blur (ev : event) : bool :=
  match ev with
  | EvGaussianBlur _ _ => true
  | EvCall _ => false
  end.

(** The Gaussian blurs among the events, in order. *)
Definition blurs (t : list event) : list event := List.filter is_blur t.

Definition no_blur (ev : event) : Prop :=
  match ev with
  | EvGaussianBlur _ _ => False
  | EvCall _ => True
  end.

(** However [m] ends, the blurs it has issued satisfy [X]. *)
Definition issues {A} (X : list event -> Prop) (m : M A) : Prop :=
  forall s,
    exists added,
      trace (snd (m s)) = trace s ++ added /\ X (blurs added).

(** The blurs of the final stage (lines 111-126): one, with the final
    kernel, when the image is in colour and both forced dimensions are
    positive; none otherwise. *)
Definition final_stage_blurs (p : depth_params) (is_color : bool)
    : list event :=
  if is_color && final_kernel_positive p then [last_blur p] else [].

(** * Properties *)

(** ** Rules for [local] *)

Section LocalRules.
Context (n : loc) (P : event -> Prop).

Lemma untouched_refl (s : state) : untouched n s s.
Proof. split; [lia | done]. Qed.

Lemma untouched_trans (s1 s2 s3 : state) :
  untouched n s1 s2 -> untouched n s2 s3 -> untouched n s1 s3.
Proof.
  intros [H1 H2] [H3 H4]. split; [lia |].
  intros l Hl. rewrite H4, H2; done.
Qed.

Lemma appends_refl (s : state) : appends P s s.
Proof. exists []. split; [by rewrite app_nil_r | constructor]. Qed.

Lemma appends_same_trace (s s' : state) :
  trace s' = trace s -> appends P s s'.
Proof.
  intros E. exists []. split; [by rewrite app_nil_r | constructor].
Qed.

Lemma appends_trans (s1 s2 s3 : state) :
  appends P s1 s2 -> appends P s2 s3 -> appends P s1 s3.
Proof.
  intros (a1 & E1 & F1) (a2 & E2 & F2). exists (a1 ++ a2). split.
  - rewrite E2, E1. by rewrite <- app_assoc.
  - apply Forall_app. done.
Qed.

Lemma local_ret {A} (a : A) (Q : A -> Prop) : Q a -> local n P (ret a) Q.
Proof.
  intros Hq s Hs. cbn. auto using untouched_refl, appends_refl.
Qed.

Lemma local_raise {A} (e : exception) (Q : A -> Prop) :
  local n P (raise e) Q.
Proof.
  intros s Hs. cbn. auto using untouched_refl, appends_refl.
Qed.

Lemma local_exit {A} (Q : A -> Prop) : local n P sys_exit Q.
Proof.
  intros s Hs. cbn. auto using untouched_refl, appends_refl.
Qed.

Lemma local_weaken {A} (m : M A) (Q Q' : A -> Prop) :
  local n P m Q -> (forall a, Q a -> Q' a) -> local n P m Q'.
Proof.
  intros Hm Hq s Hs. destruct (Hm s Hs) as (Hu & Ha & Hr).
  split; [done |]. split; [done |]. destruct (fst (m s)); auto.
Qed.

Lemma local_bind {A B} (m : M A) (k : A -> M B) (Q : A -> Prop)
    (R : B -> Prop) :
  local n P m Q -> (forall a, Q a -> local n P (k a) R) ->
  local n P (bind m k) R.
Proof.
  intros Hm Hk s Hs. unfold bind.
  destruct (Hm s Hs) as (Hu & Ha & Hr).
  destruct (m s) as [[a | e |] s1]; cbn in *; try done.
  assert (Hs1 : (n <= next s1)%nat) by (destruct Hu; lia).
  destruct (Hk a Hr s1 Hs1) as (Hu' & Ha' & Hr').
  split; [by eapply untouched_trans |].
  split; [by eapply appends_trans | done].
Qed.

Lemma local_try_except {A} (m : M A) (catches : exception -> bool)
    (h : exception -> M A) (Q : A -> Prop) :
  local n P m Q -> (forall e, local n P (h e) Q) ->
  local n P (try_except m catches h) Q.
Proof.
  intros Hm Hh s Hs. unfold try_except.
  destruct (Hm s Hs) as (Hu & Ha & Hr).
  destruct (m s) as [[a | e |] s1]; cbn in *; try done.
  destruct (catches e); cbn; [| done].
  assert (Hs1 : (n <= next s1)%nat) by (destruct Hu; lia).
  destruct (Hh e s1 Hs1) as (Hu' & Ha' & Hr').
  split; [by eapply untouched_trans |].
  split; [by eapply appends_trans | done].
Qed.

Lemma local_alloc (v : ndarray) :
  local n P (alloc v) (fun l => (n <= l)%nat).
Proof.
  intros s Hs. cbn. split; [| split; [by apply appends_same_trace | done]].
  split; [cbn; lia |]. intros l Hl. cbn. apply lookup_insert_ne. lia.
Qed.

Lemma local_read (l : loc) : local n P (read l) (fun _ => True).
Proof.
  intros s Hs. cbn. auto using untouched_refl, appends_refl.
Qed.

Lemma local_write (l : loc) (v : ndarray) :
  (n <= l)%nat -> local n P (write l v) (fun _ => True).
Proof.
  intros Hl s Hs. cbn. split; [| split; [by apply appends_same_trace | done]].
  split; [cbn; lia |]. intros l' Hl'. cbn. apply lookup_insert_ne. lia.
Qed.

Lemma local_log (ev : event) : P ev -> local n P (log ev) (fun _ => True).
Proof.
  intros Hev s Hs. cbn. split; [by split |].
  split; [| done]. exists [ev]. split; [done | by repeat constructor].
Qed.

Lemma local_lift {A} (r : exception + A) :
  local n P (lift r) (fun _ => True).
Proof. destruct r; [apply local_raise | by apply local_ret]. Qed.

Lemma local_call {A} (name : string) (r : exception + A) :
  P (EvCall name) -> local n P (call name r) (fun _ => True).
Proof.
  intros Hev. unfold call.
  eapply local_bind; [by apply local_log | intros; apply local_lift].
Qed.

Lemma local_copy (l : loc) : local n P (copy l) (fun l' => (n <= l')%nat).
Proof.
  unfold copy.
  eapply local_bind; [apply local_read | intros; apply local_alloc].
Qed.

Lemma local_true {A} (m : M A) (Q : A -> Prop) :
  local n P m Q -> local n P m (fun _ => True).
Proof. intros H. eapply local_weaken; [exact H | done]. Qed.
End LocalRules.

(** A syntax-directed proof search for [local]. *)
Ltac local_leaf :=
  first
    [ apply local_raise
    | apply local_exit
    | apply local_ret; solve [auto]
    | eapply local_weaken; [apply local_alloc | solve [auto]]
    | eapply local_weaken; [apply local_copy | solve [auto]]
    | eapply local_weaken; [apply local_read | solve [auto]]
    | eapply local_weaken;
        [apply local_write; solve [auto | lia] | solve [auto]]
    | eapply local_weaken; [apply local_call; exact I | solve [auto]]
    | eapply local_weaken; [apply local_log; exact I | solve [auto]]
    | eapply local_weaken; [apply local_lift | solve [auto]] ].

Ltac local_go :=
  lazymatch goal with
  | |- local _ _ (bind (alloc _) _) _ =>
      eapply local_bind; [apply local_alloc | intros ? ?; local_go]
  | |- local _ _ (bind (copy _) _) _ =>
      eapply local_bind; [apply local_copy | intros ? ?; local_go]
  | |- local _ _ (bind _ _) _ =>
      eapply local_bind with (Q := fun _ => True);
      [local_go | intros ? _; local_go]
  | |- local _ _ (try_except _ _ _) _ =>
      apply local_try_except; [local_go | intros ?; local_go]
  | |- local _ _ (if ?b then _ else _) _ => destruct b; local_go
  | |- local _ _ (match ?x with _ => _ end) _ => destruct x; local_go
  | |- local _ _ _ _ => local_leaf
  end.

(** ** The pseudo-depth generator *)

Section PseudoDepthLocal.
Context (L : library) (p : depth_params) (n : loc).

Lemma local_initial_blur (face_roi : loc) :
  local n (forced_odd_blur p) (initial_blur L p face_roi) (fun _ => True).
Proof.
  unfold initial_blur, GaussianBlur. apply local_try_except.
  - eapply local_bind with (Q := fun _ => True); [local_go |].
    intros roi _.
    eapply local_bind with (Q := fun _ => True); [| intros; local_go].
    apply local_log. by left.
  - intros e. local_go.
Qed.

Lemma local_draw_elliptical_mask (mask : loc) (h w : Z) :
  (n <= mask)%nat ->
  local n (forced_odd_blur p) (draw_elliptical_mask L mask h w p)
    (fun _ => True).
Proof. intros Hm. unfold draw_elliptical_mask. local_go. Qed.

Lemma local_colorize (display_data display_mask_resized : ndarray) :
  local n (forced_odd_blur p) (colorize L p display_data display_mask_resized)
    (fun _ => True).
Proof. unfold colorize. local_go. Qed.

Lemma local_adjust_brightness (a m : ndarray) (is_color : bool) :
  local n (forced_odd_blur p) (adjust_brightness L p a m is_color)
    (fun _ => True).
Proof. unfold adjust_brightness. local_go. Qed.

Lemma local_final_blur (a m : ndarray) (is_color : bool) :
  local n (forced_odd_blur p) (final_blur L p a m is_color) (fun _ => True).
Proof.
  unfold final_blur, GaussianBlur. destruct is_color; [| local_go].
  apply local_try_except; [| intros; local_go].
  destruct (_ && _); [| local_go].
  eapply local_bind with (Q := fun _ => True); [| intros; local_go].
  eapply local_bind with (Q := fun _ => True); [| intros; local_go].
  apply local_log. by right.
Qed.

Lemma local_after_initial_blur (target : Z * Z) (blurred_roi : ndarray) :
  local n (forced_odd_blur p) (after_initial_blur L p target blurred_roi)
    (fun _ => True).
Proof.
  unfold after_initial_blur.
  eapply local_bind with (Q := fun _ => True); [local_go |].
  intros normalized _. destruct (shape2 normalized) as [h w].
  eapply local_bind; [apply local_alloc |]. intros mask Hmask.
  eapply local_bind with (Q := fun _ => True);
    [by apply local_draw_elliptical_mask |]. intros _ _.
  eapply local_bind with (Q := fun _ => True); [local_go |]. intros m _.
  eapply local_bind with (Q := fun _ => True); [local_go |]. intros d _.
  eapply local_bind with (Q := fun _ => True); [local_go |].
  intros [[display_data display_mask_resized] |] _; [| local_go].
  eapply local_bind with (Q := fun _ => True);
    [apply local_colorize |]. intros [before is_color] _.
  eapply local_bind with (Q := fun _ => True);
    [apply local_adjust_brightness |]. intros after _.
  eapply local_bind with (Q := fun _ => True);
    [apply local_final_blur |]. intros; local_go.
Qed.

Lemma local_create_single_pseudo_depth_map (face_roi : option loc)
    (target : Z * Z) :
  local n (forced_odd_blur p)
    (_create_single_pseudo_depth_map L face_roi target p)
    (fun _ => True).
Proof.
  unfold _create_single_pseudo_depth_map.
  destruct face_roi as [face_roi |]; [| local_go].
  eapply local_bind with (Q := fun _ => True); [local_go |]. intros roi _.
  destruct (size roi =? 0); [local_go |].
  eapply local_bind with (Q := fun _ => True);
    [apply local_initial_blur |].
  intros; apply local_after_initial_blur.
Qed.
End PseudoDepthLocal.

Lemma odd_kernel_spec (k : Z) :
  odd_kernel k = if Z.even k then k + 1 else k.
Proof.
  unfold odd_kernel. rewrite Zmod_even. by destruct (Z.even k).
Qed.

Lemma odd_kernel_odd (k : Z) : Z.odd (odd_kernel k) = true.
Proof.
  rewrite odd_kernel_spec. destruct (Z.even k) eqn:E.
  - rewrite Z.odd_add. rewrite <- Z.negb_even, E. done.
  - by rewrite <- Z.negb_even, E.
Qed.

Lemma initial_blur_trace (L : library) (p : depth_params) (face_roi : loc)
    (s : state) :
  trace (snd (initial_blur L p face_roi s)) =
  trace s ++ [EvGaussianBlur (odd_kernel (fst (blur_kernel_size p)),
                              odd_kernel (snd (blur_kernel_size p)))
                (blur_sigma p)].
Proof.
  unfold initial_blur, try_except, GaussianBlur, bind, read, log, lift.
  cbn. destruct (cv_GaussianBlur _ _ _ _) as [e | a]; cbn; [| done].
  destruct (is_cv2_error e); done.
Qed.

(** ** Mask idempotence *)

Lemma zip_row_idempotent {A B} (f : A -> B -> A) (l : list A) (m : list B)
    (r : list A) :
  (forall a b, f (f a b) b = f a b) ->
  zip_row f l m = Some r -> zip_row f r m = Some r.
Proof.
  intros Hf. revert m r.
  induction l as [| a l IH]; intros [| b m] r; cbn; try done.
  - intros [= <-]. done.
  - destruct (zip_row f l m) as [r' |] eqn:E; [| done].
    intros [= <-]. cbn. rewrite (IH m r' E), Hf. done.
Qed.

Lemma zip_image_idempotent {A B} (f : A -> B -> A) (a : list (list A))
    (m : list (list B)) (r : list (list A)) :
  (forall a b, f (f a b) b = f a b) ->
  zip_image f a m = Some r -> zip_image f r m = Some r.
Proof.
  intros Hf. revert m r.
  induction a as [| x a IH]; intros [| y m] r; cbn; try done.
  - intros [= <-]. done.
  - destruct (zip_row f x y) as [x' |] eqn:Ex; [| done].
    destruct (zip_image f a m) as [r' |] eqn:E; [| done].
    intros [= <-]. cbn.
    rewrite (zip_row_idempotent f x y x' Hf Ex), (IH m r' E). done.
Qed.

Lemma keep_u8_idempotent (p m : Z) : keep_u8 (keep_u8 p m) m = keep_u8 p m.
Proof. unfold keep_u8. destruct (m =? 0); by rewrite ?Z.land_diag. Qed.

Lemma keep_bgr_idempotent (p : Z * Z * Z) (m : Z) :
  keep_bgr (keep_bgr p m) m = keep_bgr p m.
Proof.
  unfold keep_bgr. destruct p as [[b g] r].
  destruct (m =? 0); by rewrite ?Z.land_diag.
Qed.

Lemma keep_float_idempotent (c : cell) (m : Z) :
  keep_float (keep_float c m) m = keep_float c m.
Proof. unfold keep_float. by destruct (m =? 0). Qed.

Lemma land_absorb (a b : Z) : Z.land (Z.land a b) b = Z.land a b.
Proof. by rewrite <- Z.land_assoc, Z.land_diag. Qed.

Lemma and_bgr_idempotent (p q : Z * Z * Z) :
  and_bgr (and_bgr p q) q = and_bgr p q.
Proof.
  destruct p as [[b1 g1] r1], q as [[b2 g2] r2]. cbn.
  by rewrite !land_absorb.
Qed.

(** C8. Applying the mask to an already masked array changes nothing, in
    both forms the generator uses: [cv2.bitwise_and(a, a, mask=mask)] and
    [cv2.bitwise_and(a, mask_3ch)]. *)
Theorem mask_application_idempotent (a mask : ndarray) :
  match bitwise_and_self_masked a mask with
  | inr once => bitwise_and_self_masked once mask = inr once
  | inl _ => True
  end /\
  match bitwise_and a mask with
  | inr once => bitwise_and once mask = inr once
  | inl _ => True
  end.
Proof.
  split.
  - destruct mask as [m | m | m]; cbn; try done.
    destruct a as [px | px | px]; cbn.
    + destruct (zip_image keep_u8 px m) as [r |] eqn:E; cbn; [| done].
      by rewrite (zip_image_idempotent _ _ _ _ keep_u8_idempotent E).
    + destruct (zip_image keep_bgr px m) as [r |] eqn:E; cbn; [| done].
      by rewrite (zip_image_idempotent _ _ _ _ keep_bgr_idempotent E).
    + destruct (zip_image keep_float px m) as [r |] eqn:E; cbn; [| done].
      by rewrite (zip_image_idempotent _ _ _ _ keep_float_idempotent E).
  - destruct a as [px | px | px], mask as [m | m | m]; cbn; try done.
    + destruct (zip_image Z.land px m) as [r |] eqn:E; cbn; [| done].
      by rewrite (zip_image_idempotent _ _ _ _ land_absorb E).
    + destruct (zip_image and_bgr px m) as [r |] eqn:E; cbn; [| done].
      by rewrite (zip_image_idempotent _ _ _ _ and_bgr_idempotent E).
Qed.

(** ** The fill step of the heatmap *)

Lemma nan_to_num_no_nan (a : float_image) (v : Q) :
  any_nan (nan_to_num a v) = false.
Proof.
  unfold any_nan, nan_to_num. induction a as [| row a IH]; [done |].
  cbn. rewrite IH, orb_false_r.
  induction row as [| c row IHr]; [done |]. cbn. rewrite IHr.
  by destruct c.
Qed.

Lemma list_lookup_map {A B} (f : A -> B) (l : list A) (i : nat) :
  map f l !! i = f <$> l !! i.
Proof. exact (list_lookup_fmap f l i). Qed.

Lemma cell_at_nan_to_num (a : float_image) (v : Q) (y x : nat) :
  cell_at (nan_to_num a v) y x = filled_cell v <$> cell_at a y x.
Proof.
  unfold cell_at, nan_to_num. rewrite list_lookup_map.
  destruct (a !! y) as [row |]; cbn; [| done].
  rewrite list_lookup_map. destruct (row !! x) as [[| q] |]; done.
Qed.

Lemma cell_at_defined (a : float_image) (v : Q) (y x : nat) :
  any_nan a = false -> cell_at a y x = filled_cell v <$> cell_at a y x.
Proof.
  unfold cell_at, any_nan. intros Hnan.
  destruct (a !! y) as [row |] eqn:Ey; [| done].
  destruct (row !! x) as [c |] eqn:Ex; [| done]. cbn.
  destruct c as [| q]; [| done]. exfalso.
  apply not_true_iff_false in Hnan. apply Hnan.
  apply existsb_exists. exists row. split.
  - apply list_elem_of_In. by eapply list_elem_of_lookup_2.
  - apply existsb_exists. exists NaN. split; [| done].
    apply list_elem_of_In. by eapply list_elem_of_lookup_2.
Qed.

Lemma insert_sorted_perm (x : Q) (l : list Q) :
  Permutation (insert_sorted x l) (x :: l).
Proof.
  induction l as [| y l IH]; cbn; [done |].
  destruct (Qle_bool x y); [done |].
  rewrite IH. apply perm_swap.
Qed.

Lemma sort_values_perm (l : list Q) : Permutation (sort_values l) l.
Proof.
  induction l as [| x l IH]; cbn; [done |].
  rewrite insert_sorted_perm. by constructor.
Qed.

Lemma insert_sorted_sorted (x : Q) (l : list Q) :
  Sorted Qle l -> Sorted Qle (insert_sorted x l).
Proof.
  induction l as [| y l IH]; cbn; intros Hs.
  - by repeat constructor.
  - destruct (Qle_bool x y) eqn:E.
    + constructor; [done |]. constructor. by apply Qle_bool_iff.
    + assert (Hyx : Qle y x).
      { apply Qlt_le_weak, Qnot_le_lt. intros H.
        apply Qle_bool_iff in H. congruence. }
      inversion Hs as [| ? ? Hs' Hhd]; subst.
      constructor; [by apply IH |].
      destruct l as [| z l]; cbn.
      * by constructor.
      * destruct (Qle_bool x z); constructor; [done |].
        by inversion Hhd.
Qed.

Lemma sort_values_sorted (l : list Q) : Sorted Qle (sort_values l).
Proof.
  induction l as [| x l IH]; cbn; [constructor |].
  by apply insert_sorted_sorted.
Qed.

Lemma sort_values_nil (l : list Q) : sort_values l = [] -> l = [].
Proof.
  intros E. pose proof (sort_values_perm l) as Hp. rewrite E in Hp.
  by apply Permutation_nil.
Qed.

Lemma median_value_is_fill_value (a : float_image) :
  match nanmedian a with
  | NaN => 0%Q
  | Fin v => v
  end = fill_value a.
Proof.
  unfold nanmedian, fill_value.
  destruct (sort_values (finite_values a)) as [| x l] eqn:E.
  - by rewrite (sort_values_nil _ E).
  - destruct (finite_values a); [done | done].
Qed.

Lemma fill_undefined_no_nan (a : list (list cell)) :
  any_nan (fill_undefined a) = false.
Proof.
  unfold fill_undefined. destruct (any_nan a) eqn:E; [| done].
  apply nan_to_num_no_nan.
Qed.

Lemma bind_Ok {A B} (m : M A) (k : A -> M B) (s s' : state) (b : B) :
  bind m k s = (Ok b, s') ->
  exists a s1, m s = (Ok a, s1) /\ k a s1 = (Ok b, s').
Proof.
  unfold bind. destruct (m s) as [[a | e |] s1]; try done. by eauto.
Qed.

Lemma try_except_Ok {A} (m : M A) (catches : exception -> bool)
    (h : exception -> M A) (s s' : state) (a : A) :
  try_except m catches h s = (Ok a, s') ->
  m s = (Ok a, s') \/ exists e s1, m s = (Raise e, s1) /\ h e s1 = (Ok a, s').
Proof.
  unfold try_except. destruct (m s) as [[a' | e |] s1]; try done.
  - by left.
  - destruct (catches e); [| done]. right. by eauto.
Qed.


(** ** The SSIM window *)

Lemma odd_window_candidate (d : Z) : Z.odd (d / 2 * 2 + 1) = true.
Proof.
  replace (d / 2 * 2 + 1) with (1 + 2 * (d / 2)) by lia.
  by rewrite Z.odd_add_mul_2.
Qed.

Lemma roomy_candidate (d : Z) : roomy d -> Z.min 7 (d / 2 * 2 + 1) <= d.
Proof.
  intros [H | [Hodd H]]; [Z.to_euclidean_division_equations; lia |].
  pose proof (Zmod_odd d) as Hm. rewrite Hodd in Hm.
  Z.to_euclidean_division_equations; lia.
Qed.


(** The same bound also fails by one on an even dimension below 7. *)
Example win_size_even_crop : win_size 4 10 = 5.
Proof. reflexivity. Qed.

(** ** Selection of the face *)

Lemma int32_in_range (z : Z) : - 2 ^ 31 <= z < 2 ^ 31 -> int32 z = z.
Proof.
  intros H. unfold int32. rewrite Z.mod_small; lia.
Qed.

Lemma insert_desc_not_nil {A} (key : A -> Z) (x : A) (l : list A) :
  insert_desc key x l <> [].
Proof. destruct l; cbn; [done |]. by destruct (_ <? _). Qed.

Lemma sorted_reverse_head {A} (key : A -> Z) (l : list A) (x : A)
    (rest : list A) :
  sorted_reverse key l = x :: rest ->
  In x l /\ forall y, In y l -> key y <= key x.
Proof.
  revert x rest. induction l as [| a l IH]; intros x rest; [done |].
  change (sorted_reverse key (a :: l))
    with (insert_desc key a (sorted_reverse key l)).
  destruct (sorted_reverse key l) as [| y r] eqn:E.
  - destruct l as [| b l]; [| by destruct (insert_desc_not_nil _ _ _ E)].
    cbn. intros Heq. inversion Heq; subst. split; [by left |].
    intros y [<- | []]. lia.
  - destruct (IH y r eq_refl) as [Hin Hmax]. cbn.
    destruct (Z.ltb_spec (key a) (key y)); intros Heq; inversion Heq; subst.
    + split; [by right |]. intros z [<- | Hz]; [lia | by apply Hmax].
    + split; [by left |]. intros z [<- | Hz]; [lia |].
      specialize (Hmax z Hz). lia.
Qed.

Lemma sorted_reverse_not_nil {A} (key : A -> Z) (l : list A) :
  l <> [] -> sorted_reverse key l <> [].
Proof. destruct l; [done |]. intros _. apply insert_desc_not_nil. Qed.

Lemma bind_ext {A B} (m : M A) (k k' : A -> M B) (s : state) :
  (forall a s', k a s' = k' a s') -> bind m k s = bind m k' s.
Proof. intros H. unfold bind. destruct (m s) as [[a | e |] s']; auto. Qed.

Lemma filter_keypoints_with_faces (L : library) (faces : list FaceRegion)
    (g : list (list Z)) (f : FaceRegion) (d : loc) (kps : list KeyPoint)
    (acc : dots) (s : state) :
  filter_keypoints (with_faces L faces) g f d acc kps s =
  filter_keypoints L g f d acc kps s.
Proof.
  revert acc s. induction kps as [| k kps IH]; intros acc s; [done |].
  cbn [filter_keypoints].
  change (filter_keypoint (with_faces L faces) g f d acc k)
    with (filter_keypoint L g f d acc k).
  apply bind_ext. intros; apply IH.
Qed.

Lemma dots_in_face_with_faces (L : library) (faces : list FaceRegion)
    (g : list (list Z)) (d : loc) (models : option handle * option handle)
    (f : FaceRegion) (s : state) :
  dots_in_face (with_faces L faces) g d models f s =
  dots_in_face L g d models f s.
Proof.
  unfold dots_in_face.
  do 8 (apply bind_ext; intros).
  unfold bind. rewrite filter_keypoints_with_faces. done.
Qed.

Lemma lookup_total_after_copy (m : gmap loc ndarray) (n l : loc) :
  <[n := m !!! l]> m !!! l = m !!! l.
Proof.
  destruct (decide (n = l)) as [-> | Hne].
  - by rewrite lookup_total_insert_eq.
  - by rewrite lookup_total_insert_ne.
Qed.

Lemma bind_copy_read {B} (l : loc) (k : loc -> ndarray -> M B) (s : state) :
  bind (copy l) (fun d => bind (read l) (k d)) s =
  k (next s) (store s !!! l)
    {| store := <[next s := store s !!! l]> (store s);
       next := S (next s);
       trace := trace s |}.
Proof.
  unfold copy, bind, read, alloc. cbn. by rewrite lookup_total_after_copy.
Qed.

Lemma bind_call_inr {A B} (name : string) (a : A) (k : A -> M B)
    (s : state) :
  bind (call name (inr a)) k s =
  k a {| store := store s; next := next s;
         trace := trace s ++ [EvCall name] |}.
Proof. reflexivity. Qed.

Lemma extract_face_dots_largest (L : library) (faces rest : list FaceRegion)
    (f : FaceRegion) (frame : loc) (s : state) (g : list (list Z)) :
  cv_cvtColor_BGR2GRAY L (store s !!! frame) = inr g ->
  cv_detectMultiScale L g = inr faces ->
  sorted_reverse area_key faces = f :: rest ->
  extract_face_dots L frame s = extract_face_dots (with_faces L [f]) frame s.
Proof.
  intros Hgray Hdetect Hsort. unfold extract_face_dots.
  rewrite !bind_copy_read.
  cbn [with_faces cv_cvtColor_BGR2GRAY cascade_empty cv_detectMultiScale].
  rewrite Hgray, !bind_call_inr.
  apply bind_ext. intros _ s1.
  destruct (cascade_empty L); [done |].
  apply bind_ext. intros models s2.
  rewrite Hdetect, !bind_call_inr, Hsort.
  destruct faces as [| f0 faces]; [discriminate Hsort |].
  cbn [length Nat.eqb sorted_reverse fold_right insert_desc].
  unfold bind. rewrite dots_in_face_with_faces. done.
Qed.



(** ** What the liveness check writes to *)

Section LivenessLocal.
Context (L : library) (n : loc).

Lemma local_filter_keypoints (g : list (list Z)) (f : FaceRegion)
    (d : loc) (kps : list KeyPoint) (acc : dots) :
  (n <= d)%nat ->
  local n any_event (filter_keypoints L g f d acc kps) (fun _ => True).
Proof.
  intros Hd. revert acc.
  induction kps as [| k kps IH]; intros acc; cbn [filter_keypoints].
  - local_go.
  - eapply local_bind with (Q := fun _ => True); [| intros; apply IH].
    unfold filter_keypoint. local_go.
Qed.

Lemma local_dots_in_face (g : list (list Z)) (d : loc)
    (models : option handle * option handle) (f : FaceRegion) :
  (n <= d)%nat ->
  local n any_event (dots_in_face L g d models f) (fun _ => True).
Proof.
  intros Hd. unfold dots_in_face.
  do 8 (eapply local_bind with (Q := fun _ => True);
        [local_go | intros ? _]).
  eapply local_bind with (Q := fun _ => True);
    [by apply local_filter_keypoints | intros; local_go].
Qed.

Lemma local_load_depth_model :
  local n any_event (load_depth_model L) (fun _ => True).
Proof. unfold load_depth_model. local_go. Qed.

Lemma local_extract_face_dots (frame : loc) :
  local n any_event (extract_face_dots L frame) (fun _ => True).
Proof.
  unfold extract_face_dots.
  eapply local_bind; [apply local_copy |]. intros d Hd.
  do 3 (eapply local_bind with (Q := fun _ => True);
        [local_go | intros ? _]).
  destruct (cascade_empty L); [local_go |].
  eapply local_bind with (Q := fun _ => True);
    [apply local_load_depth_model | intros models _].
  eapply local_bind with (Q := fun _ => True);
    [local_go | intros faces _].
  destruct (_ =? _)%nat; [local_go |].
  destruct (sorted_reverse area_key faces) as [| f rest]; [local_go |].
  eapply local_bind with (Q := fun _ => True);
    [by apply local_dots_in_face | intros; local_go].
Qed.

Lemma local_plot_point_cloud (c : context) :
  local n any_event (plot_point_cloud L c) (fun _ => True).
Proof. unfold plot_point_cloud. local_go. Qed.

Lemma local_draw_heatmap_overlay (frame : loc) (f : FaceRegion)
    (overlay : loc) (hm : list (list cell)) :
  (n <= overlay)%nat ->
  local n any_event (draw_heatmap_overlay L frame f overlay hm) (fun _ => True).
Proof. intros Ho. unfold draw_heatmap_overlay. local_go. Qed.

Lemma local_build_heatmap (frame : loc) (c : context) (overlay : loc) :
  (n <= overlay)%nat ->
  local n any_event (build_heatmap L frame c overlay) (fun _ => True).
Proof.
  intros Ho. unfold build_heatmap. destruct (_ <? _); [| local_go].
  apply local_try_except; [| intros; local_go].
  eapply local_bind with (Q := fun _ => True); [local_go | intros ? _].
  eapply local_bind with (Q := fun _ => True);
    [by apply local_draw_heatmap_overlay | intros; local_go].
Qed.

Lemma local_prepare_heatmap (frame : loc) (c : context) :
  local n any_event (prepare_heatmap L frame c) (fun _ => True).
Proof.
  unfold prepare_heatmap.
  eapply local_bind with (Q := fun _ => True);
    [apply local_plot_point_cloud | intros _ _].
  eapply local_bind; [apply local_copy |]. intros overlay Ho.
  by apply local_build_heatmap.
Qed.

Lemma local_show_model_depth (roi : ndarray) :
  local n any_event (show_model_depth L roi) (fun _ => True).
Proof. unfold show_model_depth. local_go. Qed.

Lemma local_score_similarity (hm : list (list cell)) (d : ndarray) :
  local n any_event (score_similarity L hm d) (fun _ => True).
Proof. unfold score_similarity. local_go. Qed.

Lemma local_compare_with_depth_model (frame : loc) (c : context)
    (hm : list (list cell)) (processor model : handle) :
  local n any_event (compare_with_depth_model L frame c hm processor model)
    (fun _ => True).
Proof.
  unfold compare_with_depth_model.
  do 3 (eapply local_bind with (Q := fun _ => True);
        [local_go | intros ? _]).
  destruct (clamp_roi _ _) as [[[fx_c fy_c] fw_c] fh_c].
  destruct (_ || _); [local_go |].
  eapply local_bind with (Q := fun _ => True); [local_go | intros ? _].
  eapply local_bind with (Q := fun _ => True);
    [apply local_show_model_depth | intros _ _].
  apply local_score_similarity.
Qed.

Lemma local_depth_comparison (frame : loc) (c : context)
    (hm : option (list (list cell))) :
  local n any_event (depth_comparison L frame c hm) (fun _ => True).
Proof.
  unfold depth_comparison.
  destruct hm, (depth_model c), (depth_processor c); try local_go.
  apply local_try_except; [| intros; local_go].
  apply local_compare_with_depth_model.
Qed.

Lemma local_perform_liveness_check (frame : loc) :
  local n any_event (perform_liveness_check L frame) (fun _ => True).
Proof.
  unfold perform_liveness_check, liveness_verdict, check_face_dots.
  eapply local_bind with (Q := fun _ => True); [| intros; local_go].
  eapply local_bind with (Q := fun _ => True);
    [apply local_extract_face_dots |].
  intros [c |] _; [| local_go].
  eapply local_bind with (Q := fun _ => True); [| intros; local_go].
  eapply local_bind with (Q := fun _ => True);
    [apply local_prepare_heatmap | intros; apply local_depth_comparison].
Qed.
End LivenessLocal.

(** C9. Neither [perform_liveness_check] nor
    [_create_single_pseudo_depth_map] changes an array that exists when it
    is called, the caller's frame (or ROI) among them: every in-place
    operation of the two functions works on an array that the call itself
    created. This holds however the call ends. *)
Theorem caller_arrays_not_mutated (L : library) (frame : loc)
    (face_roi : option loc) (target_display_size : Z * Z)
    (p : depth_params) (s : state) (l : loc) :
  (l < next s)%nat ->
  store (snd (perform_liveness_check L frame s)) !! l = store s !! l /\
  store (snd (_create_single_pseudo_depth_map L face_roi
                target_display_size p s)) !! l = store s !! l.
Proof.
  intros Hl. split.
  - destruct (local_perform_liveness_check L (next s) frame s)
      as ((_ & H) & _); [lia |]. by apply H.
  - destruct (local_create_single_pseudo_depth_map L p (next s) face_roi
                target_display_size s) as ((_ & H) & _); [lia |].
    by apply H.
Qed.

Lemma caller_arrays_not_mutated_witness :
  store (snd (perform_liveness_check
                (bench_library [bench_face] six_dots high_score) 0%nat
                bench_state)) !! 0%nat = Some bench_frame /\
  store (snd (_create_single_pseudo_depth_map
                (bench_library [bench_face] six_dots high_score)
                (Some 0%nat) (600, 600) default_depth_params
                bench_state)) !! 0%nat = Some bench_frame.
Proof.
  apply (caller_arrays_not_mutated
           (bench_library [bench_face] six_dots high_score) 0%nat
           (Some 0%nat) (600, 600) default_depth_params bench_state 0%nat).
  cbn. lia.
Defined.

(** ** The verdict *)

Lemma verdict_of_check (L : library) (frame : loc) (s0 s1 s3 : state)
    (c : context) (v : verdict) :
  extract_face_dots L frame s0 = (Ok (Some c), s1) ->
  check_face_dots L frame c s1 = (Ok v, s3) ->
  liveness_verdict L frame s0 = (Ok (is_live v, Some (similarity_score v)), s3)
  /\ perform_liveness_check L frame s0 = (Ok (is_live v), s3).
Proof.
  intros H1 H2. unfold perform_liveness_check, liveness_verdict.
  unfold bind. rewrite H1, H2. done.
Qed.

(** C1. When stages 1 to 7 have returned a heatmap, both models are loaded
    and anything inside the comparison raises an exception, whatever it is
    and wherever it is raised, [perform_liveness_check] returns normally,
    with [is_live = False] and [similarity_score = -1.0]. *)
Theorem scoring_exception_fails_closed (L : library) (frame : loc)
    (s0 s1 s2 s3 : state) (c : context) (heatmap_norm : list (list cell))
    (processor model : handle) (e : exception) :
  extract_face_dots L frame s0 = (Ok (Some c), s1) ->
  prepare_heatmap L frame c s1 = (Ok (Some heatmap_norm), s2) ->
  depth_processor c = Some processor ->
  depth_model c = Some model ->
  compare_with_depth_model L frame c heatmap_norm processor model s2 =
    (Raise e, s3) ->
  liveness_verdict L frame s0 = (Ok (false, Some (Fin (-1))), s3) /\
  perform_liveness_check L frame s0 = (Ok false, s3).
Proof.
  intros H1 H2 Hp Hm H3.
  apply (verdict_of_check L frame s0 s1 s3 c not_live H1).
  unfold check_face_dots, bind. rewrite H2.
  unfold depth_comparison. rewrite Hp, Hm.
  unfold try_except. rewrite H3. done.
Qed.

Lemma scoring_exception_fails_closed_witness :
  exists s3,
    liveness_verdict (bench_library [bench_face] six_dots (inl ValueError))
      0%nat bench_state = (Ok (false, Some (Fin (-1))), s3) /\
    perform_liveness_check
      (bench_library [bench_face] six_dots (inl ValueError))
      0%nat bench_state = (Ok false, s3).
Proof.
  eexists.
  eapply (scoring_exception_fails_closed
            (bench_library [bench_face] six_dots (inl ValueError)) 0%nat
            bench_state).
  - vm_compute. reflexivity.
  - vm_compute. reflexivity.
  - vm_compute. reflexivity.
  - vm_compute. reflexivity.
  - vm_compute. reflexivity.
Defined.

Lemma compare_degenerate_raises (L : library) (frame : loc) (c : context)
    (hm : list (list cell)) (processor model : handle) (s : state) :
  degenerate_roi c ->
  exists e s',
    compare_with_depth_model L frame c hm processor model s = (Raise e, s').
Proof.
  unfold degenerate_roi, clamp_roi. intros Hdeg.
  unfold compare_with_depth_model, clamp_roi, bind, call, bind, read, log,
    lift. cbn.
  destruct (cv_cvtColor_BGR2RGB L _) as [e | rgb]; cbn; [by eauto |].
  destruct (estimate_depth L _ _ _) as [e | full]; cbn; [by eauto |].
  match goal with
  | |- context [if ?b then _ else _] => assert (Hb : b = true)
  end.
  { apply orb_true_iff. destruct Hdeg; [left | right]; lia. }
  rewrite Hb. by eauto.
Qed.

(** C2, as the code has it. When the clamped face box has no extent and
    stages 1 to 7 have returned, [perform_liveness_check] does not raise:
    the [ValueError] of the clamp check (or an earlier failure of the
    comparison) is caught inside, or the comparison is skipped, and the
    function returns [is_live = False] with [similarity_score = -1.0]. *)
Theorem degenerate_roi_fails_closed (L : library) (frame : loc)
    (s0 s1 s2 : state) (c : context)
    (heatmap_norm : option (list (list cell))) :
  extract_face_dots L frame s0 = (Ok (Some c), s1) ->
  prepare_heatmap L frame c s1 = (Ok heatmap_norm, s2) ->
  degenerate_roi c ->
  exists s3,
    liveness_verdict L frame s0 = (Ok (false, Some (Fin (-1))), s3) /\
    perform_liveness_check L frame s0 = (Ok false, s3).
Proof.
  intros H1 H2 Hdeg.
  assert (exists s3, check_face_dots L frame c s1 = (Ok not_live, s3))
    as [s3 H3].
  { unfold check_face_dots, bind. rewrite H2. unfold depth_comparison.
    destruct heatmap_norm as [hm |]; [| by eexists].
    destruct (depth_model c) as [model |]; [| by eexists].
    destruct (depth_processor c) as [processor |]; [| by eexists].
    destruct (compare_degenerate_raises L frame c hm processor model s2
                Hdeg) as (e & s' & He).
    unfold try_except. rewrite He. by eexists. }
  exists s3. by apply (verdict_of_check L frame s0 s1 s3 c not_live).
Qed.

Lemma degenerate_roi_fails_closed_witness :
  exists s3,
    liveness_verdict (bench_library [stale_face] stale_dots high_score)
      0%nat bench_state = (Ok (false, Some (Fin (-1))), s3) /\
    perform_liveness_check
      (bench_library [stale_face] stale_dots high_score)
      0%nat bench_state = (Ok false, s3).
Proof.
  eapply (degenerate_roi_fails_closed
            (bench_library [stale_face] stale_dots high_score) 0%nat
            bench_state).
  - vm_compute. reflexivity.
  - vm_compute. reflexivity.
  - vm_compute. left. discriminate.
Defined.

(** C2 as stated fails. With a face box of width 0 no dot passes the
    filter, the comparison is skipped and the function returns [False].
    With a face box right of the frame, six dots, a heatmap and both models
    loaded, the clamp check raises [ValueError] inside the comparison, and
    the function again returns [False] to its caller instead of raising. *)
Lemma degenerate_roi_is_not_propagated :
  (let L := bench_library [empty_face] six_dots high_score in
   exists c s1,
     extract_face_dots L 0%nat bench_state = (Ok (Some c), s1) /\
     degenerate_roi c /\
     fst (perform_liveness_check L 0%nat bench_state) = Ok false) /\
  (let L := bench_library [stale_face] stale_dots high_score in
   exists c s1 hm s2 s3,
     extract_face_dots L 0%nat bench_state = (Ok (Some c), s1) /\
     degenerate_roi c /\
     prepare_heatmap L 0%nat c s1 = (Ok (Some hm), s2) /\
     compare_with_depth_model L 0%nat c hm (Handle 0) (Handle 1) s2 =
       (Raise ValueError, s3) /\
     fst (perform_liveness_check L 0%nat bench_state) = Ok false /\
     ~ (exists e,
          fst (perform_liveness_check L 0%nat bench_state) = Raise e)).
Proof.
  cbn zeta. split.
  - do 2 eexists.
    split; [vm_compute; reflexivity |].
    split; [vm_compute; left; discriminate |].
    vm_compute; reflexivity.
  - do 5 eexists.
    split; [vm_compute; reflexivity |].
    split; [vm_compute; left; discriminate |].
    split; [vm_compute; reflexivity |].
    split; [vm_compute; reflexivity |].
    split; [vm_compute; reflexivity |].
    intros [e He]. vm_compute in He. discriminate He.
Qed.

(** C4, as the code has it. When at most 5 dots are retained inside the
    face, nothing after the dot filter calls a library: the plot, the
    heatmap construction, the depth comparison and the scoring are all
    skipped, and [perform_liveness_check] returns [is_live = False] with
    the initial [similarity_score = -1.0], without raising. *)
Theorem few_dots_skip_downstream_stages (L : library) (frame : loc)
    (s0 s1 : state) (c : context) :
  extract_face_dots L frame s0 = (Ok (Some c), s1) ->
  dot_count c <= 5 ->
  exists s2,
    liveness_verdict L frame s0 = (Ok (false, Some (Fin (-1))), s2) /\
    perform_liveness_check L frame s0 = (Ok false, s2) /\
    trace s2 = trace s1.
Proof.
  intros H1 Hfew.
  assert (Hb : (5 <? dot_count c) = false) by (apply Z.ltb_ge; lia).
  assert (exists s2, check_face_dots L frame c s1 = (Ok not_live, s2) /\
                     trace s2 = trace s1) as (s2 & H2 & Ht).
  { unfold check_face_dots, prepare_heatmap, plot_point_cloud,
      build_heatmap. rewrite Hb. eexists. split; reflexivity. }
  exists s2.
  destruct (verdict_of_check L frame s0 s1 s2 c not_live H1 H2) as [Hv Hp].
  done.
Qed.

Lemma few_dots_skip_downstream_stages_witness :
  exists s2,
    liveness_verdict (bench_library [bench_face] five_dots high_score)
      0%nat bench_state = (Ok (false, Some (Fin (-1))), s2) /\
    perform_liveness_check (bench_library [bench_face] five_dots high_score)
      0%nat bench_state = (Ok false, s2) /\
    trace s2 =
    trace (snd (extract_face_dots
                  (bench_library [bench_face] five_dots high_score)
                  0%nat bench_state)).
Proof.
  eapply (few_dots_skip_downstream_stages
            (bench_library [bench_face] five_dots high_score) 0%nat
            bench_state).
  - vm_compute. reflexivity.
  - vm_compute. discriminate.
Defined.

Ltac absent_from_trace :=
  let H := fresh in
  intros H; vm_compute in H;
  repeat (destruct H as [H | H]; [discriminate H |]); exact H.

Ltac present_in_trace :=
  vm_compute; repeat first [left; reflexivity | right].

(** C4 as stated fails: with exactly 5 dots inside the face no heatmap is
    interpolated, the depth model is not run and no score is computed,
    while the same libraries run all three for 6 dots. *)
Lemma five_dots_run_no_downstream_stage :
  let run dots :=
    liveness_verdict (bench_library [bench_face] dots high_score) 0%nat
      bench_state in
  let called name dots := In (EvCall name) (trace (snd (run dots))) in
  (exists c s1,
     extract_face_dots (bench_library [bench_face] five_dots high_score)
       0%nat bench_state = (Ok (Some c), s1) /\ dot_count c = 5) /\
  fst (run five_dots) = Ok (false, Some (Fin (-1))) /\
  ~ called "griddata"%string five_dots /\
  ~ called "depth_model"%string five_dots /\
  ~ called "ssim"%string five_dots /\
  called "griddata"%string six_dots /\
  called "depth_model"%string six_dots /\
  called "ssim"%string six_dots.
Proof.
  cbn zeta. split; [do 2 eexists; split; vm_compute; reflexivity |].
  split; [vm_compute; reflexivity |].
  split; [absent_from_trace |].
  split; [absent_from_trace |].
  split; [absent_from_trace |].
  split; [present_in_trace |].
  split; present_in_trace.
Qed.

(** ** The intensity of a dot *)

Lemma not_u8_uint8 (p : Z) : 0 <= p <= 255 -> not_u8 p = 255 - p.
Proof.
  intros H. unfold not_u8, Z.lnot.
  replace (Z.pred (- p)) with (255 - p + (-1) * 256) by lia.
  rewrite Z.mod_add by lia. apply Z.mod_small. lia.
Qed.

Lemma height_bitwise_not (g : list (list Z)) :
  height (bitwise_not g) = height g.
Proof. unfold height, bitwise_not. by rewrite length_map. Qed.

Lemma width_bitwise_not (g : list (list Z)) :
  width (bitwise_not g) = width g.
Proof. destruct g; cbn; [done |]. by rewrite length_map. Qed.

Lemma getitem_bitwise_not (g : list (list Z)) (y x : Z) :
  getitem (bitwise_not g) y x =
  match getitem g y x with
  | inr p => inr (not_u8 p)
  | inl e => inl e
  end.
Proof.
  unfold getitem, bitwise_not. rewrite nth_error_map.
  destruct (nth_error g (Z.to_nat y)) as [row |]; cbn; [| done].
  rewrite nth_error_map. by destruct (nth_error row (Z.to_nat x)).
Qed.

(** What the loop records for a keypoint that passes the face test, when
    [gray] is the inverted image as at line 735: the inverse of the pixel
    of the original grayscale frame at the clamped centre. *)
Lemma recorded_intensity_is_inverted (L : library)
    (original : list (list Z)) (f : FaceRegion) (d : loc) (acc acc' : dots)
    (k : KeyPoint) (s s' : state) :
  let x := py_int (pt_x k) in
  let y := py_int (pt_y k) in
  let y_clamped := Z.max 0 (Z.min y (height original - 1)) in
  let x_clamped := Z.max 0 (Z.min x (width original - 1)) in
  (fx f <? x) && (x <? x_end f) && (fy f <? y) && (y <? y_end f) = true ->
  filter_keypoint L (bitwise_not original) f d acc k s = (Ok acc', s') ->
  exists p,
    getitem original y_clamped x_clamped = inr p /\
    face_dot_intensities acc' = face_dot_intensities acc ++ [not_u8 p].
Proof.
  cbn zeta. intros Hin. unfold filter_keypoint. rewrite Hin.
  rewrite height_bitwise_not, width_bitwise_not, getitem_bitwise_not.
  destruct (getitem original _ _) as [e | p]; [by cbn |].
  intros Hrun. exists p. split; [done |].
  unfold bind, lift, ret, read, call, bind, log, lift, write in Hrun.
  cbn in Hrun. destruct (cv_circle L _ _ _ _ _); cbn in Hrun; [done |].
  by inversion Hrun.
Qed.

(** C3, evaluated. The frame's grayscale image has value [r + 2 c] at row
    [r], column [c]; six blobs lie strictly inside the face box. The
    intensities that the filter records are [255 - (r + 2 c)], the values
    of the inverted image, not the values [r + 2 c] of the original
    grayscale frame at the same (clamped) centres. *)
Theorem dot_intensity_is_sampled_after_inversion :
  let L := bench_library [bench_face] six_dots high_score in
  exists c s1,
    cv_cvtColor_BGR2GRAY L bench_frame = inr bench_gray /\
    extract_face_dots L 0%nat bench_state = (Ok (Some c), s1) /\
    face_dot_coords (found c) =
      [(10, 12); (20, 12); (30, 12); (10, 40); (20, 40); (30, 50)] /\
    map (fun xy => getitem bench_gray (snd xy) (fst xy))
        (face_dot_coords (found c)) =
      [inr 32; inr 52; inr 72; inr 60; inr 80; inr 110] /\
    face_dot_intensities (found c) = [223; 203; 183; 195; 175; 145].
Proof.
  cbn zeta. do 2 eexists.
  split; [vm_compute; reflexivity |].
  split; [vm_compute; reflexivity |].
  split; [vm_compute; reflexivity |].
  split; vm_compute; reflexivity.
Qed.

(** * Further properties of the code *)

(** ** Inversion of a run that returned *)

Lemma call_Ok {A} (name : string) (r : exception + A) (s s' : state)
    (a : A) :
  call name r s = (Ok a, s') ->
  r = inr a /\
  s' = {| store := store s; next := next s;
          trace := trace s ++ [EvCall name] |}.
Proof.
  unfold call, bind, log, lift. cbn. destruct r; cbn; [done |].
  intros H. by inversion H.
Qed.

Lemma lift_Ok {A} (r : exception + A) (s s' : state) (a : A) :
  lift r s = (Ok a, s') -> r = inr a /\ s' = s.
Proof. destruct r; cbn; [done |]. intros H. by inversion H. Qed.

(** ** The dot filter *)

Lemma inside_face_spec (f : FaceRegion) (xy : Z * Z) :
  inside_face f xy = true <-> strictly_inside f xy.
Proof.
  unfold inside_face, strictly_inside.
  rewrite !andb_true_iff, !Z.ltb_lt. tauto.
Qed.

Lemma filter_keypoint_Ok (L : library) (g : list (list Z)) (f : FaceRegion)
    (d : loc) (acc acc' : dots) (k : KeyPoint) (s s' : state) :
  filter_keypoint L g f d acc k s = (Ok acc', s') ->
  if inside_face f (centre k) then
    exists p,
      acc' = {| face_keypoints := face_keypoints acc ++ [k];
                face_dot_coords := face_dot_coords acc ++ [centre k];
                face_dot_intensities := face_dot_intensities acc ++ [p] |}
      /\ getitem g (Z.max 0 (Z.min (snd (centre k)) (height g - 1)))
           (Z.max 0 (Z.min (fst (centre k)) (width g - 1))) = inr p
  else acc' = acc.
Proof.
  unfold filter_keypoint, inside_face, centre. cbn [fst snd].
  destruct (_ && _ && _ && _).
  - intros H. apply bind_Ok in H as (p & s1 & Hp & H).
    apply lift_Ok in Hp as [Hp ->].
    apply bind_Ok in H as (x & s2 & _ & H).
    apply bind_Ok in H as (y & s3 & _ & H).
    apply bind_Ok in H as (z & s4 & _ & H).
    inversion H. by exists p.
  - intros H. by inversion H.
Qed.

Lemma filter_keypoints_Ok (L : library) (g : list (list Z)) (f : FaceRegion)
    (d : loc) (kps : list KeyPoint) (acc acc' : dots) (s s' : state) :
  filter_keypoints L g f d acc kps s = (Ok acc', s') ->
  exists ps,
    face_keypoints acc' =
      face_keypoints acc ++ filter (fun k => inside_face f (centre k)) kps
    /\ face_dot_coords acc' =
         face_dot_coords acc ++
         map centre (filter (fun k => inside_face f (centre k)) kps)
    /\ face_dot_intensities acc' = face_dot_intensities acc ++ ps
    /\ length ps =
         length (filter (fun k => inside_face f (centre k)) kps)
    /\ Forall (fun p => exists y x, getitem g y x = inr p) ps.
Proof.
  revert acc s. induction kps as [| k kps IH]; intros acc s H.
  - inversion H. exists []. by rewrite !app_nil_r.
  - cbn [filter_keypoints] in H. apply bind_Ok in H as (a1 & s1 & H1 & H).
    apply filter_keypoint_Ok in H1.
    destruct (IH a1 s1 H) as (ps & -> & -> & -> & Hlen & Hall).
    rewrite filter_cons.
    destruct (decide (inside_face f (centre k))) as [Hin | Hout].
    + apply Is_true_true in Hin. rewrite Hin in H1.
      destruct H1 as (p & -> & Hp). cbn. exists (p :: ps).
      rewrite <- !app_assoc. cbn. rewrite Hlen.
      repeat split; try done. constructor; [by eauto | done].
    + apply Is_true_false in Hout. rewrite Hout in H1. subst a1.
      by exists ps.
Qed.

Lemma not_u8_range (p : Z) : 0 <= not_u8 p <= 255.
Proof.
  unfold not_u8. pose proof (Z.mod_pos_bound (Z.lnot p) 256). lia.
Qed.

Lemma load_depth_model_returns (L : library) (s : state) :
  exists s',
    load_depth_model L s = (Ok (loaded_models L), s') /\
    store s' = store s /\ next s' = next s.
Proof.
  unfold load_depth_model, loaded_models, try_except, bind, call, bind, log,
    lift. cbn.
  destruct (processor_from_pretrained L) as [e | p]; cbn; [by eauto |].
  destruct (model_from_pretrained L) as [e | m]; cbn; by eauto.
Qed.

Lemma dots_in_face_Ok (L : library) (g : list (list Z)) (d : loc)
    (models : option handle * option handle) (f : FaceRegion) (c : context)
    (s s' : state) :
  dots_in_face L g d models f s = (Ok c, s') ->
  gray c = bitwise_not g /\ face c = f /\ img_display c = d /\
  depth_processor c = fst models /\ depth_model c = snd models /\
  exists opened kps s1,
    blob_detect L opened = inr kps /\
    filter_keypoints L (bitwise_not g) f d no_dots kps s1 =
      (Ok (found c), s').
Proof.
  unfold dots_in_face. intros H.
  apply bind_Ok in H as (? & ? & _ & H).
  apply bind_Ok in H as (? & ? & _ & H).
  apply bind_Ok in H as (? & ? & _ & H).
  apply bind_Ok in H as (? & ? & _ & H).
  apply bind_Ok in H as (? & ? & _ & H).
  apply bind_Ok in H as (? & ? & _ & H).
  apply bind_Ok in H as (opened & ? & _ & H).
  apply bind_Ok in H as (kps & s1 & Hk & H).
  apply call_Ok in Hk as [Hk _].
  apply bind_Ok in H as (fd & s2 & Hf & H).
  inversion H; subst. cbn. repeat split; try done. by eauto.
Qed.

Lemma extract_face_dots_Ok (L : library) (frame : loc) (c : context)
    (s s' : state) :
  extract_face_dots L frame s = (Ok (Some c), s') ->
  cascade_empty L = false /\
  exists g faces rest d s1,
    cv_cvtColor_BGR2GRAY L (store s !!! frame) = inr g /\
    cv_detectMultiScale L g = inr faces /\
    sorted_reverse area_key faces = face c :: rest /\
    dots_in_face L g d (loaded_models L) (face c) s1 = (Ok c, s').
Proof.
  unfold extract_face_dots. rewrite bind_copy_read. intros H.
  apply bind_Ok in H as (g & s1 & Hg & H). apply call_Ok in Hg as [Hg _].
  apply bind_Ok in H as (? & s2 & _ & H).
  destruct (cascade_empty L); [done |]. split; [done |].
  apply bind_Ok in H as (models & s3 & Hm & H).
  destruct (load_depth_model_returns L s2) as (s3' & Hm' & _).
  rewrite Hm' in Hm. inversion Hm; subst.
  apply bind_Ok in H as (faces & s4 & Hf & H). apply call_Ok in Hf as [Hf _].
  destruct (_ =? _)%nat; [done |].
  destruct (sorted_reverse area_key faces) as [| f rest] eqn:Hsort; [done |].
  apply bind_Ok in H as (c' & s5 & Hd & H). inversion H; subst.
  destruct (dots_in_face_Ok _ _ _ _ _ _ _ _ Hd) as (_ & Hface & _).
  subst f. by eauto 10.
Qed.

(** X1. The dots that stages 1 to 6 hand on are exactly the detected blobs
    whose truncated centre passes the test of line 727, in detection
    order: every retained coordinate is strictly inside the selected face
    box, the three lists stay aligned, and every recorded intensity is a
    [uint8] value. *)
Theorem retained_dots_lie_inside_face (L : library) (frame : loc)
    (c : context) (s s' : state) :
  extract_face_dots L frame s = (Ok (Some c), s') ->
  (exists opened all_keypoints,
     blob_detect L opened = inr all_keypoints /\
     face_keypoints (found c) =
       filter (fun k => inside_face (face c) (centre k)) all_keypoints) /\
  face_dot_coords (found c) = map centre (face_keypoints (found c)) /\
  Forall (strictly_inside (face c)) (face_dot_coords (found c)) /\
  length (face_dot_intensities (found c)) =
    length (face_dot_coords (found c)) /\
  Forall (fun p => 0 <= p <= 255) (face_dot_intensities (found c)).
Proof.
  intros H. apply extract_face_dots_Ok in H as (_ & g & faces & rest & d &
                                                s1 & _ & _ & _ & H).
  apply dots_in_face_Ok in H
    as (_ & _ & _ & _ & _ & opened & kps & s2 & Hk & H).
  apply filter_keypoints_Ok in H as (ps & Hkp & Hco & Hin & Hlen & Hps).
  cbn in Hkp, Hco, Hin. rewrite Hkp, Hco, Hin.
  split; [by eauto |]. split; [done |]. split; [| split].
  - apply Forall_forall. intros xy Hxy. apply list_elem_of_In in Hxy.
    apply in_map_iff in Hxy as (k & <- & Hk').
    apply list_elem_of_In, list_elem_of_filter in Hk' as [Hk' _].
    apply inside_face_spec. by apply Is_true_true.
  - by rewrite length_map.
  - eapply Forall_impl; [exact Hps |]. cbn. intros p (y & x & Hp).
    rewrite getitem_bitwise_not in Hp.
    destruct (getitem g y x); [done |]. inversion Hp. apply not_u8_range.
Qed.

Lemma retained_dots_lie_inside_face_witness :
  exists c,
    Forall (strictly_inside (face c)) (face_dot_coords (found c)) /\
    length (face_dot_coords (found c)) = 6%nat.
Proof.
  eexists.
  split.
  - eapply (retained_dots_lie_inside_face
              (bench_library [bench_face] six_dots high_score) 0%nat _
              bench_state).
    vm_compute. reflexivity.
  - vm_compute. reflexivity.
Defined.

(** ** How the check ends *)

Lemma extract_no_face (L : library) (frame : loc) (s : state)
    (g : list (list Z)) :
  cv_cvtColor_BGR2GRAY L (store s !!! frame) = inr g ->
  cascade_empty L = false ->
  cv_detectMultiScale L g = inr [] ->
  exists s',
    extract_face_dots L frame s = (Ok None, s') /\
    last (trace s') = Some (EvCall "detectMultiScale").
Proof.
  intros Hg Hc Hd. unfold extract_face_dots.
  rewrite bind_copy_read, Hg, bind_call_inr.
  unfold bind at 1. cbn [log]. rewrite Hc. unfold bind at 1.
  match goal with
  | |- context [load_depth_model L ?s0] =>
      destruct (load_depth_model_returns L s0) as (s1 & -> & _ & _)
  end.
  rewrite Hd, bind_call_inr. cbn. eexists. split; [done |].
  cbn. by rewrite last_snoc.
Qed.

(** X2. When the cascade is loaded and the detector finds no face, the
    check returns [False] at once: detection is its last library call and
    nothing of stages 2 to 8 runs. *)
Theorem no_face_returns_not_live (L : library) (frame : loc) (s : state)
    (g : list (list Z)) :
  cv_cvtColor_BGR2GRAY L (store s !!! frame) = inr g ->
  cascade_empty L = false ->
  cv_detectMultiScale L g = inr [] ->
  exists s',
    perform_liveness_check L frame s = (Ok false, s') /\
    liveness_verdict L frame s = (Ok (false, None), s') /\
    last (trace s') = Some (EvCall "detectMultiScale").
Proof.
  intros Hg Hc Hd.
  destruct (extract_no_face L frame s g Hg Hc Hd) as (s' & He & Hl).
  exists s'. unfold perform_liveness_check, liveness_verdict, bind.
  rewrite He. done.
Qed.

Lemma no_face_returns_not_live_witness :
  exists s',
    perform_liveness_check (bench_library [] six_dots high_score) 0%nat
      bench_state = (Ok false, s') /\
    liveness_verdict (bench_library [] six_dots high_score) 0%nat
      bench_state = (Ok (false, None), s') /\
    last (trace s') = Some (EvCall "detectMultiScale").
Proof.
  apply (no_face_returns_not_live (bench_library [] six_dots high_score)
           0%nat bench_state bench_gray).
  - vm_compute. reflexivity.
  - reflexivity.
  - reflexivity.
Defined.

(** X3. When the cascade file did not load, the check calls [exit()]: it
    neither returns nor raises an [Exception], and it stops before the
    depth model is loaded and before any detection. *)
Theorem empty_cascade_exits (L : library) (frame : loc) (s : state)
    (g : list (list Z)) :
  cv_cvtColor_BGR2GRAY L (store s !!! frame) = inr g ->
  cascade_empty L = true ->
  exists s',
    perform_liveness_check L frame s = (Exit, s') /\
    trace s' =
      trace s ++ [EvCall "cv2.cvtColor"; EvCall "cv2.CascadeClassifier"].
Proof.
  intros Hg Hc.
  assert (exists s', extract_face_dots L frame s = (Exit, s') /\
            trace s' = trace s ++ [EvCall "cv2.cvtColor";
                                   EvCall "cv2.CascadeClassifier"])
    as (s' & He & Ht).
  { unfold extract_face_dots.
    rewrite bind_copy_read, Hg, bind_call_inr.
    unfold bind at 1. cbn [log]. rewrite Hc. cbn. eexists. split; [done |].
    cbn. by rewrite <- app_assoc. }
  exists s'. unfold perform_liveness_check, liveness_verdict, bind.
  rewrite He. done.
Qed.

Lemma empty_cascade_exits_witness :
  exists s',
    perform_liveness_check
      (with_loading (bench_library [bench_face] six_dots high_score) true
         (inr (Handle 1)))
      0%nat bench_state = (Exit, s') /\
    trace s' =
      trace bench_state ++
        [EvCall "cv2.cvtColor"; EvCall "cv2.CascadeClassifier"].
Proof.
  eapply empty_cascade_exits.
  - vm_compute. reflexivity.
  - reflexivity.
Defined.

Lemma context_models (L : library) (frame : loc) (c : context)
    (s s' : state) :
  extract_face_dots L frame s = (Ok (Some c), s') ->
  (depth_processor c, depth_model c) = loaded_models L.
Proof.
  intros H. apply extract_face_dots_Ok in H
    as (_ & g & faces & rest & d & s1 & _ & _ & _ & H).
  apply dots_in_face_Ok in H as (_ & _ & _ & -> & -> & _).
  by destruct (loaded_models L).
Qed.

(** X4. When the depth estimator is not available, because the processor
    or the model failed to load, the check never reaches the comparison:
    once stages 1 to 7 have returned it returns [False] with the initial
    score, and makes no further library call. *)
Theorem missing_depth_model_fails_closed (L : library) (frame : loc)
    (s s1 s2 : state) (c : context)
    (heatmap_norm : option (list (list cell))) (e : exception) :
  processor_from_pretrained L = inl e \/ model_from_pretrained L = inl e ->
  extract_face_dots L frame s = (Ok (Some c), s1) ->
  prepare_heatmap L frame c s1 = (Ok heatmap_norm, s2) ->
  liveness_verdict L frame s = (Ok (false, Some (Fin (-1))), s2) /\
  perform_liveness_check L frame s = (Ok false, s2).
Proof.
  intros Hload H1 H2.
  apply (verdict_of_check L frame s s1 s2 c not_live H1).
  unfold check_face_dots, bind. rewrite H2. unfold depth_comparison.
  pose proof (context_models L frame c s s1 H1) as Hm.
  unfold loaded_models in Hm.
  destruct heatmap_norm; [| done].
  destruct (processor_from_pretrained L) as [e1 | p].
  - injection Hm as Hp Hd. by rewrite Hd.
  - destruct Hload as [Hload | Hload]; [done |]. rewrite Hload in Hm.
    injection Hm as Hp Hd. by rewrite Hd.
Qed.

Lemma missing_depth_model_fails_closed_witness :
  exists s2,
    liveness_verdict
      (with_loading (bench_library [bench_face] six_dots high_score) false
         (inl (OtherException 1)))
      0%nat bench_state = (Ok (false, Some (Fin (-1))), s2) /\
    perform_liveness_check
      (with_loading (bench_library [bench_face] six_dots high_score) false
         (inl (OtherException 1)))
      0%nat bench_state = (Ok false, s2).
Proof.
  eexists.
  eapply (missing_depth_model_fails_closed
            (with_loading (bench_library [bench_face] six_dots high_score)
               false (inl (OtherException 1))) 0%nat bench_state).
  - right. reflexivity.
  - vm_compute. reflexivity.
  - vm_compute. reflexivity.
Defined.

Lemma score_similarity_live (L : library) (hm : list (list cell))
    (d : ndarray) (v : verdict) (s s' : state) :
  score_similarity L hm d s = (Ok v, s') ->
  is_live v = true ->
  exists x, similarity_score v = Fin x /\ passes_threshold L x.
Proof.
  unfold score_similarity, passes_threshold. intros H Hlive.
  apply bind_Ok in H as (resized & s1 & _ & H).
  destruct (ssim L) as [f |].
  - apply bind_Ok in H as (r & s2 & _ & H). inversion H; subst.
    cbn in *. destruct (fst r) as [| x]; [done |]. exists x.
    split; [done |]. unfold cell_gtb, cell_ltb in Hlive.
    apply negb_true_iff in Hlive. apply Qnot_le_lt. intros Hle.
    apply Qle_bool_iff in Hle. congruence.
  - apply bind_Ok in H as (sc & s2 & _ & H). inversion H; subst.
    cbn in *. destruct sc as [| x]; [done |]. exists x.
    split; [done |]. unfold cell_ltb in Hlive.
    apply negb_true_iff in Hlive. apply Qnot_le_lt. intros Hle.
    apply Qle_bool_iff in Hle. congruence.
Qed.

Lemma compare_with_depth_model_live (L : library) (frame : loc)
    (c : context) (hm : list (list cell)) (processor model : handle)
    (v : verdict) (s s' : state) :
  compare_with_depth_model L frame c hm processor model s = (Ok v, s') ->
  ~ degenerate_roi c /\
  (is_live v = true ->
   exists x, similarity_score v = Fin x /\ passes_threshold L x).
Proof.
  unfold compare_with_depth_model, degenerate_roi. intros H.
  apply bind_Ok in H as (fr & s1 & _ & H).
  apply bind_Ok in H as (rgb & s2 & _ & H).
  apply bind_Ok in H as (full & s3 & _ & H).
  destruct (clamp_roi (gray c) (face c)) as [[[fx_c fy_c] fw_c] fh_c].
  destruct (Z.leb_spec fw_c 0); [done |].
  destruct (Z.leb_spec fh_c 0); [done |]. cbn in H.
  split; [lia |].
  apply bind_Ok in H as (dn & s4 & _ & H).
  apply bind_Ok in H as (u & s5 & _ & H).
  by apply (score_similarity_live L hm dn v s5 s').
Qed.

Lemma build_heatmap_Some (L : library) (frame : loc) (c : context)
    (overlay : loc) (hm : list (list cell)) (s s' : state) :
  build_heatmap L frame c overlay s = (Ok (Some hm), s') ->
  5 < dot_count c.
Proof.
  unfold build_heatmap. destruct (Z.ltb_spec 5 (dot_count c)); done.
Qed.

(** X5. The check answers [True] only when everything lined up: a face
    was selected, more than 5 dots were retained inside it, both the
    processor and the model were loaded, the clamped face box had an
    extent, and the similarity call returned a number (not NaN) that
    passes the threshold of the metric in use: above 0.3 for SSIM, below
    0.05 for the MSE fallback. *)
Theorem live_verdict_is_earned (L : library) (frame : loc) (s s' : state)
    (score : option cell) :
  liveness_verdict L frame s = (Ok (true, score), s') ->
  exists c s1 x,
    extract_face_dots L frame s = (Ok (Some c), s1) /\
    5 < dot_count c /\
    is_Some (depth_processor c) /\ is_Some (depth_model c) /\
    ~ degenerate_roi c /\
    score = Some (Fin x) /\ passes_threshold L x.
Proof.
  unfold liveness_verdict. intros H.
  apply bind_Ok in H as ([c |] & s1 & He & H); [| done].
  apply bind_Ok in H as (v & s2 & Hc & H).
  injection H as Hlive <- _.
  unfold check_face_dots in Hc.
  apply bind_Ok in Hc as (hmo & s3 & Hp & Hc).
  unfold depth_comparison in Hc.
  destruct hmo as [hm |]; [| injection Hc as <-; done].
  destruct (depth_model c) as [model |] eqn:Hm;
    [| injection Hc as <-; done].
  destruct (depth_processor c) as [processor |] eqn:Hpr;
    [| injection Hc as <-; done].
  apply try_except_Ok in Hc as [Hc | (e & s4 & _ & Hc)];
    [| injection Hc as <-; done].
  apply compare_with_depth_model_live in Hc as [Hdeg Hsc].
  destruct (Hsc Hlive) as (x & Hx & Hpass).
  unfold prepare_heatmap in Hp.
  apply bind_Ok in Hp as (u & s5 & _ & Hp).
  apply bind_Ok in Hp as (ov & s6 & _ & Hp).
  apply build_heatmap_Some in Hp.
  exists c, s1, x. rewrite Hx. by eauto 10.
Qed.

Lemma live_verdict_is_earned_witness :
  exists c s1 x,
    extract_face_dots (bench_library [bench_face] six_dots high_score)
      0%nat bench_state = (Ok (Some c), s1) /\
    5 < dot_count c /\
    is_Some (depth_processor c) /\ is_Some (depth_model c) /\
    ~ degenerate_roi c /\
    Some (Fin (9 # 10)) = Some (Fin x) /\
    passes_threshold (bench_library [bench_face] six_dots high_score) x.
Proof.
  eapply (live_verdict_is_earned
            (bench_library [bench_face] six_dots high_score) 0%nat
            bench_state).
  vm_compute. reflexivity.
Defined.

(** ** The clamped face box and the crop of the depth map *)

Lemma slice_bound_inside (n i : Z) : 0 <= i <= n -> slice_bound n i = i.
Proof.
  intros H. unfold slice_bound. destruct (Z.ltb_spec i 0); lia.
Qed.

Lemma length_py_slice {A} (l : list A) (start stop : Z) :
  0 <= start <= stop -> stop <= Z.of_nat (length l) ->
  length (py_slice l start stop) = Z.to_nat (stop - start).
Proof.
  intros H1 H2. unfold py_slice.
  rewrite !slice_bound_inside by lia.
  rewrite length_take, length_drop. lia.
Qed.

Lemma py_slice_elem_of {A} (l : list A) (start stop : Z) (x : A) :
  x ∈ py_slice l start stop -> x ∈ l.
Proof.
  unfold py_slice. intros H.
  by apply subseteq_take, subseteq_drop in H.
Qed.

(** X6. For a face box whose origin is not negative and whose clamped
    width and height are positive, the clamped box starts at the box's
    origin, is no larger than the box and ends inside the frame; the crop
    of a depth map of the frame's size then has exactly the clamped
    height and width. *)
Theorem clamped_roi_lies_inside_frame (g : list (list Z)) (f : FaceRegion)
    (full : list (list cell)) :
  0 <= fx f -> 0 <= fy f ->
  has_shape full (length g) (Z.to_nat (width g)) ->
  let '(fx_c, fy_c, fw_c, fh_c) := clamp_roi g f in
  0 < fw_c -> 0 < fh_c ->
  fx_c = fx f /\ fy_c = fy f /\ fw_c <= fw f /\ fh_c <= fh f /\
  fx_c + fw_c <= width g /\ fy_c + fh_c <= height g /\
  has_shape (slice_image full fy_c (fy_c + fh_c) fx_c (fx_c + fw_c))
    (Z.to_nat fh_c) (Z.to_nat fw_c).
Proof.
  intros Hx Hy [Hrows Hcols]. unfold clamp_roi. intros Hw Hh.
  split; [lia |]. split; [lia |]. split; [lia |]. split; [lia |].
  split; [lia |]. split; [unfold height in *; lia |].
  unfold slice_image, has_shape. rewrite length_map.
  split.
  - rewrite length_py_slice; unfold height in *; lia.
  - apply Forall_forall. intros row Hrow.
    apply list_elem_of_In, in_map_iff in Hrow as (r & <- & Hr).
    apply list_elem_of_In, py_slice_elem_of in Hr.
    rewrite Forall_forall in Hcols. specialize (Hcols r Hr).
    rewrite length_py_slice; lia.
Qed.

Lemma clamped_roi_lies_inside_frame_witness :
  let '(fx_c, fy_c, fw_c, fh_c) := clamp_roi bench_gray (mkFace 30 40 56 56)
  in
  fx_c = 30 /\ fy_c = 40 /\ fw_c <= 56 /\ fh_c <= 56 /\
  fx_c + fw_c <= width bench_gray /\ fy_c + fh_c <= height bench_gray /\
  has_shape (slice_image (constant_map 64 64 (1 # 2)) fy_c (fy_c + fh_c)
               fx_c (fx_c + fw_c))
    (Z.to_nat fh_c) (Z.to_nat fw_c).
Proof.
  apply (clamped_roi_lies_inside_frame bench_gray (mkFace 30 40 56 56)
           (constant_map 64 64 (1 # 2))).
  - cbn. lia.
  - cbn. lia.
  - split; [reflexivity |]. vm_compute. repeat constructor.
  - reflexivity.
  - reflexivity.
Defined.

(** ** The order of the detected faces *)

Lemma insert_desc_perm {A} (key : A -> Z) (x : A) (l : list A) :
  Permutation (insert_desc key x l) (x :: l).
Proof.
  induction l as [| y l IH]; cbn; [done |].
  destruct (key x <? key y); [| done]. rewrite IH. apply perm_swap.
Qed.

Lemma sorted_reverse_perm {A} (key : A -> Z) (l : list A) :
  Permutation (sorted_reverse key l) l.
Proof.
  induction l as [| x l IH]; [done |].
  change (sorted_reverse key (x :: l))
    with (insert_desc key x (sorted_reverse key l)).
  rewrite insert_desc_perm. by constructor.
Qed.

Lemma insert_desc_sorted {A} (key : A -> Z) (x : A) (l : list A) :
  Sorted (fun a b => key b <= key a) l ->
  Sorted (fun a b => key b <= key a) (insert_desc key x l).
Proof.
  induction l as [| y l IH]; cbn; intros Hs; [by repeat constructor |].
  destruct (Z.ltb_spec (key x) (key y)).
  - inversion Hs as [| ? ? Hs' Hhd]; subst.
    constructor; [by apply IH |].
    destruct l as [| z l]; cbn; [constructor; lia |].
    destruct (key x <? key z); constructor; [by inversion Hhd | lia].
  - constructor; [done |]. constructor. lia.
Qed.

Lemma sorted_reverse_sorted {A} (key : A -> Z) (l : list A) :
  Sorted (fun a b => key b <= key a) (sorted_reverse key l).
Proof.
  induction l as [| x l IH]; [constructor |].
  change (sorted_reverse key (x :: l))
    with (insert_desc key x (sorted_reverse key l)).
  by apply insert_desc_sorted.
Qed.

Lemma sorted_reverse_first_maximum {A} (key : A -> Z) (l : list A) (x : A)
    (rest : list A) :
  sorted_reverse key l = x :: rest ->
  exists before after,
    l = before ++ x :: after /\
    Forall (fun y => key y < key x) before /\
    Forall (fun y => key y <= key x) after.
Proof.
  revert x rest. induction l as [| a l IH]; intros x rest; [done |].
  change (sorted_reverse key (a :: l))
    with (insert_desc key a (sorted_reverse key l)).
  destruct (sorted_reverse key l) as [| y r] eqn:E.
  - destruct l as [| b l]; [| by destruct (insert_desc_not_nil _ _ _ E)].
    cbn. intros Heq. inversion Heq; subst. exists [], []. by repeat split.
  - destruct (IH y r eq_refl) as (before & after & -> & Hb & Ha). cbn.
    destruct (Z.ltb_spec (key a) (key y)); intros Heq; inversion Heq; subst.
    + exists (a :: before), after. split; [done |].
      split; [by constructor | done].
    + exists [], (before ++ y :: after). split; [done |].
      split; [constructor |].
      apply Forall_app. split.
      * eapply Forall_impl; [exact Hb |]. cbn. intros; lia.
      * constructor; [lia |].
        eapply Forall_impl; [exact Ha |]. cbn. intros; lia.
Qed.

(** X7. [sorted(faces, key=..., reverse=True)] as the check uses it: the
    result is a rearrangement of the detected faces in descending key
    order, and among faces of equal largest key the one detected first
    comes first, so [faces[0]] is the earliest face of maximal key. *)
Theorem selected_face_is_first_of_the_largest (faces : list FaceRegion) :
  Permutation (sorted_reverse area_key faces) faces /\
  Sorted (fun a b => area_key b <= area_key a)
    (sorted_reverse area_key faces) /\
  match sorted_reverse area_key faces with
  | [] => faces = []
  | f :: _ =>
      exists before after,
        faces = before ++ f :: after /\
        Forall (fun f' => area_key f' < area_key f) before /\
        Forall (fun f' => area_key f' <= area_key f) after
  end.
Proof.
  split; [apply sorted_reverse_perm |].
  split; [apply sorted_reverse_sorted |].
  destruct (sorted_reverse area_key faces) as [| f rest] eqn:E.
  - pose proof (sorted_reverse_perm area_key faces) as Hp.
    rewrite E in Hp. by apply Permutation_nil.
  - by eapply sorted_reverse_first_maximum.
Qed.

(** ** The heatmap: range, shape and orientation *)

Lemma finite_values_within (lo hi : Q) (a : list (list cell)) :
  cells_within lo hi a ->
  Forall (fun v => (lo <= v <= hi)%Q) (finite_values a).
Proof.
  unfold cells_within, finite_values. intros H.
  apply Forall_flat_map. eapply Forall_impl; [exact H |]. cbn.
  intros row Hrow. apply Forall_flat_map.
  eapply Forall_impl; [exact Hrow |]. cbn. intros [| v] Hv.
  - constructor.
  - constructor; [exact Hv | constructor].
Qed.

Lemma nth_within (lo hi : Q) (l : list Q) (i : nat) :
  Forall (fun v => (lo <= v <= hi)%Q) l -> (i < length l)%nat ->
  (lo <= nth i l 0 <= hi)%Q.
Proof.
  intros H Hi. rewrite Forall_forall in H. apply H.
  apply list_elem_of_In. by apply nth_In.
Qed.

Lemma median_of_sorted_within (lo hi : Q) (l : list Q) :
  l <> [] -> Forall (fun v => (lo <= v <= hi)%Q) l ->
  (lo <= median_of_sorted l <= hi)%Q.
Proof.
  intros Hne H. unfold median_of_sorted.
  assert (Hn : (0 < length l)%nat) by (destruct l; [done | cbn; lia]).
  assert (Hhalf : (length l / 2 < length l)%nat)
    by (apply Nat.div_lt; lia).
  destruct (Nat.even (length l)).
  - pose proof (nth_within lo hi l (length l / 2 - 1) H ltac:(lia)) as H1.
    pose proof (nth_within lo hi l (length l / 2) H Hhalf) as H2.
    set (x := nth (length l / 2 - 1) l 0%Q) in *.
    set (y := nth (length l / 2) l 0%Q) in *.
    split.
    + apply Qle_shift_div_l; [done |]. lra.
    + apply Qle_shift_div_r; [done |]. lra.
  - by apply nth_within.
Qed.

Lemma no_nan_defined_within (lo hi : Q) (a : list (list cell)) :
  any_nan a = false -> cells_within lo hi a ->
  cells_defined_within lo hi a.
Proof.
  unfold any_nan, cells_within, cells_defined_within.
  induction a as [| row a IH]; [by constructor |].
  cbn. intros Hnan Hw. apply orb_false_iff in Hnan as [Hrow Hnan].
  inversion Hw as [| ? ? Hr Hw']; subst. constructor; [| by apply IH].
  clear IH Hnan Hw Hw'. induction row as [| c row IHr]; [by constructor |].
  cbn in Hrow. apply orb_false_iff in Hrow as [Hc Hrow].
  inversion Hr; subst. constructor; [| by apply IHr].
  destruct c as [| v]; [done |]. by exists v.
Qed.

(** X8. If every value that the interpolation defines lies in a range
    that contains 0, as the normalised intensities in [0, 1] do, then
    after the fill step every cell of the heatmap is a number in that
    range: the median of values of the range is in the range. *)
Theorem filled_heatmap_stays_in_range (lo hi : Q)
    (interpolated : list (list cell)) :
  (lo <= 0 <= hi)%Q ->
  cells_within lo hi interpolated ->
  cells_defined_within lo hi (fill_undefined interpolated).
Proof.
  intros H0 Hw. unfold fill_undefined.
  destruct (any_nan interpolated) eqn:Hnan;
    [| by apply no_nan_defined_within].
  assert (Hv : (lo <= match nanmedian interpolated with
                      | NaN => 0
                      | Fin v => v
                      end <= hi)%Q).
  { unfold nanmedian.
    destruct (sort_values (finite_values interpolated)) as [| x l] eqn:E;
      [done |].
    apply median_of_sorted_within; [done |]. rewrite <- E.
    pose proof (finite_values_within lo hi interpolated Hw) as Hf.
    rewrite Forall_forall in Hf |- *. intros v Hin. apply Hf.
    by rewrite <- (sort_values_perm (finite_values interpolated)). }
  unfold cells_within, cells_defined_within, nan_to_num in *.
  apply Forall_forall. intros row Hrow.
  apply list_elem_of_In, in_map_iff in Hrow as (r & <- & Hr).
  apply list_elem_of_In in Hr. rewrite Forall_forall in Hw.
  specialize (Hw r Hr). apply Forall_forall. intros c Hc.
  apply list_elem_of_In, in_map_iff in Hc as (c0 & <- & Hc0).
  apply list_elem_of_In in Hc0. rewrite Forall_forall in Hw.
  specialize (Hw c0 Hc0). destruct c0 as [| v]; by eauto.
Qed.

Lemma filled_heatmap_stays_in_range_witness :
  cells_defined_within 0 1
    (fill_undefined [[Fin (1 # 2); NaN]; [NaN; Fin 1]; [Fin (1 # 4); NaN]]).
Proof.
  apply filled_heatmap_stays_in_range.
  - split; discriminate.
  - repeat constructor; discriminate.
Defined.

(** X9. The fill step keeps the shape of the map, and filling a filled
    map changes nothing. *)
Theorem fill_keeps_shape_and_is_idempotent
    (interpolated : list (list cell)) :
  map length (fill_undefined interpolated) = map length interpolated /\
  fill_undefined (fill_undefined interpolated) =
    fill_undefined interpolated.
Proof.
  split.
  - unfold fill_undefined. destruct (any_nan interpolated); [| done].
    unfold nan_to_num. rewrite map_map. apply map_ext. intros row.
    apply length_map.
  - pose proof (fill_undefined_no_nan interpolated) as H.
    unfold fill_undefined at 1. by rewrite H.
Qed.

Lemma transpose_shape {A} (a : list (list A)) (h w : nat) :
  has_shape a h w -> (0 < h)%nat -> has_shape (transpose a) w h.
Proof.
  revert h. induction a as [| r rs IH]; intros h [Hl Hc] Hh;
    [cbn in Hl; lia |].
  inversion Hc as [| ? ? Hr Hrs]; subst. cbn [transpose].
  destruct rs as [| r' rs'].
  - split; [by rewrite length_map |].
    apply Forall_forall. intros x Hx.
    apply list_elem_of_In, in_map_iff in Hx as (y & <- & _). done.
  - destruct (IH (length (r' :: rs'))) as [Hl' Hc'];
      [by split | cbn; lia |].
    split.
    + rewrite length_zip_with. lia.
    + apply Forall_forall. intros x Hx.
      apply list_elem_of_lookup in Hx as [i Hx].
      rewrite lookup_zip_with in Hx.
      destruct (r !! i) as [y |]; [| done].
      destruct (transpose (r' :: rs') !! i) as [t |] eqn:Et; [| done].
      cbn in Hx. injection Hx as <-. cbn.
      rewrite Forall_forall in Hc'.
      rewrite (Hc' t); [done |]. by eapply list_elem_of_lookup_2.
Qed.

Lemma cell_at_transpose (a : list (list cell)) (h w : nat) (x y : nat) :
  has_shape a h w -> cell_at (transpose a) x y = cell_at a y x.
Proof.
  revert h y. induction a as [| r rs IH]; intros h y [Hl Hc].
  - unfold cell_at. cbn. by rewrite !lookup_nil.
  - inversion Hc as [| ? ? Hr Hrs]; subst. cbn [transpose].
    destruct rs as [| r' rs'].
    + unfold cell_at. rewrite list_lookup_map.
      destruct y as [| y]; cbn.
      * by destruct (r !! x).
      * by destruct (r !! x), y.
    + assert (Hs : has_shape (r' :: rs') (length (r' :: rs')) (length r))
        by by split.
      pose proof (transpose_shape _ _ _ Hs ltac:(cbn; lia)) as [Hl' _].
      specialize (IH _ (pred y) Hs).
      remember (transpose (r' :: rs')) as T eqn:HT.
      unfold cell_at in *. rewrite lookup_zip_with.
      destruct (r !! x) as [c |] eqn:Ex; cbn.
      * assert (Hx : (x < length r)%nat) by by eapply lookup_lt_Some.
        destruct (T !! x) as [t |] eqn:Et.
        -- cbn. destruct y as [| y]; cbn; [by rewrite Ex |].
           done.
        -- apply lookup_ge_None in Et. lia.
      * destruct y as [| y]; cbn; [by rewrite Ex |].
        destruct ((r' :: rs') !! y) as [row |] eqn:Ey; [| done]. cbn.
        symmetry. apply lookup_ge_None.
        rewrite Forall_forall in Hrs. rewrite (Hrs row).
        -- by apply lookup_ge_None.
        -- by eapply list_elem_of_lookup_2.
Qed.

(** X10. Transposing the interpolated grid, as line 818 does before the
    fill, swaps the two axes of a rectangular grid: the result has one
    row per column, and its cell (x, y) is the cell (y, x) of the
    grid. *)
Theorem transposed_grid_swaps_axes (grid : list (list cell)) (h w : nat) :
  has_shape grid h w -> (0 < h)%nat ->
  has_shape (transpose grid) w h /\
  forall x y, cell_at (transpose grid) x y = cell_at grid y x.
Proof.
  intros Hs Hh. split; [by apply transpose_shape |].
  intros x y. by eapply cell_at_transpose.
Qed.

Lemma transposed_grid_swaps_axes_witness :
  has_shape (transpose [[Fin 1; NaN; Fin 3]; [Fin 4; Fin 5; NaN]]) 3 2 /\
  forall x y,
    cell_at (transpose [[Fin 1; NaN; Fin 3]; [Fin 4; Fin 5; NaN]]) x y =
    cell_at [[Fin 1; NaN; Fin 3]; [Fin 4; Fin 5; NaN]] y x.
Proof.
  apply transposed_grid_swaps_axes; [| lia].
  split; [reflexivity | repeat constructor].
Defined.

(** ** Which exceptions leave a computation *)

Lemma raises_only_ret {A} (R : exception -> Prop) (a : A) :
  raises_only R (ret a).
Proof. by intros s. Qed.

Lemma raises_only_raise {A} (R : exception -> Prop) (e : exception) :
  R e -> raises_only R (@raise A e).
Proof. by intros H s. Qed.

Lemma raises_only_weaken {A} (R R' : exception -> Prop) (m : M A) :
  raises_only R m -> (forall e, R e -> R' e) -> raises_only R' m.
Proof.
  intros H HR s. specialize (H s).
  destruct (fst (m s)); [done | by apply HR | done].
Qed.

Lemma raises_only_bind {A B} (R : exception -> Prop) (m : M A)
    (k : A -> M B) :
  raises_only R m -> (forall a, raises_only R (k a)) ->
  raises_only R (bind m k).
Proof.
  intros Hm Hk s. unfold bind. specialize (Hm s).
  destruct (m s) as [[a | e |] s1]; cbn in *; [apply Hk | done | done].
Qed.

Lemma raises_only_try_except {A} (R R' : exception -> Prop) (m : M A)
    (catches : exception -> bool) (h : exception -> M A) :
  raises_only R m ->
  (forall e, R e -> catches e = false -> R' e) ->
  (forall e, raises_only R' (h e)) ->
  raises_only R' (try_except m catches h).
Proof.
  intros Hm HR Hh s. unfold try_except. specialize (Hm s).
  destruct (m s) as [[a | e |] s1]; cbn in *; [done | | done].
  destruct (catches e) eqn:E; [apply Hh | by apply HR].
Qed.

Lemma raises_only_alloc (R : exception -> Prop) (v : ndarray) :
  raises_only R (alloc v).
Proof. by intros s. Qed.

Lemma raises_only_read (R : exception -> Prop) (l : loc) :
  raises_only R (read l).
Proof. by intros s. Qed.

Lemma raises_only_write (R : exception -> Prop) (l : loc) (v : ndarray) :
  raises_only R (write l v).
Proof. by intros s. Qed.

Lemma raises_only_log (R : exception -> Prop) (ev : event) :
  raises_only R (log ev).
Proof. by intros s. Qed.

Lemma raises_only_lift {A} (R : exception -> Prop) (r : exception + A) :
  match r with inl e => R e | inr _ => True end ->
  raises_only R (lift r).
Proof. intros H s. by destruct r. Qed.

Lemma raises_only_call {A} (R : exception -> Prop) (name : string)
    (r : exception + A) :
  match r with inl e => R e | inr _ => True end ->
  raises_only R (call name r).
Proof.
  intros H. apply raises_only_bind; [apply raises_only_log |].
  intros _. by apply raises_only_lift.
Qed.

Lemma raises_only_any_call {A} (name : string) (r : exception + A) :
  raises_only (fun _ => True) (call name r).
Proof. apply raises_only_call. by destruct r. Qed.

(** A body that runs under [except cv2.error] lets no [cv2.error] out,
    whatever it raises, when the handler raises none. *)
Lemma raises_only_except_cv2 {A} (m : M A) (h : exception -> M A) :
  raises_only (fun _ => True) m ->
  (forall e, raises_only not_cv2_error (h e)) ->
  raises_only not_cv2_error (try_except m is_cv2_error h).
Proof.
  intros Hm Hh. eapply raises_only_try_except; [exact Hm | | exact Hh].
  by intros e _ He.
Qed.

Ltac raises_any :=
  lazymatch goal with
  | |- raises_only _ (bind _ _) =>
      apply raises_only_bind; [raises_any | intros ?; raises_any]
  | |- raises_only _ (if ?b then _ else _) => destruct b; raises_any
  | |- raises_only _ (ret _) => apply raises_only_ret
  | |- raises_only _ (read _) => apply raises_only_read
  | |- raises_only _ (write _ _) => apply raises_only_write
  | |- raises_only _ (alloc _) => apply raises_only_alloc
  | |- raises_only _ (log _) => apply raises_only_log
  | |- raises_only _ (call _ _) => apply raises_only_any_call
  | |- raises_only _ (lift ?r) => apply raises_only_lift; by destruct r
  end.

(** ** One step of a run *)

Lemma bind_run {A B} (m : M A) (k : A -> M B) (s : state) :
  bind m k s =
  match m s with
  | (Ok a, s') => k a s'
  | (Raise e, s') => (Raise e, s')
  | (Exit, s') => (Exit, s')
  end.
Proof. reflexivity. Qed.

Lemma bind_call {A B} (name : string) (r : exception + A) (k : A -> M B)
    (s : state) :
  bind (call name r) k s =
  match r with
  | inl e => (Raise e, {| store := store s; next := next s;
                          trace := trace s ++ [EvCall name] |})
  | inr a => k a {| store := store s; next := next s;
                    trace := trace s ++ [EvCall name] |}
  end.
Proof. by destruct r. Qed.

(** ** The stages of [_create_single_pseudo_depth_map] *)

Section PseudoDepthStages.
Context (L : library) (p : depth_params).

Lemma initial_blur_raises (face_roi : loc) :
  raises_only not_cv2_error (initial_blur L p face_roi).
Proof.
  unfold initial_blur, GaussianBlur. apply raises_only_except_cv2.
  - raises_any.
  - intros e. apply raises_only_read.
Qed.

Lemma draw_elliptical_mask_raises (mask : loc) (h w : Z) :
  raises_only not_cv2_error (draw_elliptical_mask L mask h w p).
Proof.
  unfold draw_elliptical_mask. apply raises_only_except_cv2.
  - raises_any.
  - intros e. raises_any.
Qed.

Lemma colorize_raises (d m : ndarray) :
  raises_only not_cv2_error (colorize L p d m).
Proof.
  unfold colorize. destruct (apply_colormap p); [| apply raises_only_ret].
  apply raises_only_except_cv2; [raises_any |].
  intros e. apply raises_only_ret.
Qed.

Lemma adjust_brightness_raises (a m : ndarray) (is_color : bool) :
  raises_only not_cv2_error (adjust_brightness L p a m is_color).
Proof.
  unfold adjust_brightness. destruct (_ && _); [| apply raises_only_ret].
  apply raises_only_except_cv2; [raises_any |].
  intros e. apply raises_only_ret.
Qed.

Lemma final_blur_raises (a m : ndarray) (is_color : bool) :
  raises_only not_cv2_error (final_blur L p a m is_color).
Proof.
  unfold final_blur, GaussianBlur.
  destruct is_color; [| apply raises_only_ret].
  apply raises_only_except_cv2; [raises_any |].
  intros e. apply raises_only_ret.
Qed.

Lemma draw_elliptical_mask_trace (mask : loc) (h w : Z) (s : state) :
  trace (snd (draw_elliptical_mask L mask h w p s)) =
  trace s ++ [EvCall "cv2.ellipse"].
Proof.
  unfold draw_elliptical_mask, try_except, bind, call, read, write, log,
    lift, bind.
  cbn. destruct (cv_ellipse _ _ _ _ _) as [e | a]; cbn; [| done].
  by destruct (is_cv2_error e).
Qed.

Lemma resize_and_later_raise (target : Z * Z) (data : ndarray)
    (mask : loc) :
  raises_only not_cv2_error
    (resized <-
       try_except
         (display_data <-
            call "cv2.resize" (cv_resize L data target INTER_LINEAR) ;;
          m <- read mask ;;
          display_mask_resized <-
            call "cv2.resize" (cv_resize L m target INTER_NEAREST) ;;
          ret (Some (display_data, display_mask_resized)))
         is_cv2_error
         (fun _ => ret None) ;;
     match resized with
     | None => ret None
     | Some (display_data, display_mask_resized) =>
         colored <- colorize L p display_data display_mask_resized ;;
         let '(final_image_before_brightness, is_color) := colored in
         final_image_after_brightness <-
           adjust_brightness L p final_image_before_brightness
             display_mask_resized is_color ;;
         final_display_image <-
           final_blur L p final_image_after_brightness display_mask_resized
             is_color ;;
         ret (Some final_display_image)
     end).
Proof.
  apply raises_only_bind.
  { apply raises_only_except_cv2; [raises_any |].
    intros e. apply raises_only_ret. }
  intros [[display_data display_mask_resized] |]; [| apply raises_only_ret].
  apply raises_only_bind; [apply colorize_raises |].
  intros [before is_color].
  apply raises_only_bind; [apply adjust_brightness_raises |].
  intros after.
  apply raises_only_bind; [apply final_blur_raises |].
  intros out. apply raises_only_ret.
Qed.

Lemma after_initial_blur_ends (target : Z * Z) (blurred_roi : ndarray)
    (s : state) :
  match after_initial_blur L p target blurred_roi s with
  | (Ok _, _) => True
  | (Raise e, s') =>
      is_cv2_error e = true ->
      trace s' = trace s ++ [EvCall "cv2.normalize"] \/
      trace s' = trace s ++ [EvCall "cv2.normalize"; EvCall "cv2.ellipse";
                             EvCall "cv2.bitwise_and"]
  | (Exit, _) => False
  end.
Proof.
  unfold after_initial_blur. rewrite bind_call.
  destruct (cv_normalize L blurred_roi 0 255) as [e | normalized];
    [by left |].
  destruct (shape2 normalized) as [h w].
  set (s0 := {| store := _; next := _; trace := _ |}).
  rewrite bind_run. cbn [alloc]. cbn beta iota.
  set (s1 := {| store := _; next := _; trace := _ |}).
  change (next s0) with (next s).
  rewrite bind_run.
  pose proof (draw_elliptical_mask_trace (next s) h w s1) as Ht.
  pose proof (draw_elliptical_mask_raises (next s) h w s1) as Hr.
  destruct (draw_elliptical_mask L (next s) h w p s1) as [[[] | e |] s2];
    cbn [fst snd] in Ht, Hr; cbn beta iota; [| | done].
  2: { intros He. unfold not_cv2_error in Hr. congruence. }
  rewrite bind_run. cbn [read]. cbn beta iota. rewrite bind_call.
  destruct (bitwise_and_self_masked normalized (store s2 !!! next s))
    as [e | data].
  { intros _. right. cbn [trace]. rewrite Ht. subst s1 s0. cbn [trace].
    by rewrite <- !app_assoc. }
  match goal with
  | |- match ?m ?s3 with _ => _ end =>
      pose proof (resize_and_later_raise target data (next s) s3) as Hl;
      destruct (m s3) as [[out | e |] s4]
  end; cbn [fst] in Hl; [done | | done].
  intros He. unfold not_cv2_error in Hl. congruence.
Qed.
End PseudoDepthStages.

(** X11. [_create_single_pseudo_depth_map] never ends the process, and a
    [cv2.error] leaves it only from the two calls that stand outside
    every [try]: the run then stopped at the normalisation of line 47 or
    at the masking of line 63, before any resize.  A [cv2.error] of the
    blurs, the ellipse, the resize, the colormap or the brightness step
    is absorbed. *)
Theorem only_unguarded_calls_raise_cv2_error (L : library)
    (face_roi : option loc) (target_display_size : Z * Z)
    (p : depth_params) (s : state) :
  match
    _create_single_pseudo_depth_map L face_roi target_display_size p s
  with
  | (Ok _, _) => True
  | (Raise e, s') =>
      is_cv2_error e = true ->
      exists added,
        trace s' = trace s ++ added /\ unguarded_failure p added
  | (Exit, _) => False
  end.
Proof.
  unfold _create_single_pseudo_depth_map.
  destruct face_roi as [face_roi |]; [| done].
  rewrite bind_run. cbn [read]. cbn beta iota.
  destruct (size (store s !!! face_roi) =? 0); [done |].
  rewrite bind_run.
  pose proof (initial_blur_trace L p face_roi s) as Ht.
  pose proof (initial_blur_raises L p face_roi s) as Hr.
  destruct (initial_blur L p face_roi s) as [[blurred | e |] s1];
    cbn [fst snd] in Ht, Hr; cbn beta iota; [| | done].
  2: { intros He. unfold not_cv2_error in Hr. congruence. }
  pose proof (after_initial_blur_ends L p target_display_size blurred s1)
    as Ha.
  destruct (after_initial_blur L p target_display_size blurred s1)
    as [[out | e |] s2]; [done | | done].
  intros He. destruct (Ha He) as [H | H]; rewrite H, Ht, <- app_assoc.
  - eexists. split; [done |]. by left.
  - eexists. split; [done |]. by right.
Qed.

(** ** Runs of [_create_single_pseudo_depth_map] that return *)

Lemma bind_Raise {A B} (m : M A) (k : A -> M B) (s s' : state)
    (e : exception) :
  bind m k s = (Raise e, s') ->
  m s = (Raise e, s') \/
  exists a s1, m s = (Ok a, s1) /\ k a s1 = (Raise e, s').
Proof.
  unfold bind. destruct (m s) as [[a | e' |] s1]; try done.
  - right. by eauto.
  - intros H. left. by inversion H.
Qed.

Lemma call_Raise {A} (name : string) (r : exception + A) (s s' : state)
    (e : exception) :
  call name r s = (Raise e, s') -> r = inl e.
Proof.
  unfold call, bind, log, lift. cbn. destruct r; cbn; [| done].
  intros H. by inversion H.
Qed.

Lemma try_except_caught {A} (m : M A) (catches : exception -> bool)
    (h : exception -> M A) (s s' : state) (a : A) :
  try_except m catches h s = (Ok a, s') ->
  m s = (Ok a, s') \/
  exists e s1,
    m s = (Raise e, s1) /\ catches e = true /\ h e s1 = (Ok a, s').
Proof.
  unfold try_except. destruct (m s) as [[a' | e |] s1]; try done.
  - by left.
  - destruct (catches e) eqn:E; [| done]. right. by eauto 6.
Qed.

Lemma ret_Ok {A} (a b : A) (s s' : state) :
  ret a s = (Ok b, s') -> a = b /\ s' = s.
Proof. intros H. by inversion H. Qed.

Lemma bitwise_and_idempotent (a m once : ndarray) :
  bitwise_and a m = inr once -> bitwise_and once m = inr once.
Proof.
  destruct a as [px | px | px], m as [q | q | q]; cbn; try done.
  - destruct (zip_image Z.land px q) as [r |] eqn:E; cbn; [| done].
    intros [= <-]. cbn.
    by rewrite (zip_image_idempotent _ _ _ _ land_absorb E).
  - destruct (zip_image and_bgr px q) as [r |] eqn:E; cbn; [| done].
    intros [= <-]. cbn.
    by rewrite (zip_image_idempotent _ _ _ _ and_bgr_idempotent E).
Qed.

Section PseudoDepthReturns.
Context (L : library) (p : depth_params).

(** A run of the lines that apply the three-channel mask. *)
Lemma masked_after_call (a mr out : ndarray) (s s' : state) :
  (display_mask_3ch <- call "cv2.cvtColor" (cvtColor_GRAY2BGR mr) ;;
   call "cv2.bitwise_and" (bitwise_and a display_mask_3ch)) s
  = (Ok out, s') ->
  masked_by out mr.
Proof.
  intros H. apply bind_Ok in H as (m3 & s1 & Hm & H).
  apply call_Ok in Hm as [Hm _]. apply call_Ok in H as [H _].
  exists m3. split; [done |]. by eapply bitwise_and_idempotent.
Qed.

Lemma colorize_Ok (d mr img : ndarray) (c : bool) (s s' : state) :
  colorize L p d mr s = (Ok (img, c), s') ->
  (c = true -> masked_by img mr) /\
  (c = false -> img = d) /\
  (apply_colormap p = false -> c = false /\ s' = s).
Proof.
  unfold colorize. destruct (apply_colormap p).
  - intros H. apply try_except_Ok in H as [H | (e & s1 & _ & H)].
    + apply bind_Ok in H as (colored & s1 & _ & H).
      apply bind_Ok in H as (m3 & s2 & Hm & H).
      apply bind_Ok in H as (masked & s3 & Hb & H).
      apply ret_Ok in H as [H _]. inversion H; subst.
      apply call_Ok in Hm as [Hm _]. apply call_Ok in Hb as [Hb _].
      repeat split; try done. intros _. exists m3.
      split; [done |]. by eapply bitwise_and_idempotent.
    + apply ret_Ok in H as [H _]. by inversion H; subst.
  - intros H. apply ret_Ok in H as [H ->]. by inversion H; subst.
Qed.

Lemma adjust_brightness_Ok (a mr img : ndarray) (c : bool)
    (s s' : state) :
  adjust_brightness L p a mr c s = (Ok img, s') ->
  (c = true -> masked_by a mr) ->
  (c = true -> masked_by img mr) /\ (c = false -> img = a /\ s' = s).
Proof.
  unfold adjust_brightness. destruct c; cbn [andb].
  - destruct (_ || _).
    + intros H Ha. split; [| done]. intros _.
      apply try_except_Ok in H as [H | (e & s1 & _ & H)].
      * apply bind_Ok in H as (scaled & s1 & _ & H).
        by eapply masked_after_call.
      * apply ret_Ok in H as [<- _]. by apply Ha.
    + intros H Ha. apply ret_Ok in H as [<- _]. by split.
  - intros H _. apply ret_Ok in H as [<- ->]. by split.
Qed.

Lemma final_blur_Ok (a mr img : ndarray) (c : bool) (s s' : state) :
  final_blur L p a mr c s = (Ok img, s') ->
  (c = true -> masked_by a mr) ->
  (c = true -> masked_by img mr) /\ (c = false -> img = a /\ s' = s).
Proof.
  unfold final_blur. destruct c.
  - intros H Ha. split; [| done]. intros _.
    apply try_except_Ok in H as [H | (e & s1 & _ & H)].
    + destruct (_ && _).
      * apply bind_Ok in H as (blurred & s1 & _ & H).
        by eapply masked_after_call.
      * apply ret_Ok in H as [<- _]. by apply Ha.
    + apply ret_Ok in H as [<- _]. by apply Ha.
  - intros H _. apply ret_Ok in H as [<- ->]. by split.
Qed.

(** What a returning run of steps 2 to 8 has done. *)
Lemma after_initial_blur_Ok (target : Z * Z) (blurred_roi : ndarray)
    (r : option ndarray) (s s' : state) :
  after_initial_blur L p target blurred_roi s = (Ok r, s') ->
  match r with
  | None =>
      exists a i e,
        cv_resize L a target i = inl e /\ is_cv2_error e = true
  | Some out =>
      exists normalized data display m mr,
        bitwise_and_self_masked normalized m = inr data /\
        cv_resize L data target INTER_LINEAR = inr display /\
        cv_resize L m target INTER_NEAREST = inr mr /\
        (out = display \/ masked_by out mr) /\
        (apply_colormap p = false ->
         out = display /\
         trace s' =
           trace s ++ [EvCall "cv2.normalize"; EvCall "cv2.ellipse";
                       EvCall "cv2.bitwise_and"; EvCall "cv2.resize";
                       EvCall "cv2.resize"])
  end.
Proof.
  unfold after_initial_blur. intros H.
  apply bind_Ok in H as (normalized & s1 & Hn & H).
  apply call_Ok in Hn as [Hn ->].
  destruct (shape2 normalized) as [h w].
  apply bind_Ok in H as (mask & s2 & Ha & H).
  apply bind_Ok in H as ([] & s3 & Hd & H).
  pose proof (draw_elliptical_mask_trace L p mask h w s2) as Ht.
  rewrite Hd in Ht. cbn [snd] in Ht.
  assert (Ht2 : trace s2 = trace s ++ [EvCall "cv2.normalize"])
    by (by inversion Ha).
  clear Ha Hd.
  apply bind_Ok in H as (m & s4 & Hr & H).
  assert (m = store s3 !!! mask) as -> by (by inversion Hr).
  assert (s4 = s3) as -> by (by inversion Hr). clear Hr.
  apply bind_Ok in H as (data & s5 & Hb & H).
  apply call_Ok in Hb as [Hb ->].
  apply bind_Ok in H as (resized & s6 & Hres & H).
  apply try_except_caught in Hres as [Hres | (e & s7 & Hres & He & Hh)].
  - apply bind_Ok in Hres as (display & s7 & Hr1 & Hres).
    apply call_Ok in Hr1 as [Hr1 ->].
    apply bind_Ok in Hres as (m' & s8 & Hr & Hres).
    assert (m' = store s3 !!! mask) as -> by (by inversion Hr).
    assert (s8 = {| store := store s3; next := next s3;
                    trace := (trace s3 ++ [EvCall "cv2.bitwise_and"]) ++
                             [EvCall "cv2.resize"] |}) as ->
      by (by inversion Hr).
    apply bind_Ok in Hres as (mr & s9 & Hr2 & Hres).
    apply call_Ok in Hr2 as [Hr2 ->].
    apply ret_Ok in Hres as [<- ->].
    apply bind_Ok in H as ([before c] & s10 & Hc & H).
    apply bind_Ok in H as (after & s11 & Hab & H).
    apply bind_Ok in H as (out & s12 & Hf & H).
    apply ret_Ok in H as [<- ->].
    apply colorize_Ok in Hc as (Hc1 & Hc2 & Hc3).
    apply adjust_brightness_Ok in Hab as [Hab1 Hab2]; [| done].
    apply final_blur_Ok in Hf as [Hf1 Hf2]; [| done].
    exists normalized, data, display, (store s3 !!! mask), mr.
    repeat split; try done.
    + destruct c; [right; by apply Hf1 | left].
      destruct (Hf2 eq_refl) as [-> _].
      destruct (Hab2 eq_refl) as [-> _]. by apply Hc2.
    + destruct (Hc3 H) as [-> _]. destruct (Hf2 eq_refl) as [-> _].
      destruct (Hab2 eq_refl) as [-> _]. by apply Hc2.
    + destruct (Hc3 H) as [-> ->]. destruct (Hf2 eq_refl) as [_ ->].
      destruct (Hab2 eq_refl) as [_ ->]. cbn [trace].
      rewrite Ht, Ht2. by rewrite <- !app_assoc.
  - apply ret_Ok in Hh as [<- ->]. apply ret_Ok in H as [<- _].
    apply bind_Raise in Hres as [Hres | (display & s8 & _ & Hres)].
    { apply call_Raise in Hres. by eauto 6. }
    apply bind_Raise in Hres as [Hres | (m' & s9 & _ & Hres)]; [done |].
    apply bind_Raise in Hres as [Hres | (mr & s10 & _ & Hres)]; [| done].
    apply call_Raise in Hres. by eauto 6.
Qed.

Lemma initial_blur_Ok (face_roi : loc) (blurred : ndarray)
    (s s' : state) :
  initial_blur L p face_roi s = (Ok blurred, s') ->
  trace s' = trace s ++ [first_blur p].
Proof.
  intros H. pose proof (initial_blur_trace L p face_roi s) as Ht.
  by rewrite H in Ht.
Qed.

Lemma create_single_pseudo_depth_map_Ok (face_roi : option loc)
    (target : Z * Z) (r : option ndarray) (s s' : state) :
  _create_single_pseudo_depth_map L face_roi target p s = (Ok r, s') ->
  match face_roi with
  | None => r = None /\ s' = s
  | Some roi =>
      if size (store s !!! roi) =? 0 then r = None /\ s' = s
      else
        exists blurred s1,
          trace s1 = trace s ++ [first_blur p] /\
          after_initial_blur L p target blurred s1 = (Ok r, s')
  end.
Proof.
  unfold _create_single_pseudo_depth_map.
  destruct face_roi as [roi |]; [| intros H; by apply ret_Ok in H as [<- ->]].
  rewrite bind_run. cbn [read]. cbn beta iota.
  destruct (size (store s !!! roi) =? 0);
    [intros H; by apply ret_Ok in H as [<- ->] |].
  intros H. apply bind_Ok in H as (blurred & s1 & Hb & H).
  exists blurred, s1. split; [by eapply initial_blur_Ok | done].
Qed.
End PseudoDepthReturns.

(** X12. Whatever stage fails on the way, a map that
    [_create_single_pseudo_depth_map] returns is either the resized
    grayscale data as [cv2.resize] gave it, or an image that has the
    resized mask applied: applying the three-channel mask to it again
    changes nothing. *)
Theorem returned_map_is_resized_data_or_masked (L : library)
    (face_roi : option loc) (target_display_size : Z * Z)
    (p : depth_params) (s s' : state) (out : ndarray) :
  _create_single_pseudo_depth_map L face_roi target_display_size p s =
    (Ok (Some out), s') ->
  exists normalized mask data mask_resized,
    bitwise_and_self_masked normalized mask = inr data /\
    cv_resize L mask target_display_size INTER_NEAREST = inr mask_resized /\
    (cv_resize L data target_display_size INTER_LINEAR = inr out \/
     masked_by out mask_resized).
Proof.
  intros H. apply create_single_pseudo_depth_map_Ok in H.
  destruct face_roi as [roi |]; [| by destruct H].
  destruct (size (store s !!! roi) =? 0); [by destruct H |].
  destruct H as (blurred & s1 & _ & H).
  apply after_initial_blur_Ok in H
    as (normalized & data & display & m & mr & Hdata & Hd & Hm &
        [-> | Hmasked] & _).
  - exists normalized, m, data, mr. split; [done |]. split; [done | by left].
  - exists normalized, m, data, mr. split; [done |].
    split; [done | by right].
Qed.

Lemma returned_map_is_resized_data_or_masked_witness :
  exists normalized mask data mask_resized,
    bitwise_and_self_masked normalized mask = inr data /\
    cv_resize failing_ellipse mask (2, 2) INTER_NEAREST =
      inr mask_resized /\
    (cv_resize failing_ellipse data (2, 2) INTER_LINEAR =
       inr (Color [[(245, 245, 245); (235, 235, 235)];
                   [(225, 225, 225); (215, 215, 215)]]) \/
     masked_by (Color [[(245, 245, 245); (235, 235, 235)];
                       [(225, 225, 225); (215, 215, 215)]]) mask_resized).
Proof.
  eapply (returned_map_is_resized_data_or_masked failing_ellipse
            (Some 0%nat) (2, 2) default_depth_params tiny_state).
  vm_compute. reflexivity.
Defined.

(** X13. In grayscale mode ([apply_colormap] false) a run that returns a
    map has made exactly six library calls, the first blur, the
    normalisation, the ellipse, the masking and the two resizes, and the
    map is the output of the first resize: no colormap, brightness step
    or final blur is applied. *)
Theorem grayscale_mode_stops_after_resize (L : library)
    (face_roi : option loc) (target_display_size : Z * Z)
    (p : depth_params) (s s' : state) (out : ndarray) :
  apply_colormap p = false ->
  _create_single_pseudo_depth_map L face_roi target_display_size p s =
    (Ok (Some out), s') ->
  trace s' = trace s ++ grayscale_calls p /\
  exists data,
    cv_resize L data target_display_size INTER_LINEAR = inr out.
Proof.
  intros Hg H. apply create_single_pseudo_depth_map_Ok in H.
  destruct face_roi as [roi |]; [| by destruct H].
  destruct (size (store s !!! roi) =? 0); [by destruct H |].
  destruct H as (blurred & s1 & Ht & H).
  apply after_initial_blur_Ok in H
    as (normalized & data & display & m & mr & _ & Hd & _ & _ & Hgray).
  destruct (Hgray Hg) as [-> Ht']. split; [| by exists data].
  rewrite Ht', Ht. unfold grayscale_calls. by rewrite <- app_assoc.
Qed.

Lemma grayscale_mode_stops_after_resize_witness :
  trace (snd (_create_single_pseudo_depth_map failing_ellipse
                (Some 0%nat) (2, 2) grayscale_params tiny_state)) =
    trace tiny_state ++ grayscale_calls grayscale_params /\
  exists data,
    cv_resize failing_ellipse data (2, 2) INTER_LINEAR = inr tiny_roi.
Proof.
  apply (grayscale_mode_stops_after_resize failing_ellipse (Some 0%nat)
           (2, 2) grayscale_params tiny_state); [reflexivity |].
  vm_compute. reflexivity.
Defined.

(** X14. [_create_single_pseudo_depth_map] returns [None] only for a
    missing or empty ROI, or when one of the two resizes raised
    [cv2.error]. *)
Theorem none_only_for_empty_roi_or_failed_resize (L : library)
    (face_roi : option loc) (target_display_size : Z * Z)
    (p : depth_params) (s s' : state) :
  _create_single_pseudo_depth_map L face_roi target_display_size p s =
    (Ok None, s') ->
  face_roi = None \/
  (exists roi, face_roi = Some roi /\ size (store s !!! roi) = 0) \/
  (exists a interp e,
     cv_resize L a target_display_size interp = inl e /\
     is_cv2_error e = true).
Proof.
  intros H. apply create_single_pseudo_depth_map_Ok in H.
  destruct face_roi as [roi |]; [| by left].
  right. destruct (Z.eqb_spec (size (store s !!! roi)) 0) as [E | _].
  - left. by exists roi.
  - right. destruct H as (blurred & s1 & _ & H).
    by apply after_initial_blur_Ok in H.
Qed.

Lemma none_only_for_empty_roi_or_failed_resize_witness :
  Some 0%nat = None \/
  (exists roi, Some 0%nat = Some roi /\ size (store tiny_state !!! roi) = 0)
  \/
  (exists a interp e,
     cv_resize failing_resize a (2, 2) interp = inl e /\
     is_cv2_error e = true).
Proof.
  eapply (none_only_for_empty_roi_or_failed_resize failing_resize
            (Some 0%nat) (2, 2) default_depth_params tiny_state).
  vm_compute. reflexivity.
Defined.

(** ** [generate_face_pseudo_depth_maps] *)

Section GeneratorLocal.
Context (L : library) (p : depth_params) (n : loc).

Lemma local_process_face (gray : list (list Z)) (image_with_boxes : loc)
    (display_size : Z * Z) (acc : list ndarray) (f : FaceRegion) :
  (n <= image_with_boxes)%nat ->
  local n (forced_odd_blur p)
    (process_face L gray image_with_boxes display_size p acc f)
    (fun _ => True).
Proof.
  intros Hb. unfold process_face.
  destruct (_ || _); [local_go |].
  destruct (size _ =? 0); [local_go |].
  eapply local_bind with (Q := fun _ => True); [local_go |]. intros d _.
  eapply local_bind with (Q := fun _ => True); [local_go |]. intros d' _.
  eapply local_bind with (Q := fun _ => True); [local_go |]. intros _ _.
  eapply local_bind; [apply local_alloc |]. intros roi Hroi.
  eapply local_bind with (Q := fun _ => True);
    [apply local_create_single_pseudo_depth_map |].
  intros [img |] _; local_go.
Qed.

Lemma local_process_faces (gray : list (list Z)) (image_with_boxes : loc)
    (display_size : Z * Z) (faces : list FaceRegion) (acc : list ndarray) :
  (n <= image_with_boxes)%nat ->
  local n (forced_odd_blur p)
    (process_faces L gray image_with_boxes display_size p acc faces)
    (fun _ => True).
Proof.
  intros Hb. revert acc. induction faces as [| f rest IH]; intros acc.
  - cbn. local_go.
  - cbn [process_faces].
    eapply local_bind with (Q := fun _ => True);
      [by apply local_process_face | intros acc' _; apply IH].
Qed.

Lemma local_generate_face_pseudo_depth_maps (F : files)
    (image_path haar_cascade_path : string) (display_size : Z * Z) :
  local n (forced_odd_blur p)
    (generate_face_pseudo_depth_maps F L image_path haar_cascade_path
       display_size p)
    (fun _ => True).
Proof.
  unfold generate_face_pseudo_depth_maps.
  destruct (negb _); [local_go |].
  eapply local_bind with (Q := fun _ => True); [local_go |]. intros _ _.
  destruct (negb _); [local_go |].
  eapply local_bind with (Q := fun _ => True); [local_go |].
  intros [image |] _; [| local_go].
  eapply local_bind; [apply local_alloc |]. intros boxes_image Hb.
  eapply local_bind with (Q := fun _ => True); [local_go |]. intros gray _.
  eapply local_bind with (Q := fun _ => True); [local_go |].
  intros [| f faces] _; [local_go |].
  destruct (_ =? _)%nat; [local_go |].
  eapply local_bind with (Q := fun _ => True);
    [by apply local_process_faces | intros; local_go].
Qed.
End GeneratorLocal.

(** X15. [generate_face_pseudo_depth_maps] leaves every array that
    exists when it is called as it is, since the boxes are drawn on a
    copy of the image and each face is worked on in new arrays; and every
    Gaussian blur it issues, for whichever face, has the configured
    kernel with both dimensions made odd. *)
Theorem generator_keeps_existing_arrays_and_odd_kernels (F : files)
    (L : library) (image_path haar_cascade_path : string)
    (display_size : Z * Z) (p : depth_params) (s : state) :
  let s' :=
    snd (generate_face_pseudo_depth_maps F L image_path haar_cascade_path
           display_size p s) in
  untouched (next s) s s' /\ appends (forced_odd_blur p) s s'.
Proof.
  cbn zeta.
  destruct (local_generate_face_pseudo_depth_maps L p (next s) F image_path
              haar_cascade_path display_size s) as (Hu & Ha & _);
    [lia | done].
Qed.

Lemma process_face_Ok (L : library) (gray : list (list Z))
    (image_with_boxes : loc) (display_size : Z * Z) (p : depth_params)
    (acc acc' : list ndarray) (f : FaceRegion) (s s' : state) :
  process_face L gray image_with_boxes display_size p acc f s =
    (Ok acc', s') ->
  exists new,
    acc' = acc ++ new /\
    (length new <= length (List.filter valid_box [f]))%nat.
Proof.
  unfold process_face, valid_box. cbn [List.filter].
  destruct (_ || _); cbn [negb].
  { intros H. apply ret_Ok in H as [<- _]. exists []. split; [| done].
    by rewrite app_nil_r. }
  destruct (size _ =? 0).
  { intros H. apply ret_Ok in H as [<- _]. exists [].
    split; [by rewrite app_nil_r | cbn; lia]. }
  intros H. apply bind_Ok in H as (d & s1 & _ & H).
  apply bind_Ok in H as (d' & s2 & _ & H).
  apply bind_Ok in H as ([] & s3 & _ & H).
  apply bind_Ok in H as (roi & s4 & _ & H).
  apply bind_Ok in H as ([img |] & s5 & _ & H);
    apply ret_Ok in H as [<- _].
  - by exists [img].
  - exists []. split; [by rewrite app_nil_r | cbn; lia].
Qed.

Lemma process_faces_Ok (L : library) (gray : list (list Z))
    (image_with_boxes : loc) (display_size : Z * Z) (p : depth_params)
    (faces : list FaceRegion) (acc acc' : list ndarray) (s s' : state) :
  process_faces L gray image_with_boxes display_size p acc faces s =
    (Ok acc', s') ->
  exists new,
    acc' = acc ++ new /\
    (length new <= length (List.filter valid_box faces))%nat.
Proof.
  revert acc s. induction faces as [| f rest IH]; intros acc s.
  - cbn. intros H. apply ret_Ok in H as [<- _]. exists [].
    split; [by rewrite app_nil_r | done].
  - cbn [process_faces]. intros H.
    apply bind_Ok in H as (acc1 & s1 & Hf & H).
    apply process_face_Ok in Hf as (new1 & -> & Hl1).
    apply IH in H as (new2 & -> & Hl2).
    exists (new1 ++ new2). split; [by rewrite app_assoc |].
    rewrite length_app. cbn [List.filter] in *.
    destruct (valid_box f); cbn [length] in *; lia.
Qed.

(** X16. When [generate_face_pseudo_depth_maps] returns without an
    image, the cascade or the image was missing or unreadable and both
    lists are empty.  When it returns with an image, that image is a new
    array, the boxes are the detector's output as it came, including any
    box the loop skipped, and there are at most as many maps as boxes
    with positive width and height. *)
Theorem maps_never_outnumber_valid_boxes (F : files) (L : library)
    (image_path haar_cascade_path : string) (display_size : Z * Z)
    (p : depth_params) (s s' : state) (maps : list ndarray)
    (image_with_boxes : option loc) (face_boxes : list FaceRegion) :
  generate_face_pseudo_depth_maps F L image_path haar_cascade_path
    display_size p s = (Ok (maps, image_with_boxes, face_boxes), s') ->
  match image_with_boxes with
  | None =>
      maps = [] /\ face_boxes = [] /\
      unloaded F image_path haar_cascade_path
  | Some l =>
      (next s <= l < next s')%nat /\
      (exists image gray,
         cv_imread F image_path = inr (Some image) /\
         cv_cvtColor_BGR2GRAY L image = inr gray /\
         cv_detectMultiScale L gray = inr face_boxes) /\
      face_boxes <> [] /\
      (length maps <= length (List.filter valid_box face_boxes))%nat
  end.
Proof.
  unfold generate_face_pseudo_depth_maps, unloaded.
  destruct (path_exists F haar_cascade_path); cbn [negb].
  2: { intros H. apply ret_Ok in H as [H _]. inversion H; subst. auto. }
  intros H. apply bind_Ok in H as ([] & s1 & Hlog & H).
  destruct (path_exists F image_path); cbn [negb].
  2: { apply ret_Ok in H as [H _]. inversion H; subst. auto. }
  apply bind_Ok in H as (image & s2 & Hread & H).
  apply call_Ok in Hread as [Hread ->].
  destruct image as [image |].
  2: { apply ret_Ok in H as [H _]. inversion H; subst. auto. }
  apply bind_Ok in H as (l & s3 & Halloc & H).
  apply bind_Ok in H as (gray & s4 & Hgray & H).
  apply call_Ok in Hgray as [Hgray ->].
  apply bind_Ok in H as (faces & s5 & Hdet & H).
  apply call_Ok in Hdet as [Hdet ->].
  destruct faces as [| f faces]; [done |].
  assert (Hl : l = next s1 /\ next s3 = S (next s1))
    by (by inversion Halloc).
  assert (Hs1 : next s1 = next s) by (by inversion Hlog).
  destruct Hl as [-> Hn3]. cbn [length Nat.eqb] in H.
  apply bind_Ok in H as (processed & s6 & Hp & H).
  apply ret_Ok in H as [H ->]. inversion H; subst.
  split.
  - match type of Hp with
    | process_faces _ _ _ _ _ _ _ ?s0 = _ =>
        destruct (local_process_faces L p 0%nat gray (next s1)
                    display_size (f :: faces) [] ltac:(lia) s0
                    ltac:(lia)) as ((Hnext & _) & _ & _)
    end.
    rewrite Hp in Hnext. cbn [snd next] in Hnext. lia.
  - split; [by exists image, gray |]. split; [done |].
    apply process_faces_Ok in Hp as (new & -> & Hlen). done.
Qed.

Lemma maps_never_outnumber_valid_boxes_witness :
  (le (next empty_state) 0 /\
   lt 0 (next (snd (generate_face_pseudo_depth_maps bench_files
                      (bench_library [mkFace 0 0 2 2; mkFace 0 0 0 2] []
                         high_score)
                      "face.png" "cascade.xml" (2, 2) default_depth_params
                      empty_state)))) /\
  (exists image gray,
     cv_imread bench_files "face.png" = inr (Some image) /\
     cv_cvtColor_BGR2GRAY
       (bench_library [mkFace 0 0 2 2; mkFace 0 0 0 2] [] high_score)
       image = inr gray /\
     cv_detectMultiScale
       (bench_library [mkFace 0 0 2 2; mkFace 0 0 0 2] [] high_score)
       gray = inr [mkFace 0 0 2 2; mkFace 0 0 0 2]) /\
  [mkFace 0 0 2 2; mkFace 0 0 0 2] <> [] /\
  le (length [Color [[(0, 0, 0); (0, 0, 0)]; [(0, 0, 0); (0, 0, 0)]]])
     (length (List.filter valid_box [mkFace 0 0 2 2; mkFace 0 0 0 2])).
Proof.
  apply (maps_never_outnumber_valid_boxes bench_files
           (bench_library [mkFace 0 0 2 2; mkFace 0 0 0 2] [] high_score)
           "face.png" "cascade.xml" (2, 2) default_depth_params
           empty_state _
           [Color [[(0, 0, 0); (0, 0, 0)]; [(0, 0, 0); (0, 0, 0)]]]
           (Some 0%nat) [mkFace 0 0 2 2; mkFace 0 0 0 2]).
  vm_compute. reflexivity.
Defined.

(** X17. When the image loads and the detector finds no face, OpenCV
    hands back an empty tuple, [faces.tolist()] at line 214 raises
    [AttributeError], and the function raises it instead of returning
    empty results. *)
Theorem no_detection_raises_attribute_error (F : files) (L : library)
    (image_path haar_cascade_path : string) (display_size : Z * Z)
    (p : depth_params) (s : state) (image : ndarray)
    (gray : list (list Z)) :
  path_exists F haar_cascade_path = true ->
  path_exists F image_path = true ->
  cv_imread F image_path = inr (Some image) ->
  cv_cvtColor_BGR2GRAY L image = inr gray ->
  cv_detectMultiScale L gray = inr [] ->
  fst (generate_face_pseudo_depth_maps F L image_path haar_cascade_path
         display_size p s) = Raise AttributeError.
Proof.
  intros Hc Hi Hread Hgray Hdet. unfold generate_face_pseudo_depth_maps.
  rewrite Hc, Hi. cbn [negb]. rewrite bind_run. cbn [log]. cbn beta iota.
  rewrite Hread, bind_call_inr, bind_run. cbn [alloc]. cbn beta iota.
  rewrite Hgray, bind_call_inr, Hdet, bind_call_inr. done.
Qed.

Lemma no_detection_raises_attribute_error_witness :
  fst (generate_face_pseudo_depth_maps bench_files
         (bench_library [] [] high_score) "face.png" "cascade.xml"
         (2, 2) default_depth_params empty_state) = Raise AttributeError.
Proof.
  by eapply (no_detection_raises_attribute_error bench_files
               (bench_library [] [] high_score) "face.png" "cascade.xml"
               (2, 2) default_depth_params empty_state).
Defined.

(** ** [apply_elliptical_vignette] *)

Lemma py_int_inject_Z (z : Z) (x : Q) : (x == inject_Z z)%Q -> py_int x = z.
Proof.
  intros H. unfold py_int.
  destruct (Qle_bool 0 x).
  - rewrite (Qfloor_comp _ _ H). apply Qfloor_Z.
  - rewrite (Qceiling_comp _ _ H). apply Qceiling_Z.
Qed.

Lemma clip_0_255_spec (x : Q) :
  (0 <= x <= 255)%Q -> (clip_0_255 x == x)%Q.
Proof.
  intros [H0 H1]. unfold clip_0_255.
  destruct (Qle_bool x 0) eqn:E0.
  - apply Qle_bool_iff in E0. by apply Qle_antisym.
  - destruct (Qle_bool 255 x) eqn:E1; [| done].
    apply Qle_bool_iff in E1. by apply Qle_antisym.
Qed.

Lemma vignette_u8_one (v : Z) :
  0 <= v <= 255 -> vignette_u8 v (Fin 1) = v.
Proof.
  intros Hv. unfold vignette_u8. apply py_int_inject_Z.
  rewrite clip_0_255_spec.
  - ring.
  - rewrite Qmult_1_r. split.
    + change 0%Q with (inject_Z 0). rewrite <- Zle_Qle. lia.
    + change 255%Q with (inject_Z 255). rewrite <- Zle_Qle. lia.
Qed.

Lemma vignette_u8_darkens (v : Z) (m : Q) :
  0 <= v <= 255 -> (0 <= m <= 1)%Q ->
  0 <= vignette_u8 v (Fin m) <= v.
Proof.
  intros Hv [Hm0 Hm1]. unfold vignette_u8.
  assert (Hv0 : (0 <= inject_Z v)%Q)
    by (change 0%Q with (inject_Z 0); rewrite <- Zle_Qle; lia).
  assert (Hv1 : (inject_Z v <= 255)%Q)
    by (change 255%Q with (inject_Z 255); rewrite <- Zle_Qle; lia).
  assert (Hx0 : (0 <= inject_Z v * m)%Q) by (by apply Qmult_le_0_compat).
  assert (Hx1 : (inject_Z v * m <= inject_Z v)%Q).
  { rewrite <- (Qmult_1_r (inject_Z v)) at 2.
    rewrite !(Qmult_comm (inject_Z v)). by apply Qmult_le_compat_r. }
  assert (Hc : (clip_0_255 (inject_Z v * m) == inject_Z v * m)%Q).
  { apply clip_0_255_spec. split; [done |]. by eapply Qle_trans. }
  unfold py_int.
  assert (Hc0 : Qle_bool 0 (clip_0_255 (inject_Z v * m)) = true).
  { apply Qle_bool_iff. by rewrite Hc. }
  rewrite Hc0, (Qfloor_comp _ _ Hc). split.
  - change 0 with (Qfloor 0). by apply Qfloor_resp_le.
  - transitivity (Qfloor (inject_Z v));
      [by apply Qfloor_resp_le | by rewrite Qfloor_Z].
Qed.

Lemma zip_row_Forall2 {A B C} (f : A -> B -> C) (R : C -> A -> Prop)
    (P : A -> Prop) (Pm : B -> Prop) (l : list A) (m : list B)
    (r : list C) :
  (forall a b, P a -> Pm b -> R (f a b) a) ->
  Forall P l -> Forall Pm m -> zip_row f l m = Some r -> Forall2 R r l.
Proof.
  intros Hf. revert m r.
  induction l as [| a l IH]; intros [| b m] r Hl Hm; cbn; try done.
  - intros [= <-]. constructor.
  - destruct (zip_row f l m) as [r' |] eqn:E; [| done].
    intros [= <-]. inversion Hl; inversion Hm; subst.
    constructor; [by apply Hf | by eapply IH].
Qed.

Lemma zip_image_Forall2 {A B C} (f : A -> B -> C) (R : C -> A -> Prop)
    (P : A -> Prop) (Pm : B -> Prop) (a : list (list A))
    (m : list (list B)) (r : list (list C)) :
  (forall x b, P x -> Pm b -> R (f x b) x) ->
  Forall (Forall P) a -> Forall (Forall Pm) m ->
  zip_image f a m = Some r -> Forall2 (Forall2 R) r a.
Proof.
  intros Hf. revert m r.
  induction a as [| x a IH]; intros [| y m] r Ha Hm; cbn; try done.
  - intros [= <-]. constructor.
  - destruct (zip_row f x y) as [x' |] eqn:Ex; [| done].
    destruct (zip_image f a m) as [r' |] eqn:E; [| done].
    intros [= <-]. inversion Ha; inversion Hm; subst.
    constructor; [by eapply zip_row_Forall2 | by eapply IH].
Qed.

Lemma multiply_by_unit_mask (px : list (list Z)) (mask out : ndarray) :
  uint8_rows px -> unit_mask mask ->
  multiply_by_mask (Gray px) mask = inr out ->
  exists r, out = Gray r /\ darkened r px.
Proof.
  intros Hpx Hm. destruct mask as [m | m | m]; try done.
  unfold multiply_by_mask. cbn [mask_cells].
  destruct (zip_image vignette_u8 px m) as [r |] eqn:E; cbn; [| done].
  intros [= <-]. exists r. split; [done |].
  eapply (zip_image_Forall2 vignette_u8 _ (fun v => 0 <= v <= 255)
            (fun c => exists v, c = Fin v /\ (0 <= v <= 1)%Q));
    [| exact Hpx | exact Hm | exact E].
  intros v c Hv (q & -> & Hq). by apply vignette_u8_darkens.
Qed.

Lemma zeros_float_unit (h w : Z) : unit_mask (Float (zeros_float h w)).
Proof.
  cbn. unfold cells_defined_within, zeros_float.
  apply Forall_forall. intros row Hrow.
  apply list_elem_of_In, repeat_spec in Hrow as ->.
  apply Forall_forall. intros c Hc.
  apply list_elem_of_In, repeat_spec in Hc as ->.
  exists 0%Q. split; [done |]. split; discriminate.
Qed.

Lemma fill_one_unit (m : ndarray) :
  unit_mask m -> unit_mask (fill 1 m).
Proof.
  destruct m as [px | px | px]; try done. cbn.
  unfold cells_defined_within. intros _.
  apply Forall_forall. intros row Hrow.
  apply list_elem_of_In, in_map_iff in Hrow as (r & <- & _).
  apply Forall_forall. intros c Hc.
  apply list_elem_of_In, in_map_iff in Hc as (c0 & <- & _).
  exists 1%Q. split; [done |]. split; discriminate.
Qed.

(** The mask after lines 40-44. *)
Lemma ellipse_or_full_mask_Ok (L : library) (mask : loc)
    (centre axes : Z * Z) (s s' : state) :
  try_except
    (m <- read mask ;;
     m' <- call "cv2.ellipse" (cv_ellipse L m centre axes 1) ;;
     write mask m')
    is_cv2_error
    (fun _ => m <- read mask ;; write mask (fill 1 m)) s = (Ok tt, s') ->
  (cv_ellipse L (store s !!! mask) centre axes 1 =
     inr (store s' !!! mask) \/
   (exists e, cv_ellipse L (store s !!! mask) centre axes 1 = inl e /\
              is_cv2_error e = true) /\
   store s' !!! mask = fill 1 (store s !!! mask)) /\
  trace s' = trace s ++ [EvCall "cv2.ellipse"].
Proof.
  unfold try_except, bind, call, read, write, log, lift, bind. cbn.
  destruct (cv_ellipse L (store s !!! mask) centre axes 1) as [e | m'];
    cbn.
  - destruct (is_cv2_error e) eqn:E; [| done].
    intros [= <-]. cbn. rewrite lookup_total_insert_eq.
    split; [| done]. right. split; [by exists e | done].
  - intros [= <-]. cbn. rewrite lookup_total_insert_eq. by split; [left |].
Qed.

Lemma apply_elliptical_vignette_Ok (L : library) (float_mul : Q -> Q -> Q)
    (image : ndarray) (scale_x scale_y feather_sigma : Q) (s s' : state)
    (r : option ndarray) :
  apply_elliptical_vignette L float_mul (Some image) scale_x scale_y
    feather_sigma s = (Ok r, s') ->
  exists mask_value out,
    r = Some out /\
    multiply_by_mask image mask_value = inr out /\
    (keeps_unit_masks L -> unit_mask mask_value).
Proof.
  unfold apply_elliptical_vignette.
  destruct (shape2 image) as [h w] eqn:Hshape. cbn zeta.
  intros H. apply bind_Ok in H as (mask & s1 & Ha & H).
  assert (Hm1 : store s1 !!! mask = Float (zeros_float h w)).
  { inversion Ha; subst. cbn. by rewrite lookup_total_insert_eq. }
  clear Ha.
  apply bind_Ok in H as ([] & s2 & He & H).
  apply ellipse_or_full_mask_Ok in He as [He _].
  rewrite Hm1 in He.
  apply bind_Ok in H as (m & s3 & Hr & H).
  assert (m = store s2 !!! mask) as -> by (by inversion Hr).
  assert (s3 = s2) as -> by (by inversion Hr). clear Hr.
  apply bind_Ok in H as (mask_value & s4 & Hb & H).
  apply bind_Ok in H as (mask_for_image & s5 & Hcv & H).
  apply bind_Ok in H as (out & s6 & Hmul & H).
  apply lift_Ok in Hmul as [Hmul ->].
  apply ret_Ok in H as [<- ->].
  exists mask_for_image, out. split; [done |]. split; [done |].
  intros [Hke Hkb].
  assert (Hunit : unit_mask (store s2 !!! mask)).
  { destruct He as [He | [_ ->]].
    - eapply Hke; [| exact He]. apply zeros_float_unit.
    - apply fill_one_unit, zeros_float_unit. }
  assert (Hvalue : unit_mask mask_value).
  { destruct (Qle_bool feather_sigma 0); cbn [negb] in Hb.
    - by apply ret_Ok in Hb as [<- ->].
    - unfold GaussianBlur in Hb.
      apply bind_Ok in Hb as ([] & s7 & Hlog & Hb).
      apply lift_Ok in Hb as [Hb ->].
      eapply Hkb; [| exact Hb]. done. }
  destruct (is_color_image image).
  - apply call_Ok in Hcv as [Hcv _]. unfold mask_to_bgr in Hcv.
    destruct mask_value as [px | px | px]; try done.
    destruct (size (Float px) =? 0); [done |]. by injection Hcv as <-.
  - by apply ret_Ok in Hcv as [<- _].
Qed.

(** X18. When the ellipse and the blur of the library keep a mask within
    [0, 1], the vignette only darkens a grayscale [uint8] image: every
    element of the result lies between 0 and the element it came from,
    and the result has the shape of the image. *)
Theorem vignette_only_darkens (L : library) (float_mul : Q -> Q -> Q)
    (px : list (list Z)) (scale_x scale_y feather_sigma : Q)
    (s s' : state) (r : option ndarray) :
  keeps_unit_masks L -> uint8_rows px ->
  apply_elliptical_vignette L float_mul (Some (Gray px)) scale_x scale_y
    feather_sigma s = (Ok r, s') ->
  exists out, r = Some (Gray out) /\ darkened out px.
Proof.
  intros Hk Hpx H.
  apply apply_elliptical_vignette_Ok in H
    as (mask_value & out & -> & Hmul & Hunit).
  apply multiply_by_unit_mask in Hmul as (o & -> & Hd); [| done | by auto].
  by exists o.
Qed.

Lemma soft_vignette_library_keeps_unit_masks :
  keeps_unit_masks soft_vignette_library.
Proof.
  split; [done |]. intros m ksize sigma m' Hm [= <-].
  destruct m as [px | px | px]; try done. cbn in *.
  unfold cells_defined_within in *.
  apply Forall_forall. intros row Hrow.
  apply list_elem_of_In, in_map_iff in Hrow as (r0 & <- & Hr0).
  apply list_elem_of_In in Hr0. rewrite Forall_forall in Hm.
  specialize (Hm r0 Hr0). apply Forall_forall. intros c Hc.
  apply list_elem_of_In, in_map_iff in Hc as (c0 & <- & Hc0).
  apply list_elem_of_In in Hc0. rewrite Forall_forall in Hm.
  destruct (Hm c0 Hc0) as (v & -> & Hv0 & Hv1).
  exists (v / 2)%Q. split; [done |]. split.
  - apply Qle_shift_div_l; [done |]. lra.
  - apply Qle_shift_div_r; [done |]. lra.
Qed.

Lemma vignette_only_darkens_witness :
  exists out,
    Some (Gray [[5; 10]; [15; 20]]) = Some (Gray out) /\
    darkened out [[10; 20]; [30; 40]].
Proof.
  eapply (vignette_only_darkens soft_vignette_library Qmult
            [[10; 20]; [30; 40]] (85 # 100) (85 # 100) 30 empty_state).
  - apply soft_vignette_library_keeps_unit_masks.
  - repeat constructor; lia.
  - vm_compute. reflexivity.
Defined.

Lemma feathering_trace (L : library) (float_mul : Q -> Q -> Q)
    (feather_sigma : Q) (m : ndarray) (s : state) :
  trace (snd ((if negb (Qle_bool feather_sigma 0) then
                 GaussianBlur L m
                   (odd_kernel (py_int (float_mul 6%Q feather_sigma) + 1),
                    odd_kernel (py_int (float_mul 6%Q feather_sigma) + 1))
                   feather_sigma
               else ret m) s)) =
  trace s ++ feather_events float_mul feather_sigma.
Proof.
  unfold feather_events, feather_kernel.
  destruct (Qle_bool feather_sigma 0); cbn [negb].
  - cbn. by rewrite app_nil_r.
  - unfold GaussianBlur, bind, log, lift. cbn beta iota.
    by destruct (cv_GaussianBlur L m _ _).
Qed.

Lemma mask_conversion_trace (image mask_value : ndarray) (s : state) :
  trace (snd ((if is_color_image image
               then call "cv2.cvtColor" (mask_to_bgr mask_value)
               else ret mask_value) s)) =
  trace s ++ mask_conversion_events image.
Proof.
  unfold mask_conversion_events. destruct (is_color_image image).
  - unfold call, bind, log, lift. cbn beta iota.
    by destruct (mask_to_bgr mask_value).
  - cbn. by rewrite app_nil_r.
Qed.

Lemma ellipse_or_full_mask_trace (L : library) (mask : loc)
    (centre axes : Z * Z) (s : state) :
  trace (snd (try_except
                (m <- read mask ;;
                 m' <- call "cv2.ellipse" (cv_ellipse L m centre axes 1) ;;
                 write mask m')
                is_cv2_error
                (fun _ => m <- read mask ;; write mask (fill 1 m)) s)) =
  trace s ++ [EvCall "cv2.ellipse"].
Proof.
  unfold try_except, bind, call, read, write, log, lift, bind. cbn.
  destruct (cv_ellipse L (store s !!! mask) centre axes 1) as [e | m'];
    cbn; [| done].
  by destruct (is_cv2_error e).
Qed.

(** X19. The vignette draws one ellipse, then blurs the mask at most
    once, only when [feather_sigma] is positive, with that sigma and a
    square kernel whose side is [int(6 * feather_sigma) + 1], for the
    float product as the platform computes it, or the next number,
    whichever is odd; then, for a colour image only, it converts the mask
    to three channels.  A run that returns has made each of these calls
    that applies, in this order, and no other. *)
Theorem vignette_feathers_once_with_odd_kernel (L : library)
    (float_mul : Q -> Q -> Q) (image : ndarray)
    (scale_x scale_y feather_sigma : Q) (s : state) :
  let r :=
    apply_elliptical_vignette L float_mul (Some image) scale_x scale_y
      feather_sigma s in
  let k := feather_kernel float_mul feather_sigma in
  Z.odd k = true /\
  py_int (float_mul 6%Q feather_sigma) + 1 <= k
    <= py_int (float_mul 6%Q feather_sigma) + 2 /\
  exists feathering conversion,
    trace (snd r) =
      trace s ++ EvCall "cv2.ellipse" :: feathering ++ conversion /\
    (feathering = [] \/
     (Qle_bool feather_sigma 0 = false /\
      feathering = [EvGaussianBlur (k, k) feather_sigma])) /\
    (conversion = [] \/
     (is_color_image image = true /\ conversion = [EvCall "cv2.cvtColor"]))
    /\
    (forall out, fst r = Ok out ->
       feathering = feather_events float_mul feather_sigma /\
       conversion = mask_conversion_events image).
Proof.
  cbn zeta. split; [apply odd_kernel_odd |]. split.
  { unfold feather_kernel. rewrite odd_kernel_spec.
    destruct (Z.even _); lia. }
  assert (Hf : forall l, l = feather_events float_mul feather_sigma ->
             l = [] \/
             (Qle_bool feather_sigma 0 = false /\
              l = [EvGaussianBlur (feather_kernel float_mul feather_sigma,
                                   feather_kernel float_mul feather_sigma)
                     feather_sigma])).
  { intros l ->. unfold feather_events.
    destruct (Qle_bool feather_sigma 0); by auto. }
  assert (Hc : forall l, l = mask_conversion_events image ->
             l = [] \/
             (is_color_image image = true /\ l = [EvCall "cv2.cvtColor"])).
  { intros l ->. unfold mask_conversion_events.
    destruct (is_color_image image); by auto. }
  unfold apply_elliptical_vignette.
  destruct (shape2 image) as [h w]. cbn zeta.
  rewrite bind_run. cbn [alloc]. cbn beta iota.
  set (s1 := {| store := _; next := _; trace := _ |}).
  rewrite bind_run.
  match goal with
  | |- context [try_except ?body ?c ?hnd s1] =>
      pose proof (ellipse_or_full_mask_trace L (next s)
                    (w / 2, h / 2)
                    (Z.max 1 (py_int (float_mul (inject_Z w / 2)%Q scale_x)),
                     Z.max 1 (py_int (float_mul (inject_Z h / 2)%Q scale_y)))
                    s1) as Ht1;
      destruct (try_except body c hnd s1) as [[[] | e |] s2]
  end; cbn [snd] in Ht1; cbn beta iota;
    [| exists [], []; cbn [fst snd]; rewrite Ht1;
       split; [done |]; split; [first [by apply Hf | by left] |];
       split; [first [by apply Hc | by left] |]; by intros out Hout ..].
  rewrite bind_run. cbn [read]. cbn beta iota. rewrite bind_run.
  pose proof (feathering_trace L float_mul feather_sigma
                (store s2 !!! next s) s2) as Ht2.
  match goal with
  | |- context [(if negb ?b then ?x else ?y) s2] =>
      destruct ((if negb b then x else y) s2) as [[mask_value | e |] s3]
  end; cbn [snd] in Ht2; cbn beta iota;
    [| exists (feather_events float_mul feather_sigma), [];
       cbn [fst snd]; rewrite Ht2, Ht1, app_nil_r, <- app_assoc;
       split; [done |]; split; [first [by apply Hf | by left] |];
       split; [first [by apply Hc | by left] |]; by intros out Hout ..].
  rewrite bind_run.
  pose proof (mask_conversion_trace image mask_value s3) as Ht3.
  match goal with
  | |- context [(if is_color_image image then ?x else ?y) s3] =>
      destruct ((if is_color_image image then x else y) s3)
        as [[mask_for_image | e |] s4]
  end; cbn [snd] in Ht3; cbn beta iota;
    [| exists (feather_events float_mul feather_sigma),
         (mask_conversion_events image);
       cbn [fst snd]; rewrite Ht3, Ht2, Ht1, <- !app_assoc;
       split; [done |]; split; [first [by apply Hf | by left] |];
       split; [first [by apply Hc | by left] |]; by intros out Hout ..].
  exists (feather_events float_mul feather_sigma),
    (mask_conversion_events image).
  rewrite bind_run. unfold lift.
  destruct (multiply_by_mask image mask_for_image) as [e | result];
    cbn [fst snd raise ret]; cbn beta iota; cbn [fst snd];
    rewrite Ht3, Ht2, Ht1, <- !app_assoc;
    (split; [done |]; split; [by apply Hf |]; split; [by apply Hc |];
     by intros out Hout).
Qed.

Lemma vignette_feathers_once_with_odd_kernel_witness :
  trace (snd (apply_elliptical_vignette (bench_library [] [] high_score)
                Qmult
                (Some (Color [[(10, 20, 30); (40, 50, 60)]]))
                (85 # 100) (85 # 100) 30 empty_state)) =
  [EvCall "cv2.ellipse"; EvGaussianBlur (181, 181) 30;
   EvCall "cv2.cvtColor"].
Proof.
  destruct (vignette_feathers_once_with_odd_kernel
              (bench_library [] [] high_score) Qmult
              (Color [[(10, 20, 30); (40, 50, 60)]])
              (85 # 100) (85 # 100) 30 empty_state)
    as (_ & _ & feathering & conversion & Ht & _ & _ & Hok).
  destruct (Hok (Some (Color [[(0, 0, 0); (0, 0, 0)]])))
    as [-> ->]; [vm_compute; reflexivity |].
  rewrite Ht. reflexivity.
Defined.

Lemma zip_row_ones {A} (f : A -> cell -> A) (P : A -> Prop) (row : list A) :
  (forall a, P a -> f a (Fin 1) = a) -> Forall P row ->
  zip_row f row (repeat (Fin 1) (length row)) = Some row.
Proof.
  intros Hf. induction row as [| a row IH]; [done |].
  intros Hrow. inversion Hrow; subst. cbn.
  rewrite IH; [| done]. by rewrite Hf.
Qed.

Lemma zip_image_ones {A} (f : A -> cell -> A) (P : A -> Prop)
    (px : list (list A)) (w : nat) :
  (forall a, P a -> f a (Fin 1) = a) ->
  Forall (Forall P) px -> Forall (fun row => length row = w) px ->
  zip_image f px (repeat (repeat (Fin 1) w) (length px)) = Some px.
Proof.
  intros Hf. induction px as [| row px IH]; [done |].
  intros HP Hw. inversion HP; inversion Hw; subst. cbn.
  rewrite (zip_row_ones f P); [| done | done]. by rewrite IH.
Qed.

Lemma fill_one_zeros (h w : Z) :
  fill 1 (Float (zeros_float h w)) =
  Float (repeat (repeat (Fin 1) (Z.to_nat w)) (Z.to_nat h)).
Proof.
  unfold fill, zeros_float. f_equal.
  induction (Z.to_nat h) as [| n IH]; [done |]. cbn. f_equal; [| done].
  clear IH. induction (Z.to_nat w) as [| k IH]; [done |]. cbn. by f_equal.
Qed.

(** X20. When the ellipse cannot be drawn and no feathering is asked
    for ([feather_sigma] at most 0), the mask is 1 everywhere and the
    vignette returns a grayscale [uint8] image with equal rows element
    for element as it was. *)
Theorem failed_ellipse_hard_edge_returns_image (L : library)
    (float_mul : Q -> Q -> Q) (px : list (list Z)) (h w : nat)
    (scale_x scale_y feather_sigma : Q) (s : state) :
  (forall m centre axes v,
     exists e, cv_ellipse L m centre axes v = inl e /\
               is_cv2_error e = true) ->
  Qle_bool feather_sigma 0 = true ->
  has_shape px h w -> uint8_rows px ->
  fst (apply_elliptical_vignette L float_mul (Some (Gray px)) scale_x
         scale_y feather_sigma s) = Ok (Some (Gray px)).
Proof.
  intros Hfail Hsigma [Hh Hw] Hpx.
  unfold apply_elliptical_vignette. cbn [shape2 is_color_image].
  rewrite bind_run. cbn [alloc]. cbn beta iota.
  set (s1 := {| store := _; next := _; trace := _ |}).
  assert (Hm1 : store s1 !!! next s =
                Float (zeros_float (height px) (width px)))
    by (subst s1; cbn; by rewrite lookup_total_insert_eq).
  rewrite bind_run.
  match goal with
  | |- context [try_except ?m ?c ?hnd s1] =>
      assert (He : exists s2,
                 try_except m c hnd s1 = (Ok tt, s2) /\
                 store s2 !!! next s =
                   fill 1 (Float (zeros_float (height px) (width px))))
  end.
  { unfold try_except, call, bind, read, write, log, lift, raise, ret.
    cbn beta iota.
    match goal with
    | |- context [cv_ellipse L ?a ?b ?c ?d] =>
        destruct (Hfail a b c d) as (e & Heq & Hcv); rewrite Heq
    end.
    cbn beta iota. rewrite Hcv. eexists. split; [done |].
    cbn [store]. rewrite lookup_total_insert_eq. f_equal. exact Hm1. }
  destruct He as (s2 & -> & Hm2). cbn beta iota.
  rewrite bind_run. cbn [read]. cbn beta iota. rewrite Hsigma. cbn [negb].
  rewrite bind_run. cbn [ret]. cbn beta iota.
  rewrite bind_run. cbn [ret]. cbn beta iota. rewrite Hm2, fill_one_zeros.
  unfold multiply_by_mask. cbn [mask_cells].
  assert (Hz : zip_image vignette_u8 px
                 (repeat (repeat (Fin 1) (Z.to_nat (width px)))
                    (Z.to_nat (height px))) = Some px).
  { unfold height. rewrite Nat2Z.id.
    apply (zip_image_ones vignette_u8 (fun v => 0 <= v <= 255));
      [apply vignette_u8_one | exact Hpx |].
    destruct px as [| row px']; [constructor |].
    unfold width. rewrite Nat2Z.id. inversion Hw; subst.
    by constructor. }
  rewrite Hz. done.
Qed.

Lemma failed_ellipse_hard_edge_returns_image_witness :
  fst (apply_elliptical_vignette failing_ellipse Qmult
         (Some (Gray [[10; 20]; [30; 40]])) (85 # 100) (85 # 100) 0
         empty_state) = Ok (Some (Gray [[10; 20]; [30; 40]])).
Proof.
  apply (failed_ellipse_hard_edge_returns_image failing_ellipse Qmult
           [[10; 20]; [30; 40]] 2 2 (85 # 100) (85 # 100) 0 empty_state).
  - intros m centre axes v. by exists cv2_error.
  - reflexivity.
  - split; [reflexivity | repeat constructor].
  - repeat constructor; lia.
Defined.

(** ** [allowed_file] *)

Lemma rsplit_once_None (sep : Ascii.ascii) (s : string) :
  rsplit_once sep s = None <-> contains sep s = false.
Proof.
  induction s as [| c rest IH]; [done |]. cbn.
  destruct (rsplit_once sep rest) as [[before after] |].
  - split; [done |]. destruct (Ascii.eqb c sep); [done |].
    intros H. by apply IH in H.
  - destruct (Ascii.eqb c sep); [done |]. split; [| done].
    intros _. by apply IH.
Qed.

Lemma rsplit_once_Some (sep : Ascii.ascii) (s before after : string) :
  rsplit_once sep s = Some (before, after) <->
  s = (before ++ String sep after)%string /\ contains sep after = false.
Proof.
  revert before. induction s as [| c rest IH]; intros before.
  - cbn. split; [done |]. intros [H _]. by destruct before.
  - cbn. destruct (rsplit_once sep rest) as [[b a] |] eqn:E.
    + split.
      * intros [= <- <-]. destruct (proj1 (IH b) eq_refl) as [-> Ha].
        by split.
      * intros [H Ha]. destruct before as [| c' before']; cbn in H.
        -- injection H as -> ->. apply rsplit_once_None in Ha. congruence.
        -- injection H as -> H.
           assert (Hs : Some (b, a) = Some (before', after))
             by (by apply IH).
           by injection Hs as -> ->.
    + destruct (Ascii.eqb_spec c sep) as [-> | Hne].
      * split.
        -- intros [= <- <-]. split; [done |]. by apply rsplit_once_None.
        -- intros [H Ha]. destruct before as [| c' before']; cbn in H.
           ++ by injection H as ->.
           ++ injection H as -> H.
              assert (Hs : None = Some (before', after)) by (by apply IH).
              done.
      * split; [done |]. intros [H Ha].
        destruct before as [| c' before']; cbn in H.
        -- by injection H as -> _.
        -- injection H as -> H.
           assert (Hs : None = Some (before', after)) by (by apply IH).
           done.
Qed.

(** X21. [allowed_file] accepts exactly the names that consist of any
    text, a dot and an extension without a dot whose lower-case form is
    png, jpg or jpeg: only the text after the last dot counts, in any
    letter case, and the text before it may be empty. *)
Theorem allowed_file_accepts_by_last_extension (filename : string) :
  allowed_file filename = true <->
  exists base ext,
    filename = (base ++ String "."%char ext)%string /\
    contains "."%char ext = false /\
    lower ext ∈ ALLOWED_EXTENSIONS.
Proof.
  unfold allowed_file. split.
  - intros H. apply andb_true_iff in H as [_ H].
    destruct (rsplit_once "." filename) as [[base ext] |] eqn:E; [| done].
    apply rsplit_once_Some in E as [-> Hext].
    exists base, ext. split; [done |]. split; [done |].
    by apply bool_decide_eq_true in H.
  - intros (base & ext & -> & Hext & Hin).
    assert (E : rsplit_once "." (base ++ String "." ext) = Some (base, ext))
      by (by apply rsplit_once_Some).
    rewrite E. apply andb_true_iff. split.
    + destruct (contains "." (base ++ String "." ext)) eqn:Ec; [done |].
      apply rsplit_once_None in Ec. congruence.
    + by apply bool_decide_eq_true.
Qed.

(** ** What leaves [perform_liveness_check] *)

Lemma raises_only_copy (R : exception -> Prop) (l : loc) :
  raises_only R (copy l).
Proof. by intros s. Qed.

Lemma raises_only_except_any {A} (R : exception -> Prop) (m : M A)
    (h : exception -> M A) :
  raises_only (fun _ => True) m ->
  (forall e, raises_only R (h e)) ->
  raises_only R (try_except m any_exception h).
Proof.
  intros Hm Hh. eapply raises_only_try_except; [exact Hm | | exact Hh].
  by intros e _ He.
Qed.

Ltac raises_some :=
  lazymatch goal with
  | |- raises_only _ (bind _ _) =>
      apply raises_only_bind; [raises_some | intros ?; raises_some]
  | |- raises_only _ (try_except _ any_exception _) =>
      apply raises_only_except_any; [raises_some | intros ?; raises_some]
  | |- raises_only _ (if ?b then _ else _) => destruct b; raises_some
  | |- raises_only _ (match ?x with _ => _ end) => destruct x; raises_some
  | |- raises_only _ (ret _) => apply raises_only_ret
  | |- raises_only _ (raise _) => apply raises_only_raise; exact I
  | |- raises_only _ (read _) => apply raises_only_read
  | |- raises_only _ (write _ _) => apply raises_only_write
  | |- raises_only _ (alloc _) => apply raises_only_alloc
  | |- raises_only _ (copy _) => apply raises_only_copy
  | |- raises_only _ (log _) => apply raises_only_log
  | |- raises_only _ (call _ _) => apply raises_only_any_call
  | |- raises_only _ (lift ?r) => apply raises_only_lift; by destruct r
  end.

Section LivenessEnds.
Context (L : library) (frame : loc).

Lemma build_heatmap_raises (c : context) (overlay : loc) :
  raises_only (fun _ => False) (build_heatmap L frame c overlay).
Proof.
  unfold build_heatmap, draw_heatmap_overlay. raises_some.
Qed.

Lemma depth_comparison_raises (c : context)
    (heatmap_norm : option (list (list cell))) :
  raises_only (fun _ => False) (depth_comparison L frame c heatmap_norm).
Proof.
  unfold depth_comparison, compare_with_depth_model, show_model_depth,
    score_similarity.
  raises_some.
Qed.

Lemma plot_point_cloud_raises (c : context) :
  raises_only (plotting_failure L c) (plot_point_cloud L c).
Proof.
  unfold plot_point_cloud, plotting_failure.
  destruct (Z.ltb_spec 5 (dot_count c)) as [Hc | _];
    [| apply raises_only_ret].
  apply raises_only_bind.
  { apply raises_only_call.
    destruct (plt_scatter_3d L _ _) as [e |]; [| done]. by auto. }
  intros _. apply raises_only_bind.
  { apply raises_only_except_any; [raises_some |].
    intros e. apply raises_only_ret. }
  intros _. apply raises_only_call.
  destruct (plt_set_labels L) as [e |]; [| done]. by auto.
Qed.

Lemma check_face_dots_raises (c : context) :
  raises_only (plotting_failure L c) (check_face_dots L frame c).
Proof.
  unfold check_face_dots, prepare_heatmap.
  apply raises_only_bind.
  - apply raises_only_bind; [apply plot_point_cloud_raises |].
    intros _. apply raises_only_bind; [apply raises_only_copy |].
    intros overlay. eapply raises_only_weaken;
      [apply build_heatmap_raises | by intros e []].
  - intros heatmap. eapply raises_only_weaken;
      [apply depth_comparison_raises | by intros e []].
Qed.
End LivenessEnds.

(** X22. Once the dots of the face are extracted, an exception reaches
    the caller of [perform_liveness_check] only from the two plotting
    calls of stage 7 that stand outside a [try], [ax.scatter] and the
    axis labels, and only when there are more than five dots: the
    heatmap and the comparison with the depth model absorb every
    exception, and nothing ends the process. *)
Theorem only_plotting_raises_after_extraction (L : library) (frame : loc)
    (c : context) (s : state) :
  match fst (check_face_dots L frame c s) with
  | Ok _ => True
  | Raise e => plotting_failure L c e
  | Exit => False
  end.
Proof. apply check_face_dots_raises. Qed.

Lemma exits_of_raises {A} (R : exception -> Prop) (X : Prop) (m : M A) :
  raises_only R m -> exits_only_if X m.
Proof. intros H s He. specialize (H s). by rewrite He in H. Qed.

Lemma exits_bind {A B} (X : Prop) (m : M A) (k : A -> M B) :
  exits_only_if X m -> (forall a, exits_only_if X (k a)) ->
  exits_only_if X (bind m k).
Proof.
  intros Hm Hk s. unfold bind. specialize (Hm s).
  destruct (m s) as [[a | e |] s1]; cbn in *; [apply Hk | done | by auto].
Qed.

Lemma filter_keypoints_no_exit (L : library) (g : list (list Z))
    (f : FaceRegion) (d : loc) (kps : list KeyPoint) (acc : dots) :
  raises_only (fun _ => True) (filter_keypoints L g f d acc kps).
Proof.
  revert acc. induction kps as [| k kps IH]; intros acc;
    [apply raises_only_ret |].
  cbn [filter_keypoints]. apply raises_only_bind; [| intros; apply IH].
  unfold filter_keypoint. raises_some.
Qed.

Lemma extract_face_dots_exits (L : library) (frame : loc) :
  exits_only_if (cascade_empty L = true) (extract_face_dots L frame).
Proof.
  unfold extract_face_dots.
  apply exits_bind;
    [apply (exits_of_raises (fun _ => True)), raises_only_copy |].
  intros img. apply exits_bind;
    [apply (exits_of_raises (fun _ => True)), raises_only_read |].
  intros fr. apply exits_bind;
    [apply (exits_of_raises (fun _ => True)), raises_only_any_call |].
  intros g. apply exits_bind;
    [apply (exits_of_raises (fun _ => True)), raises_only_log |].
  intros _. destruct (cascade_empty L); [by intros s _ |].
  apply (exits_of_raises (fun _ => True)).
  apply raises_only_bind; [unfold load_depth_model; raises_some |].
  intros models. apply raises_only_bind; [apply raises_only_any_call |].
  intros faces. destruct (_ =? _)%nat; [apply raises_only_ret |].
  destruct (sorted_reverse area_key faces) as [| f rest];
    [by apply raises_only_raise |].
  apply raises_only_bind; [| intros; apply raises_only_ret].
  unfold dots_in_face.
  repeat (apply raises_only_bind;
          [first [apply raises_only_read | apply raises_only_write
                 | apply raises_only_any_call
                 | apply filter_keypoints_no_exit] | intros ?]).
  apply raises_only_ret.
Qed.

(** X23. [perform_liveness_check] ends the process only through the
    [exit()] of line 652, that is, only when the face cascade is
    empty. *)
Theorem exits_only_for_empty_cascade (L : library) (frame : loc)
    (s : state) :
  fst (perform_liveness_check L frame s) = Exit -> cascade_empty L = true.
Proof.
  revert s. change (exits_only_if (cascade_empty L = true)
                      (perform_liveness_check L frame)).
  unfold perform_liveness_check, liveness_verdict.
  apply exits_bind; [| intros r; by intros s].
  apply exits_bind; [apply extract_face_dots_exits |].
  intros [c |]; [| by intros s].
  apply exits_bind; [| intros v; by intros s].
  eapply exits_of_raises. apply check_face_dots_raises.
Qed.

Lemma exits_only_for_empty_cascade_witness :
  cascade_empty
    (with_loading (bench_library [bench_face] six_dots high_score) true
       (inr (Handle 1))) = true.
Proof.
  apply (exits_only_for_empty_cascade
           (with_loading (bench_library [bench_face] six_dots high_score)
              true (inr (Handle 1)))
           0%nat bench_state).
  vm_compute. reflexivity.
Defined.

(** ** Slices *)

Lemma slice_bound_range (n i : Z) :
  0 <= n -> 0 <= slice_bound n i <= n.
Proof.
  intros Hn. unfold slice_bound. destruct (Z.ltb_spec i 0); lia.
Qed.

Lemma set_slice_py_slice {A} (l : list A) (start stop : Z) :
  set_slice l start stop (py_slice l start stop) = l.
Proof.
  unfold set_slice, py_slice.
  set (n := Z.of_nat (length l)).
  assert (Hn : 0 <= n) by lia.
  pose proof (slice_bound_range n start Hn) as Hs.
  pose proof (slice_bound_range n stop Hn) as He.
  set (a := slice_bound n start) in *. set (b := slice_bound n stop) in *.
  destruct (Z.le_gt_cases a b) as [Hab | Hab].
  - rewrite Z.max_r by lia.
    replace (Z.to_nat b) with (Z.to_nat a + Z.to_nat (b - a))%nat by lia.
    rewrite <- drop_drop, take_drop. apply take_drop.
  - rewrite Z.max_l by lia.
    replace (Z.to_nat (b - a)) with 0%nat by lia. cbn.
    apply take_drop.
Qed.

Lemma set_slice_image_slice_image {A} (px : list (list A))
    (y0 y1 x0 x1 : Z) :
  set_slice_image px y0 y1 x0 x1 (slice_image px y0 y1 x0 x1) = px.
Proof.
  unfold set_slice_image, slice_image.
  assert (H : forall rows : list (list A),
             zip_with (fun row new_row => set_slice row x0 x1 new_row) rows
               (map (fun row => py_slice row x0 x1) rows) = rows).
  { induction rows as [| row rows IH]; [done |]. cbn.
    by rewrite set_slice_py_slice, IH. }
  rewrite H. apply set_slice_py_slice.
Qed.

(** X24. Writing a slice of an array back to the place it was read from
    changes nothing, so the assignment of line 842,
    [overlay[fy:fy+fh, fx:fx+fw] = roi_overlay], leaves [overlay] as the
    blend left it, whatever the bounds. *)
Theorem slice_written_back_changes_nothing (a : ndarray)
    (y0 y1 x0 x1 : Z) :
  setslice a y0 y1 x0 x1 (getslice a y0 y1 x0 x1) = a.
Proof.
  destruct a as [px | px | px]; cbn;
    by rewrite set_slice_image_slice_image.
Qed.

(** ** The dot filter *)

Lemma getitem_clamped (g : list (list Z)) (h w : nat) (y x : Z) :
  has_shape g h w -> (0 < h)%nat -> (0 < w)%nat ->
  exists v,
    getitem g (Z.max 0 (Z.min y (height g - 1)))
      (Z.max 0 (Z.min x (width g - 1))) = inr v.
Proof.
  intros [Hh Hw] Hh0 Hw0. unfold getitem.
  assert (Hwidth : width g = Z.of_nat w).
  { destruct g as [| row g']; [cbn in Hh; lia |].
    inversion Hw; subst. done. }
  assert (Hheight : height g = Z.of_nat h) by (unfold height; lia).
  rewrite Hwidth, Hheight.
  destruct (nth_error g (Z.to_nat (Z.max 0 (Z.min y (Z.of_nat h - 1)))))
    as [row |] eqn:Ey.
  - assert (Hrow : length row = w).
    { rewrite Forall_forall in Hw. apply Hw.
      apply list_elem_of_In. by eapply nth_error_In. }
    destruct (nth_error row (Z.to_nat (Z.max 0 (Z.min x (Z.of_nat w - 1)))))
      as [v |] eqn:Ex; [by exists v |].
    apply nth_error_None in Ex. lia.
  - apply nth_error_None in Ey. lia.
Qed.

Lemma filter_keypoints_raises (L : library) (g : list (list Z))
    (h w : nat) (f : FaceRegion) (d : loc) (kps : list KeyPoint)
    (acc : dots) :
  has_shape g h w -> (0 < h)%nat -> (0 < w)%nat ->
  raises_only (circle_failure L) (filter_keypoints L g f d acc kps).
Proof.
  intros Hs Hh Hw. revert acc.
  induction kps as [| k kps IH]; intros acc; [apply raises_only_ret |].
  cbn [filter_keypoints]. apply raises_only_bind; [| intros; apply IH].
  unfold filter_keypoint. destruct (_ && _ && _ && _);
    [| apply raises_only_ret].
  apply raises_only_bind.
  { apply raises_only_lift.
    destruct (getitem_clamped g h w (py_int (pt_y k)) (py_int (pt_x k))
                Hs Hh Hw) as [v ->]. done. }
  intros v. apply raises_only_bind; [apply raises_only_read |].
  intros img. apply raises_only_bind.
  { apply raises_only_call.
    destruct (cv_circle L img _ 3 (0, 255, 0) (-1)) as [e |] eqn:E;
      [| done].
    by eexists _, _. }
  intros img'. apply raises_only_bind; [apply raises_only_write |].
  intros _. apply raises_only_ret.
Qed.

(** X25. On a frame that is not empty the dot filter never fails while
    it samples an intensity: the clamped index is always inside the
    grayscale image, so no [IndexError] arises, and the loop raises only
    what [cv2.circle] raises. *)
Theorem dot_filter_raises_only_from_circle (L : library)
    (g : list (list Z)) (h w : nat) (f : FaceRegion) (d : loc)
    (kps : list KeyPoint) (acc : dots) (s : state) :
  has_shape g h w -> (0 < h)%nat -> (0 < w)%nat ->
  match fst (filter_keypoints L g f d acc kps s) with
  | Ok _ => True
  | Raise e => circle_failure L e
  | Exit => False
  end.
Proof. intros Hs Hh Hw. by apply (filter_keypoints_raises L g h w). Qed.

Lemma dot_filter_raises_only_from_circle_witness :
  match
    fst (filter_keypoints (bench_library [] [] high_score) tiny_gray
           (mkFace 0 0 9 9) 0%nat no_dots
           [mkKeyPoint 1 1; mkKeyPoint 5 5] bench_state)
  with
  | Ok _ => True
  | Raise e => circle_failure (bench_library [] [] high_score) e
  | Exit => False
  end.
Proof.
  apply (dot_filter_raises_only_from_circle
           (bench_library [] [] high_score) tiny_gray 2 3 (mkFace 0 0 9 9)
           0%nat [mkKeyPoint 1 1; mkKeyPoint 5 5] no_dots bench_state).
  - split; [reflexivity | repeat constructor].
  - lia.
  - lia.
Defined.

(** ** The SSIM window *)

Lemma win_size_of_min (h w : Z) :
  win_size h w =
  (if Z.min 7 (Z.min h w / 2 * 2 + 1) <? 3 then 3
   else Z.min 7 (Z.min h w / 2 * 2 + 1)).
Proof.
  unfold win_size.
  assert (E : Z.min (h / 2 * 2 + 1) (w / 2 * 2 + 1) =
              Z.min h w / 2 * 2 + 1).
  { destruct (Z.min_spec h w) as [[Hlt ->] | [Hle ->]].
    - apply Z.min_l. Z.to_euclidean_division_equations; lia.
    - apply Z.min_r. Z.to_euclidean_division_equations; lia. }
  by rewrite E.
Qed.

Lemma score_similarity_passes_win_size (L : library)
    (heatmap_norm : list (list cell)) (m : ndarray) (v : verdict)
    (s s' : state)
    (f : list (list cell) -> ndarray -> Q -> Z ->
         exception + (cell * ndarray)) :
  ssim L = Some f ->
  score_similarity L heatmap_norm m s = (Ok v, s') ->
  exists resized r,
    f heatmap_norm resized 1%Q
      (win_size (height heatmap_norm) (width heatmap_norm)) = inr r.
Proof.
  intros Hssim H. unfold score_similarity in H.
  apply bind_Ok in H as (resized & s1 & _ & H). rewrite Hssim in H.
  apply bind_Ok in H as (r & s2 & Hcall & _).
  apply call_Ok in Hcall as [Hcall _]. by exists resized, r.
Qed.

Lemma rejected_window_fails_closed (L : library) (frame : loc)
    (c : context) (heatmap_norm : list (list cell)) (s : state)
    (f : list (list cell) -> ndarray -> Q -> Z ->
         exception + (cell * ndarray)) :
  ssim L = Some f ->
  (forall m, exists e,
     f heatmap_norm m 1%Q
       (win_size (height heatmap_norm) (width heatmap_norm)) = inl e) ->
  exists s', depth_comparison L frame c (Some heatmap_norm) s =
             (Ok not_live, s').
Proof.
  intros Hssim Hrej.
  pose proof (depth_comparison_raises L frame c (Some heatmap_norm) s) as Hr.
  destruct (depth_comparison L frame c (Some heatmap_norm) s)
    as [[v | e |] s'] eqn:E; cbn [fst] in Hr; [| done | done].
  exists s'. f_equal. f_equal. unfold depth_comparison in E.
  destruct (depth_model c) as [model |];
    [| by apply ret_Ok in E as [<- _]].
  destruct (depth_processor c) as [processor |];
    [| by apply ret_Ok in E as [<- _]].
  apply try_except_Ok in E as [E | (e & s1 & _ & E)];
    [| by apply ret_Ok in E as [<- _]].
  exfalso. unfold compare_with_depth_model in E.
  apply bind_Ok in E as (fr & s1 & _ & E).
  apply bind_Ok in E as (rgb & s2 & _ & E).
  apply bind_Ok in E as (full & s3 & _ & E).
  destruct (clamp_roi (gray c) (face c)) as [[[fx_c fy_c] fw_c] fh_c].
  destruct (_ || _); [done |].
  apply bind_Ok in E as (m & s4 & _ & E).
  apply bind_Ok in E as ([] & s5 & _ & E).
  destruct (score_similarity_passes_win_size L heatmap_norm m v s5 s' f
              Hssim E) as (resized & r & Hok).
  destruct (Hrej resized) as [e He]. congruence.
Qed.



(** ** The blurs of [_create_single_pseudo_depth_map], stage by stage *)

Lemma blurs_app (a b : list event) : blurs (a ++ b) = blurs a ++ blurs b.
Proof. apply List.filter_app. Qed.

Lemma blurs_no_blur (l : list event) : Forall no_blur l -> blurs l = [].
Proof.
  induction 1 as [| ev l Hev _ IH]; [done |].
  cbn. destruct ev; [done | exact IH].
Qed.

Lemma issues_of_local {A} (m : M A) (Q : A -> Prop) :
  local 0%nat no_blur m Q -> issues (fun l => l = []) m.
Proof.
  intros H s. destruct (H s ltac:(lia)) as (_ & (added & Ht & Hf) & _).
  exists added. split; [done | by apply blurs_no_blur].
Qed.

Lemma issues_weaken {A} (X Y : list event -> Prop) (m : M A) :
  issues X m -> (forall l, X l -> Y l) -> issues Y m.
Proof.
  intros H HXY s. destruct (H s) as (added & Ht & HX).
  exists added. by auto.
Qed.

Lemma issues_ret {A} (a : A) : issues (fun l => l = []) (ret a).
Proof. intros s. exists []. by rewrite app_nil_r. Qed.

Lemma issues_bind_quiet_l {A B} (Y : list event -> Prop) (m : M A)
    (k : A -> M B) :
  issues (fun l => l = []) m -> (forall a, issues Y (k a)) -> Y [] ->
  issues Y (bind m k).
Proof.
  intros Hm Hk HY s. unfold bind.
  destruct (Hm s) as (a1 & Ht1 & Hb1).
  destruct (m s) as [[a | e |] s1]; cbn [snd] in *.
  - destruct (Hk a s1) as (a2 & Ht2 & Hb2). exists (a1 ++ a2).
    rewrite Ht2, Ht1, <- app_assoc. split; [done |].
    by rewrite blurs_app, Hb1.
  - exists a1. split; [done |]. by rewrite Hb1.
  - exists a1. split; [done |]. by rewrite Hb1.
Qed.

Lemma issues_bind_quiet_r {A B} (Y : list event -> Prop) (m : M A)
    (k : A -> M B) :
  issues Y m -> (forall a, issues (fun l => l = []) (k a)) ->
  issues Y (bind m k).
Proof.
  intros Hm Hk s. unfold bind.
  destruct (Hm s) as (a1 & Ht1 & Hb1).
  destruct (m s) as [[a | e |] s1]; cbn [snd] in *; [| by eauto | by eauto].
  destruct (Hk a s1) as (a2 & Ht2 & Hb2). exists (a1 ++ a2).
  rewrite Ht2, Ht1, <- app_assoc. split; [done |].
  by rewrite blurs_app, Hb2, app_nil_r.
Qed.

Section PseudoDepthBlurs.
Context (L : library) (p : depth_params).

Lemma draw_elliptical_mask_quiet (mask : loc) (h w : Z) :
  issues (fun l => l = []) (draw_elliptical_mask L mask h w p).
Proof.
  apply (issues_of_local _ (fun _ => True)).
  unfold draw_elliptical_mask. local_go.
Qed.

Lemma colorize_quiet (d m : ndarray) :
  issues (fun l => l = []) (colorize L p d m).
Proof.
  apply (issues_of_local _ (fun _ => True)). unfold colorize. local_go.
Qed.

Lemma adjust_brightness_quiet (a m : ndarray) (is_color : bool) :
  issues (fun l => l = []) (adjust_brightness L p a m is_color).
Proof.
  apply (issues_of_local _ (fun _ => True)).
  unfold adjust_brightness. local_go.
Qed.

Lemma call_quiet {A} (name : string) (r : exception + A) :
  issues (fun l => l = []) (call name r).
Proof. apply (issues_of_local _ (fun _ => True)). local_go. Qed.

(** Step 8 issues its blur before anything in it can fail. *)
Lemma final_blur_issues (a m : ndarray) (is_color : bool) :
  issues (fun l => l = final_stage_blurs p is_color)
    (final_blur L p a m is_color).
Proof.
  intros s. unfold final_blur, final_stage_blurs, final_kernel_positive.
  destruct is_color; cbn [andb]; [| exists []; by rewrite app_nil_r].
  destruct (_ && _).
  - unfold try_except, GaussianBlur, call, bind, log, lift, raise, ret.
    cbn beta iota. cbn [store next trace].
    exists (last_blur p ::
            match cv_GaussianBlur L a
                    (odd_kernel (fst (final_blur_kernel_size p)),
                     odd_kernel (snd (final_blur_kernel_size p)))
                    (final_blur_sigma p) with
            | inl _ => []
            | inr _ =>
                EvCall "cv2.cvtColor" ::
                match cvtColor_GRAY2BGR m with
                | inl _ => []
                | inr _ => [EvCall "cv2.bitwise_and"]
                end
            end).
    destruct (cv_GaussianBlur L a _ _) as [e | blurred]; cbn beta iota.
    { split; [by destruct (is_cv2_error e) | done]. }
    cbn [store next trace].
    destruct (cvtColor_GRAY2BGR m) as [e | m3]; cbn beta iota.
    { split; [| done].
      destruct (is_cv2_error e); cbn; by rewrite <- !app_assoc. }
    cbn [store next trace].
    destruct (bitwise_and blurred m3) as [e | out]; cbn beta iota.
    + split; [| done].
      destruct (is_cv2_error e); cbn; by rewrite <- !app_assoc.
    + split; [| done]. cbn. by rewrite <- !app_assoc.
  - exists []. by rewrite app_nil_r.
Qed.

Lemma after_initial_blur_issues (target : Z * Z) (blurred_roi : ndarray) :
  issues (fun l => l = [] \/
                   (final_kernel_positive p = true /\ l = [last_blur p]))
    (after_initial_blur L p target blurred_roi).
Proof.
  unfold after_initial_blur.
  apply issues_bind_quiet_l; [apply call_quiet | | by left].
  intros normalized. destruct (shape2 normalized) as [h w].
  apply issues_bind_quiet_l; [| | by left].
  { apply (issues_of_local _ (fun _ => True)). local_go. }
  intros mask.
  apply issues_bind_quiet_l; [apply draw_elliptical_mask_quiet | | by left].
  intros _. apply issues_bind_quiet_l; [| | by left].
  { apply (issues_of_local _ (fun _ => True)). local_go. }
  intros m. apply issues_bind_quiet_l; [apply call_quiet | | by left].
  intros data. apply issues_bind_quiet_l; [| | by left].
  { apply (issues_of_local _ (fun _ => True)). local_go. }
  intros [[display_data display_mask_resized] |];
    [| eapply issues_weaken; [apply issues_ret | by left]].
  apply issues_bind_quiet_l; [apply colorize_quiet | | by left].
  intros [before is_color].
  apply issues_bind_quiet_l; [apply adjust_brightness_quiet | | by left].
  intros after. apply issues_bind_quiet_r; [| intros; apply issues_ret].
  eapply issues_weaken; [apply final_blur_issues |].
  intros l ->. unfold final_stage_blurs.
  destruct is_color; cbn [andb]; [| by left].
  destruct (final_kernel_positive p); [by right | by left].
Qed.

(** A run of steps 2 to 8 that returns a map: either the resized
    grayscale data, with no blur, or a masked colour image, with the
    blur of the final stage. *)
Lemma after_initial_blur_Some_blurs (target : Z * Z)
    (blurred_roi out : ndarray) (s s' : state) :
  after_initial_blur L p target blurred_roi s = (Ok (Some out), s') ->
  exists added data display,
    trace s' = trace s ++ added /\
    cv_resize L data target INTER_LINEAR = inr display /\
    ((out = display /\ blurs added = []) \/
     (exists m mask_resized,
        cv_resize L m target INTER_NEAREST = inr mask_resized /\
        masked_by out mask_resized /\
        blurs added = final_stage_blurs p true)).
Proof.
  unfold after_initial_blur. intros H.
  apply bind_Ok in H as (normalized & s1 & Hn & H).
  apply call_Ok in Hn as [Hn ->].
  destruct (shape2 normalized) as [h w].
  apply bind_Ok in H as (mask & s2 & Ha & H).
  apply bind_Ok in H as ([] & s3 & Hd & H).
  pose proof (draw_elliptical_mask_trace L p mask h w s2) as Ht.
  rewrite Hd in Ht. cbn [snd] in Ht.
  assert (Ht2 : trace s2 = trace s ++ [EvCall "cv2.normalize"])
    by (by inversion Ha).
  clear Ha Hd.
  apply bind_Ok in H as (m & s4 & Hr & H).
  assert (s4 = s3) as -> by (by inversion Hr). clear Hr.
  apply bind_Ok in H as (data & s5 & Hb & H).
  apply call_Ok in Hb as [Hb ->].
  apply bind_Ok in H as (resized & s6 & Hres & H).
  apply try_except_caught in Hres as [Hres | (e & s7 & Hres & He & Hh)].
  2: { apply ret_Ok in Hh as [<- ->]. by apply ret_Ok in H as [H _]. }
  apply bind_Ok in Hres as (display & s7 & Hr1 & Hres).
  apply call_Ok in Hr1 as [Hr1 ->].
  apply bind_Ok in Hres as (m' & s8 & Hr & Hres).
  assert (s8 = {| store := store s3; next := next s3;
                  trace := (trace s3 ++ [EvCall "cv2.bitwise_and"]) ++
                           [EvCall "cv2.resize"] |}) as ->
    by (by inversion Hr).
  clear Hr.
  apply bind_Ok in Hres as (mr & s9 & Hr2 & Hres).
  apply call_Ok in Hr2 as [Hr2 ->].
  apply ret_Ok in Hres as [<- ->].
  apply bind_Ok in H as ([before c] & s10 & Hc & H).
  apply bind_Ok in H as (after & s11 & Hab & H).
  apply bind_Ok in H as (out' & s12 & Hf & H).
  apply ret_Ok in H as [H ->]. injection H as ->.
  match type of Hc with
  | colorize _ _ _ _ ?s6 = _ =>
      destruct (colorize_quiet display mr s6) as (a1 & Ht10 & Hb1)
  end.
  rewrite Hc in Ht10. cbn [snd trace] in Ht10.
  destruct (adjust_brightness_quiet before mr c s10) as (a2 & Ht11 & Hb2).
  rewrite Hab in Ht11. cbn [snd] in Ht11.
  destruct (final_blur_issues after mr c s11) as (a3 & Ht12 & Hb3).
  rewrite Hf in Ht12. cbn [snd] in Ht12.
  apply colorize_Ok in Hc as (Hc1 & Hc2 & _).
  apply adjust_brightness_Ok in Hab as [Hab1 Hab2]; [| done].
  apply final_blur_Ok in Hf as [Hf1 Hf2]; [| done].
  exists ([EvCall "cv2.normalize"; EvCall "cv2.ellipse";
           EvCall "cv2.bitwise_and"; EvCall "cv2.resize";
           EvCall "cv2.resize"] ++ a1 ++ a2 ++ a3), data, display.
  split.
  { rewrite Ht12, Ht11, Ht10, Ht, Ht2. by rewrite <- !app_assoc. }
  split; [done |].
  rewrite !blurs_app, Hb1, Hb2, Hb3. cbn [blurs List.filter is_blur app].
  destruct c.
  - right. exists m', mr. split; [done |]. split; [by apply Hf1 | done].
  - left. destruct (Hf2 eq_refl) as [-> _].
    destruct (Hab2 eq_refl) as [-> _]. split; [by apply Hc2 | done].
Qed.
End PseudoDepthBlurs.

(** C7. In [_create_single_pseudo_depth_map] an even kernel dimension [k]
    becomes [k + 1] and an odd one stays, at both blur stages.  Every
    Gaussian blur that the function issues receives a configured kernel
    with both dimensions treated so.  For every non-empty ROI the first
    event of the run is the first blur, with [blur_kernel_size] forced
    odd and [blur_sigma]; the only other blur a run can issue is the one
    of the final stage, with [final_blur_kernel_size] forced odd and
    [final_blur_sigma], and only when both forced dimensions are
    positive.  The final stage, for a colour image and positive forced
    dimensions, issues exactly that blur, and none otherwise; and a run
    that returns a map returns either the resized grayscale data, having
    issued no further blur, or a masked colour image, having issued the
    blur of the final stage. *)
Theorem blur_kernel_dimensions_forced_odd (L : library)
    (face_roi : option loc) (target_display_size : Z * Z)
    (p : depth_params) (s : state) :
  let r := _create_single_pseudo_depth_map L face_roi target_display_size p s
  in
  let s' := snd r in
  (forall k, odd_kernel k = if Z.even k then k + 1 else k) /\
  (forall k, Z.odd (odd_kernel k) = true) /\
  appends (forced_odd_blur p) s s' /\
  (forall a m is_color,
     issues (fun l => l = final_stage_blurs p is_color)
       (final_blur L p a m is_color)) /\
  (forall roi, face_roi = Some roi -> size (store s !!! roi) <> 0 ->
     exists rest,
       trace s' =
       trace s ++
         EvGaussianBlur (odd_kernel (fst (blur_kernel_size p)),
                         odd_kernel (snd (blur_kernel_size p)))
           (blur_sigma p) :: rest /\
       (blurs rest = [] \/
        (final_kernel_positive p = true /\ blurs rest = [last_blur p])) /\
       forall out, fst r = Ok (Some out) ->
         exists data display,
           cv_resize L data target_display_size INTER_LINEAR = inr display /\
           ((out = display /\ blurs rest = []) \/
            (exists m mask_resized,
               cv_resize L m target_display_size INTER_NEAREST =
                 inr mask_resized /\
               masked_by out mask_resized /\
               blurs rest = final_stage_blurs p true))).
Proof.
  cbn zeta. split; [apply odd_kernel_spec |].
  split; [apply odd_kernel_odd |]. split.
  { apply (local_create_single_pseudo_depth_map L p 0%nat face_roi
             target_display_size s). lia. }
  split; [intros a m c; apply final_blur_issues |].
  intros roi -> Hsize. unfold _create_single_pseudo_depth_map.
  rewrite bind_run. cbn [read]. cbn beta iota.
  destruct (Z.eqb_spec (size (store s !!! roi)) 0) as [E | _]; [done |].
  rewrite bind_run. pose proof (initial_blur_trace L p roi s) as Ht.
  destruct (initial_blur L p roi s) as [[blurred | e |] s1];
    cbn [snd] in Ht; cbn beta iota.
  - destruct (after_initial_blur_issues L p target_display_size blurred s1)
      as (rest & Hrest & Hblurs).
    exists rest. split; [by rewrite Hrest, Ht, <- app_assoc |].
    split; [done |]. intros out Hout.
    destruct (after_initial_blur L p target_display_size blurred s1)
      as [o s2] eqn:Hrun.
    cbn [fst snd] in *. subst o.
    apply after_initial_blur_Some_blurs in Hrun
      as (added & data & display & Hadded & Hd & Hcases).
    assert (added = rest) as ->.
    { rewrite Hrest in Hadded. by apply app_inv_head in Hadded. }
    by exists data, display.
  - exists []. split; [done |]. split; [by left | done].
  - exists []. split; [done |]. split; [by left | done].
Qed.

Lemma blur_kernel_dimensions_forced_odd_witness :
  exists rest,
    trace (snd (_create_single_pseudo_depth_map
                  (bench_library [] [] high_score) (Some 0%nat) (600, 600)
                  default_depth_params bench_state)) =
      [] ++ EvGaussianBlur (41, 41) 25 :: rest /\
    blurs rest = [EvGaussianBlur (45, 45) 0].
Proof.
  destruct (blur_kernel_dimensions_forced_odd
              (bench_library [] [] high_score) (Some 0%nat) (600, 600)
              default_depth_params bench_state) as (_ & _ & _ & _ & H).
  destruct (H 0%nat) as (rest & Ht & _ & _);
    [reflexivity | vm_compute; discriminate |].
  exists rest. split; [exact Ht |].
  vm_compute in Ht. injection Ht as <-. reflexivity.
Defined.
